(** * node-bowler: the packet codec, framing parser, registry and dispatcher

    A shallow embedding of the JavaScript sources of node-bowler
    (lib/packet.js, lib/util.js, lib/bowler_device.js,
    lib/extra_namespaces.js, lib/extra_namespaces/bcs_core.js,
    lib/command_handler.js, lib/devices/nr_dyio.js) and the properties of
    the protocol description checked against them.

    Conventions of the embedding.
    - A JavaScript function that can throw returns a [result]; [Throw]
      carries the exception.
    - A Node [Buffer] is a list of byte values ([Z], 0..255).  Index
      arithmetic is done in [Z], as the source does it on numbers.
    - Mutable objects are passed and returned explicitly.
    - An identifier is resolved the way JavaScript resolves it: a name that
      is neither a local, a parameter nor a module variable raises
      [ReferenceError]; [undefined + n] is [NaN]. *)

From Stdlib Require Import ZArith Lia Bool Ascii Sorted.
From stdpp Require Import base option list strings pretty.

Open Scope Z_scope.

(** ** Exceptions *)

Inductive js_error : Type :=
| ReferenceError (name : string)     (* <name> is not defined *)
| TypeError (msg : string)
| RangeError (msg : string)
| Error (msg : string).              (* new Error(msg) thrown by the sources *)

Inductive result (A : Type) : Type :=
| Ok (a : A)
| Throw (e : js_error).
Arguments Ok {A} a.
Arguments Throw {A} e.

(** Sequencing of statements that can throw: [x ← r; k]. *)
#[global] Instance result_ret : MRet result := fun A a => Ok a.
#[global] Instance result_bind : MBind result := fun A B k r =>
  match r with
  | Ok a => k a
  | Throw e => Throw e
  end.

Definition is_ok {A} (r : result A) : bool :=
  match r with Ok _ => true | Throw _ => false end.

(** ** Node's Buffer

    The part of the Buffer interface the sources use, with the behaviour of
    the Node line they were written for (0.11/0.12: generators and
    [toArrayBuffer]).  [new Buffer(n)] does not initialise its memory; the
    embedding fills it with zeros, and no statement below relies on the
    content of a cell that was never written. *)

Module Buffer.

Abbreviation t := (list Z).

Definition length (b : t) : Z := Z.of_nat (List.length b).

(** [new Buffer(n)]; a size that is negative yields the empty buffer. *)
Definition alloc (n : Z) : t := repeat 0 (Z.to_nat n).

(** [buf.fill(v)] *)
Definition fill (b : t) (v : Z) : t := repeat v (List.length b).

(** [buf[i]] for reading: [None] is [undefined]. *)
Definition get (b : t) (i : Z) : option Z :=
  if i <? 0 then None else b !! Z.to_nat i.

(** [buf[i] = v]: an index outside the buffer is ignored. *)
Definition set (b : t) (i v : Z) : t :=
  if i <? 0 then b else <[Z.to_nat i := v mod 256]> b.

(** [buf.slice(a, b)] for [0 <= a]: the bytes from [a] up to, not
    including, [b], clamped to the buffer. *)
Definition sub (b : t) (a e : Z) : t :=
  take (Z.to_nat (e - a)) (drop (Z.to_nat a) b).

(** [source.copy(target, targetStart, sourceStart, sourceEnd)].  Returns
    the target after the copy and the number of bytes copied.  A negative
    index throws; a range that does not fit is cut to what fits. *)
Definition copy (source target : t) (target_start source_start source_end : Z)
  : result (t * Z) :=
  if (target_start <? 0) || (source_start <? 0) || (source_end <? 0) then
    Throw (RangeError "out of range index")
  else if (length target <=? target_start) || (source_end <=? source_start) then
    Ok (target, 0)
  else if length source <? source_start then
    Throw (RangeError "out of range index")
  else
    let to_copy :=
      Z.min (Z.min (source_end - source_start) (length target - target_start))
            (length source - source_start) in
    Ok (take (Z.to_nat target_start) target
          ++ sub source source_start (source_start + to_copy)
          ++ drop (Z.to_nat (target_start + to_copy)) target,
        to_copy).

(** [buf.readUInt8(i)]; a cell reads as a byte. *)
Definition readUInt8 (b : t) (i : Z) : result Z :=
  match get b i with
  | Some v => Ok (v mod 256)
  | None => Throw (RangeError "index out of range")
  end.

(** [buf.writeUInt8(v, i)] *)
Definition writeUInt8 (b : t) (v i : Z) : result t :=
  if (v <? 0) || (255 <? v) then Throw (TypeError "value is out of bounds")
  else if (i <? 0) || (length b <? i + 1) then Throw (RangeError "index out of range")
  else Ok (set b i v).

(** Big-endian two's complement bytes of [v], [n] of them. *)
Fixpoint be_bytes (n : nat) (v : Z) : list Z :=
  match n with
  | O => []
  | S m => (Z.shiftr v (8 * Z.of_nat m)) mod 256 :: be_bytes m v
  end.

Definition write_bytes (b : t) (i : Z) (bs : list Z) : t :=
  take (Z.to_nat i) b ++ bs ++ drop (Z.to_nat i + List.length bs) b.

(** [buf.writeInt16BE(v, i)] *)
Definition writeInt16BE (b : t) (v i : Z) : result t :=
  if (v <? -32768) || (32767 <? v) then Throw (TypeError "value is out of bounds")
  else if (i <? 0) || (length b <? i + 2) then Throw (RangeError "index out of range")
  else Ok (write_bytes b i (be_bytes 2 v)).

(** [buf.writeInt32BE(v, i)] *)
Definition writeInt32BE (b : t) (v i : Z) : result t :=
  if (v <? -2147483648) || (2147483647 <? v) then Throw (TypeError "value is out of bounds")
  else if (i <? 0) || (length b <? i + 4) then Throw (RangeError "index out of range")
  else Ok (write_bytes b i (be_bytes 4 v)).

(** The unsigned value of big-endian bytes. *)
Definition be_value (bs : list Z) : Z :=
  fold_left (fun acc x => acc * 256 + x) bs 0.

Definition to_signed (bits : Z) (u : Z) : Z :=
  if u <? 2 ^ (bits - 1) then u else u - 2 ^ bits.

Definition readInt16BE (b : t) (i : Z) : result Z :=
  if (i <? 0) || (length b <? i + 2) then Throw (RangeError "index out of range")
  else Ok (to_signed 16 (be_value (sub b i (i + 2)))).

Definition readInt32BE (b : t) (i : Z) : result Z :=
  if (i <? 0) || (length b <? i + 4) then Throw (RangeError "index out of range")
  else Ok (to_signed 32 (be_value (sub b i (i + 4)))).

End Buffer.

(** ** Constants of lib/bowler_device.js *)

Definition BOWLER_HEADER_SIZE : Z := 11.
Definition BOWLER_VERSION : Z := 3.
Definition BOWLER_SIZE_BYTE : Z := 9.

(** ** The framing parser: [bowler_serial_parser] of lib/devices/nr_dyio.js

    The closure returned by [bowler_serial_parser()] keeps five variables
    between calls; [state] is that closure record.  One call of the closure
    on a raw chunk is [parse_chunk]; the packets it hands to
    [emitter.emit('data', ...)] are returned in order. *)

Module bowler_serial_parser.

Record state : Type := mk_state {
  bowler_data : option Buffer.t;     (* null, or the packet being filled *)
  incoming_data : Buffer.t;          (* new Buffer(255), zero filled *)
  curr_ind : Z;
  amt_left : Z;
  amt_left_to_read : Z
}.

Definition init : state :=
  {| bowler_data := None;
     incoming_data := Buffer.fill (Buffer.alloc 255) 0;
     curr_ind := 0;
     amt_left := 0;
     amt_left_to_read := 0 |}.

(** One pass through the body of the [while] loop: the state after it and
    the packet emitted by it, if any. *)
Definition loop_body (s : state) : result (state * option Buffer.t) :=
  (* if (bowler_data === null) { size = ...; amt_left_to_read = ...; bowler_data = new Buffer(...) } *)
  '(data, to_read) ←
    match bowler_data s with
    | None =>
        size ← Buffer.readUInt8 (incoming_data s) (curr_ind s + BOWLER_SIZE_BYTE);
        Ok (Buffer.alloc (BOWLER_HEADER_SIZE + size), BOWLER_HEADER_SIZE + size)
    | Some data => Ok (data, amt_left_to_read s)
    end;
  (* if (amt_left_to_read > 0 && amt_left > 0) { ... copy ... } *)
  '(data, ind, avail, to_read) ←
    (if (0 <? to_read) && (0 <? amt_left s) then
       let amt_to_read := to_read in
       let amt_to_read := if amt_left s <? amt_to_read then amt_left s else amt_to_read in
       '(data', _) ← Buffer.copy (incoming_data s) data
                       (Buffer.length data - to_read)
                       (curr_ind s) (curr_ind s + amt_to_read);
       Ok (data', curr_ind s + amt_to_read, amt_left s - amt_to_read, to_read - amt_to_read)
     else Ok (data, curr_ind s, amt_left s, to_read));
  (* if (amt_left_to_read === 0 && bowler_data.length > 0) { emit; bowler_data = null } *)
  if (to_read =? 0) && (0 <? Buffer.length data) then
    Ok (mk_state None (incoming_data s) ind avail to_read, Some data)
  else
    Ok (mk_state (Some data) (incoming_data s) ind avail to_read, None).

(** [while (amt_left > BOWLER_SIZE_BYTE) { ... }].  Every pass consumes at
    least one buffered byte, so [fuel] passes are enough when [fuel] is at
    least [amt_left] ([while_loop_runs_out] below). *)
Fixpoint while_loop (fuel : nat) (s : state) (out : list Buffer.t)
  : result (state * list Buffer.t) :=
  match fuel with
  | O => Ok (s, out)
  | S fuel' =>
      if BOWLER_SIZE_BYTE <? amt_left s then
        '(s', emitted) ← loop_body s;
        while_loop fuel' s' (out ++ option_list emitted)
      else Ok (s, out)
  end.

(** One call [parser(emitter, buffer)]. *)
Definition parse_chunk (s : state) (buffer : Buffer.t)
  : result (state * list Buffer.t) :=
  (* amt_left += buffer.copy(incoming_data, curr_ind); *)
  '(incoming, copied) ← Buffer.copy buffer (incoming_data s) (curr_ind s)
                          0 (Buffer.length buffer);
  let s := mk_state (bowler_data s) incoming (curr_ind s)
                    (amt_left s + copied) (amt_left_to_read s) in
  '(s, out) ← while_loop (Z.to_nat (amt_left s)) s [];
  (* copy left over data to the beginning of the buffer *)
  if 0 <? amt_left s then
    '(incoming, _) ← Buffer.copy (incoming_data s) (incoming_data s) 0
                       (curr_ind s) (curr_ind s + amt_left s);
    Ok (mk_state (bowler_data s) incoming (amt_left s)
                 (amt_left s) (amt_left_to_read s), out)
  else
    Ok (mk_state (bowler_data s) (incoming_data s) 0
                 (amt_left s) (amt_left_to_read s), out).

(** The chunks of a stream fed to one parser in order; all packets emitted. *)
Fixpoint feed (s : state) (chunks : list Buffer.t) : result (state * list Buffer.t) :=
  match chunks with
  | [] => Ok (s, [])
  | c :: rest =>
      '(s', out) ← parse_chunk s c;
      '(s'', out') ← feed s' rest;
      Ok (s'', out ++ out')
  end.

Definition emitted (r : result (state * list Buffer.t)) : result (list Buffer.t) :=
  '(_, out) ← r; Ok out.

End bowler_serial_parser.

(** A ping packet on the wire: version 3, the all-zero MAC, method get
    (0x10), namespace 0, size 4, checksum 0x17, then the RPC name
    ['_' 'p' 'n' 'g']. *)
Definition ping_packet : Buffer.t :=
  [3; 0; 0; 0; 0; 0; 0; 16; 0; 4; 23; 95; 112; 110; 103].

(** A complete packet is as long as its size byte says. *)
Definition complete_packet (p : Buffer.t) : bool :=
  match Buffer.get p BOWLER_SIZE_BYTE with
  | Some size => Buffer.length p =? BOWLER_HEADER_SIZE + size
  | None => false
  end.


(** ** JavaScript numbers and argument values

    [undefined + n] and any arithmetic on it is [NaN]; every comparison
    with [NaN] is false. *)

Inductive number : Type :=
| Num (z : Z)
| NaN.

Definition number_add (a b : number) : number :=
  match a, b with
  | Num x, Num y => Num (x + y)
  | _, _ => NaN
  end.

Definition number_sub (a b : number) : number :=
  match a, b with
  | Num x, Num y => Num (x - y)
  | _, _ => NaN
  end.

(** [a > b] *)
Definition number_gt (a b : number) : bool :=
  match a, b with
  | Num x, Num y => y <? x
  | _, _ => false
  end.

(** [a == z] for a number literal [z] *)
Definition number_eq (a : number) (z : Z) : bool :=
  match a with
  | Num x => x =? z
  | NaN => false
  end.

(** The values the sources pass to builders, serializers and callbacks.
    A function or an object is named by an identifier: calling a function
    is recorded, not executed. *)
Inductive jsval : Type :=
| JUndefined
| JBool (b : bool)
| JNumber (n : number)
| JString (s : string)
| JBuffer (b : Buffer.t)
| JUint8Array (l : list Z)
| JInt32Array (l : list Z)
| JFunction (name : string)
| JNull
| JObject (name : string).

(** Truthiness, as [if (v)], [!v] and [v || d] test it. *)
Definition truthy (v : jsval) : bool :=
  match v with
  | JUndefined => false
  | JBool b => b
  | JNumber (Num z) => negb (z =? 0)
  | JNumber NaN => false
  | JString s => negb (String.eqb s "")
  | JNull => false
  | JBuffer _ | JUint8Array _ | JInt32Array _ | JFunction _ | JObject _ => true
  end.

(** [a || b] *)
Definition js_or (a b : jsval) : jsval := if truthy a then a else b.

(** The number a value of digits spells, for [ToNumber] of a string. *)
Fixpoint digits_value (s : string) (acc : Z) : option Z :=
  match s with
  | EmptyString => Some acc
  | String c rest =>
      let n := Z.of_nat (Ascii.nat_of_ascii c) in
      if (48 <=? n) && (n <=? 57) then digits_value rest (acc * 10 + (n - 48))
      else None
  end.

(** [+v]: booleans count as 0 and 1, a string of decimal digits as the
    number it spells (the empty string as 0), [undefined] and everything
    else the sources never convert as [NaN]. *)
Definition to_number (v : jsval) : number :=
  match v with
  | JNumber n => n
  | JBool b => Num (if b then 1 else 0)
  | JString s => match digits_value s 0 with Some z => Num z | None => NaN end
  | _ => NaN
  end.

(** [buf.writeUInt8(value, offset)] and its signed 16 and 32 bit relatives
    on a JavaScript value: the range check compares, so a value that
    converts to [NaN] passes it and is stored as 0. *)
Definition write_int (write : Buffer.t -> Z -> Z -> result Buffer.t)
    (b : Buffer.t) (v : jsval) (i : Z) : result Buffer.t :=
  match to_number v with
  | Num z => write b z i
  | NaN => write b 0 i
  end.

(** ** [data_types] of lib/packet.js *)

Module data_types.

Inductive data_type : Type :=
| Bool | UInt8 | Int16 | Int32
| ByteBuffer | UInt8Array | Int32Array
| NullTerminatedString
| FixedPointTwoPlaces | FixedPointThreePlaces.

(** [width]: [None] is the source's [null], a width that depends on the value. *)
Definition width (T : data_type) : option Z :=
  match T with
  | Bool => Some 1
  | UInt8 => Some 1
  | Int16 => Some 2
  | Int32 => Some 4
  | ByteBuffer | UInt8Array | Int32Array | NullTerminatedString => None
  | FixedPointTwoPlaces => Some 4
  | FixedPointThreePlaces => Some 4
  end.

Definition code (T : data_type) : Z :=
  match T with
  | Bool => 43
  | UInt8 => 8
  | Int16 => 16
  | Int32 => 32
  | ByteBuffer => 37
  | UInt8Array => 37
  | Int32Array => 38
  | NullTerminatedString => 39
  | FixedPointTwoPlaces => 41
  | FixedPointThreePlaces => 42
  end.

(** The ASCII bytes of a string, and back. *)
Definition ascii_bytes (s : string) : list Z :=
  map (fun c => Z.of_nat (Ascii.nat_of_ascii c)) (String.list_ascii_of_string s).

Definition ascii_string (bs : list Z) : string :=
  String.string_of_list_ascii (map (fun b => Ascii.ascii_of_nat (Z.to_nat (b mod 128))) bs).

(** [val.length] of a value that has one. *)
Definition js_length (v : jsval) : result Z :=
  match v with
  | JBuffer b => Ok (Buffer.length b)
  | JUint8Array l | JInt32Array l => Ok (Z.of_nat (List.length l))
  | JString s => Ok (Z.of_nat (String.length s))
  | JUndefined => Throw (TypeError "Cannot read property 'length' of undefined")
  | _ => Throw (TypeError "value has no length")
  end.

(** [get_width(val)], present on the types whose [width] is [null]. *)
Definition get_width (T : data_type) (val : jsval) : result Z :=
  match T with
  | ByteBuffer | UInt8Array => n ← js_length val; Ok (n + 1)
  | Int32Array => n ← js_length val; Ok (n * 4 + 1)
  | NullTerminatedString =>
      (* Buffer.byteLength(val, 'ascii') *)
      match val with
      | JString s => Ok (Z.of_nat (String.length s))
      | _ => Throw (TypeError "Argument must be a string")
      end
  | _ => Throw (TypeError "undefined is not a function")
  end.

(** [buf.write(string, offset, length, 'ascii')]: at most [length] bytes,
    never past the end of the buffer; returns the number written.  A
    non-empty string at an offset behind the end throws. *)
Definition buffer_write (b : Buffer.t) (s : string) (offset len : Z)
  : result (Buffer.t * Z) :=
  let len := Z.min len (Buffer.length b - offset) in
  if negb (String.eqb s "") && ((len <? 0) || (offset <? 0)) then
    Throw (RangeError "attempt to write beyond buffer bounds")
  else
    let bytes := take (Z.to_nat len) (ascii_bytes s) in
    Ok (Buffer.write_bytes b offset bytes, Z.of_nat (List.length bytes)).

Definition ends_with_nul (s : string) : bool :=
  match last (ascii_bytes s) with
  | Some 0 => true
  | _ => false
  end.

Definition nul : string := String Ascii.zero EmptyString.

(** [serialize(obj, buff, ind)]: the buffer after the call and the value the
    call returns.

    [UInt8Array.serialize] and [Int32Array.serialize] name their first
    parameter [input] and then read [ab], which no scope defines; the two
    fixed-point serializers take [(input_obj, ind)] and then use [buff],
    which no scope defines either.  All four raise [ReferenceError] at
    their first statement. *)
Definition serialize (T : data_type) (obj : jsval) (buff : Buffer.t) (ind : Z)
  : result (Buffer.t * Z) :=
  match T with
  | Bool =>
      if truthy obj then Ok (Buffer.set buff ind 1, 1)
      else Ok (Buffer.set buff ind 0, 1)
  | UInt8 => b ← write_int Buffer.writeUInt8 buff obj ind; Ok (b, 1)
  | Int16 => b ← write_int Buffer.writeInt16BE buff obj ind; Ok (b, 2)
  | Int32 => b ← write_int Buffer.writeInt32BE buff obj ind; Ok (b, 4)
  | ByteBuffer =>
      match obj with
      | JBuffer in_buff =>
          b ← Buffer.writeUInt8 buff (Buffer.length in_buff) ind;
          '(b, _) ← Buffer.copy in_buff b (ind + 1) 0 (Buffer.length in_buff);
          Ok (b, Buffer.length in_buff + 1)
      | _ => Throw (TypeError "in_buff is not a Buffer")
      end
  | UInt8Array => Throw (ReferenceError "ab")
  | Int32Array => Throw (ReferenceError "ab")
  | NullTerminatedString =>
      match obj with
      | JString input_str =>
          if ends_with_nul input_str then
            buffer_write buff input_str ind (Buffer.length buff - ind)
          else
            buffer_write buff (input_str +:+ nul) ind (Buffer.length buff - ind)
      | _ => Throw (TypeError "input_str is not a string")
      end
  | FixedPointTwoPlaces => Throw (ReferenceError "buff")
  | FixedPointThreePlaces => Throw (ReferenceError "buff")
  end.

End data_types.

(** [deserialize(buff, ind)] of the types the parsers below read.

    [NullTerminatedString.deserialize] looks for the terminator with
    [buff[stop_ind] == '\0']: a number compared with a string.  The string
    holding U+0000 converts to [NaN], the comparison is false for every
    byte, and the loop always runs to [buff.length]: the string returned is
    the rest of the buffer and the length returned is one more than that. *)
Definition deserialize_UInt8 (buff : Buffer.t) (ind : Z) : result Z :=
  Buffer.readUInt8 buff ind.

Definition deserialize_Int16 (buff : Buffer.t) (ind : Z) : result Z :=
  Buffer.readInt16BE buff ind.

Definition deserialize_Int32 (buff : Buffer.t) (ind : Z) : result Z :=
  Buffer.readInt32BE buff ind.

Definition deserialize_NullTerminatedString (buff : Buffer.t) (ind : Z) : string * Z :=
  let stop_ind := Z.max ind (Buffer.length buff) in
  (data_types.ascii_string (Buffer.sub buff ind stop_ind), stop_ind - ind + 1).

(** ** [PacketByteContainer] of lib/packet.js: reading ranges of a buffer *)

Module PacketByteContainer.

(** The inner [ByteRange]: a copy of the bytes [start..end] of [src]. *)
Record ByteRange : Type := mk_range {
  buff : Buffer.t;
  src : Buffer.t;
  start : option Z;            (* [None]: the argument was not given *)
  end_ : option Z;
  partial : option Z           (* [null] until a reader sets it *)
}.

(** [new ByteRange(src, start, end)]:
    [this.buff = Buffer(end - start + 1); src.copy(this.buff, 0, start, end + 1)].
    With an argument left out the size is [NaN] and the buffer is empty;
    [copy] takes a missing [start] as 0 and the [NaN] end as 0. *)
Definition new_ByteRange (src : Buffer.t) (start end_ : option Z) : result ByteRange :=
  let size := match start, end_ with
              | Some s, Some e => e - s + 1
              | _, _ => 0
              end in
  let source_start := default 0 start in
  let source_end := match end_ with Some e => e + 1 | None => 0 end in
  '(buff, _) ← Buffer.copy src (Buffer.alloc size) 0 source_start source_end;
  Ok (mk_range buff src start end_ None).

(** The container is its source buffer. *)
Abbreviation t := Buffer.t.

(** [all_bytes()] *)
Definition all_bytes (this : t) : result ByteRange :=
  new_ByteRange this (Some 0) (Some (Buffer.length this - 1)).

(** [bytes(start, end)].  The guard [start === end === null] compares the
    boolean [start === end] with [null] and is false for all arguments, so
    [bytes()] does not reach [all_bytes()]: it builds the range of
    [undefined] to [undefined]. *)
Definition bytes (this : t) (start end_ : option Z) : result ByteRange :=
  new_ByteRange this start end_.

(** [byte(start)] *)
Definition byte (this : t) (start : Z) : result ByteRange :=
  new_ByteRange this (Some start) (Some start).

(** [toString()]: the string, and the range with [partial] set. *)
Definition toString (r : ByteRange) : string * ByteRange :=
  let res := deserialize_NullTerminatedString (buff r) 0 in
  (res.1, mk_range (buff r) (src r) (start r) (end_ r) (Some res.2)).

(** [toRawString()] *)
Definition toRawString (r : ByteRange) : string :=
  data_types.ascii_string (buff r).

(** [toInt()] *)
Definition toInt (r : ByteRange) : result Z :=
  let n := Buffer.length (buff r) in
  if n =? 1 then deserialize_UInt8 (buff r) 0
  else if n =? 2 then deserialize_Int16 (buff r) 0
  else if n =? 4 then deserialize_Int32 (buff r) 0
  else Throw (Error "Cannot read ints greater than 32 bits in size!").

End PacketByteContainer.

(** [str.indexOf(c)] *)
Fixpoint indexOf_from (s : string) (c : Ascii.ascii) (i : Z) : Z :=
  match s with
  | EmptyString => -1
  | String a rest => if Ascii.eqb a c then i else indexOf_from rest c (i + 1)
  end.

Definition indexOf (s : string) (c : Ascii.ascii) : Z := indexOf_from s c 0.

(** ** The parsers of lib/extra_namespaces/bcs_core.js *)

Module BcsCoreNamespace.
Import PacketByteContainer.

Record nms_result : Type := mk_nms {
  raw_str : string;
  name : string;
  version_str : string;
  num_namespaces : Z
}.

(** The object literal the [_nms] parser returns, as a function of the
    container and of its locals [raw_name] and [len]. *)
Definition _nms_fields (src : PacketByteContainer.t) (raw_name : string) (len : Z)
  : result nms_result :=
  let name_len_with_star := indexOf raw_name ";"%char in
  r_name ← bytes src (Some 0) (Some (name_len_with_star - 3));
  r_version ← bytes src (Some (name_len_with_star + 1)) (Some (len - 4));
  r_count ← byte src len;
  count ← toInt r_count;
  Ok (mk_nms raw_name (toRawString r_name) (toRawString r_version) count).

(** [parsers._nms] *)
Definition _nms (src : PacketByteContainer.t) : result nms_result :=
  all_bytes ← bytes src None None;
  let '(raw_name, all_bytes) := toString all_bytes in
  match partial all_bytes with
  | Some len => _nms_fields src raw_name len
  | None => Throw (TypeError "partial is null")
  end.

(** [parsers._png] returns the empty object. *)
Definition _png (src : PacketByteContainer.t) : result unit := Ok tt.

End BcsCoreNamespace.


(** ** [PacketAssembler] of lib/packet.js: queuing writes

    An instruction is the closure a [from...] method pushes: which
    serializer to call, on which value, at which start index.  The queue is
    [this.instructions]; [this.length] is the running length. *)

Module PacketAssembler.

Inductive serializer : Type :=
| Serialize (T : data_types.data_type)      (* data_types.T.serialize *)
| SerializeRaw (name : string).             (* what a fromRawFunc callback returned *)

Record instruction : Type := mk_instruction {
  instr_serializer : serializer;
  instr_val : jsval;
  instr_start : number
}.

Record t : Type := mk {
  length : Z;
  instructions : list instruction;
  offset : Z;                 (* this.offset = offset || 0 *)
  offset_param : option Z     (* the constructor's parameter [offset]; [None]: not given *)
}.

(** [new PacketAssembler(offset)] *)
Definition new (offset : option Z) : t :=
  mk 0 [] (default 0 offset) offset.

(** The inner [ByteRange] of an assembler. *)
Record ByteRange : Type := mk_range {
  start : number;
  end_ : number
}.

(** The getter [length] of a range: [this.end - this.start + 1]. *)
Definition range_length (r : ByteRange) : number :=
  number_add (number_sub (end_ r) (start r)) (Num 1).

(** [new ByteRange(assembler, start, end)]: records the range and raises the
    assembler's [length] to [end + 1] when that is larger. *)
Definition new_ByteRange (dest : t) (start end_ : number) : t * ByteRange :=
  let dest :=
    if number_gt (number_add end_ (Num 1)) (Num (length dest)) then
      match number_add end_ (Num 1) with
      | Num n => mk n (instructions dest) (offset dest) (offset_param dest)
      | NaN => dest
      end
    else dest in
  (dest, mk_range start end_).

(** The constructor's parameter as the closures [bytes] and [byte] read it:
    they use [offset], not [this.offset], and [undefined + n] is [NaN]. *)
Definition closure_offset (this : t) : number :=
  match offset_param this with
  | Some o => Num o
  | None => NaN
  end.

(** [bytes(start, end)]: [new ByteRange(this, offset + start, offset + end)] *)
Definition bytes (this : t) (start end_ : Z) : t * ByteRange :=
  new_ByteRange this (number_add (closure_offset this) (Num start))
                     (number_add (closure_offset this) (Num end_)).

(** [byte(start)] *)
Definition byte (this : t) (start : Z) : t * ByteRange :=
  new_ByteRange this (number_add (closure_offset this) (Num start))
                     (number_add (closure_offset this) (Num start)).

Definition push (dest : t) (i : instruction) : t :=
  mk (length dest) (instructions dest ++ [i]) (offset dest) (offset_param dest).

(** [range.fromInt(val)] *)
Definition fromInt (dest : t) (r : ByteRange) (val : jsval) : result t :=
  if number_eq (range_length r) 1 then
    Ok (push dest (mk_instruction (Serialize data_types.UInt8) val (start r)))
  else if number_eq (range_length r) 2 then
    Ok (push dest (mk_instruction (Serialize data_types.Int16) val (start r)))
  else if number_eq (range_length r) 4 then
    Ok (push dest (mk_instruction (Serialize data_types.Int32) val (start r)))
  else Throw (Error "Cannot write ints greater than 32 bits in size!").

(** [range.fromString(val)] *)
Definition fromString (dest : t) (r : ByteRange) (val : jsval) : result t :=
  Ok (push dest (mk_instruction (Serialize data_types.NullTerminatedString) val (start r))).

(** [range.fromBuffer(val)] *)
Definition fromBuffer (dest : t) (r : ByteRange) (val : jsval) : result t :=
  Ok (push dest (mk_instruction (Serialize data_types.ByteBuffer) val (start r))).

(** [range.fromBool(val)] *)
Definition fromBool (dest : t) (r : ByteRange) (val : jsval) : result t :=
  Ok (push dest (mk_instruction (Serialize data_types.Bool) val (start r))).

(** [range.fromUInt8Array(val)]: [new Uint8Array(val)] unless it is one. *)
Definition fromUInt8Array (dest : t) (r : ByteRange) (val : list Z) : result t :=
  Ok (push dest (mk_instruction (Serialize data_types.UInt8Array)
                   (JUint8Array (map (fun x => x mod 256) val)) (start r))).

(** [range.fromInt32Array(val)] *)
Definition fromInt32Array (dest : t) (r : ByteRange) (val : list Z) : result t :=
  Ok (push dest (mk_instruction (Serialize data_types.Int32Array) (JInt32Array val) (start r))).

(** [range.fromRawFunc(func, val)] *)
Definition fromRawFunc (dest : t) (r : ByteRange) (func : string) (val : jsval) : result t :=
  Ok (push dest (mk_instruction (SerializeRaw func) val (start r))).

(** [range.fromRawUInt8Array(val)]: the [ByteRange] of lib/packet.js defines
    no method of this name, so the call is a call of [undefined]. *)
Definition fromRawUInt8Array (dest : t) (r : ByteRange) (val : list Z) : result t :=
  Throw (TypeError "undefined is not a function").

(** [assemble()]:
    [var buff = new Buffer(this.length); instructions.forEach(...); return buff].
    The queue is the property [this.instructions]; the bare name
    [instructions] is no parameter, local or module variable. *)
Definition assemble (this : t) : result Buffer.t :=
  let buff := Buffer.alloc (length this) in
  Throw (ReferenceError "instructions").

(** [append(assmblr)] *)
Definition append (this assmblr : t) : t :=
  mk (if length this <? length assmblr then length assmblr else length this)
     (instructions this ++ instructions assmblr)
     (offset this) (offset_param this).

End PacketAssembler.

(** ** Nested objects: the registry trees

    [_parsers], [_builders], [_rpc_send_methods] and [_rpc_recv_methods] are
    objects nested by namespace segment.  A [node] is a primitive or an
    object; an object that is a function carries it ([fn]); an array is an
    object whose keys are its indices.  Properties are kept in creation
    order, the order [for (prop in obj)] visits them.  Only own properties
    are modelled: no namespace segment, RPC name or method name is a member
    of [Object.prototype], and primitives have no properties. *)

Inductive prim : Type :=
| PBool (b : bool)
| PNum (z : Z)
| PStr (s : string).

Inductive node (F : Type) : Type :=
| Prim (p : prim)
| Obj (fn : option F) (properties : props F)
with props (F : Type) : Type :=
| PNil
| PCons (key : string) (value : node F) (rest : props F).
Arguments Prim {F} p.
Arguments Obj {F} fn properties.
Arguments PNil {F}.
Arguments PCons {F} key value rest.

Scheme node_props_ind := Induction for node Sort Prop
  with props_node_ind := Induction for props Sort Prop.
Combined Scheme node_props_mutind from node_props_ind, props_node_ind.

Section Objects.
Context {F : Type}.

(** [ps[k]]: [None] is [undefined]. *)
Fixpoint get (ps : props F) (k : string) : option (node F) :=
  match ps with
  | PNil => None
  | PCons key value rest => if String.eqb key k then Some value else get rest k
  end.

(** [ps[k] = v] *)
Fixpoint set (ps : props F) (k : string) (v : node F) : props F :=
  match ps with
  | PNil => PCons k v PNil
  | PCons key value rest =>
      if String.eqb key k then PCons key v rest else PCons key value (set rest k v)
  end.

Fixpoint keys (ps : props F) : list string :=
  match ps with
  | PNil => []
  | PCons key _ rest => key :: keys rest
  end.

(** [obj[k]] on any node; a primitive has no properties. *)
Definition get_prop (n : node F) (k : string) : option (node F) :=
  match n with
  | Prim _ => None
  | Obj _ ps => get ps k
  end.

(** [!!n] *)
Definition truthy_node (n : node F) : bool :=
  match n with
  | Prim (PBool b) => b
  | Prim (PNum z) => negb (z =? 0)
  | Prim (PStr s) => negb (String.eqb s "")
  | Obj _ _ => true
  end.

(** [n instanceof Function] *)
Definition is_function (n : node F) : bool :=
  match n with
  | Obj (Some _) _ => true
  | _ => false
  end.

(** The empty object literal. *)
Definition empty_object : node F := Obj None PNil.

End Objects.

(** ** lib/util.js *)

Module bowler_util.

(** [make_checksum(buff)]: [reduce] without a start value adds the bytes up
    and throws on an empty buffer; the result is [sum & 0xff]. *)
Definition make_checksum (buff : Buffer.t) : result Z :=
  match buff with
  | [] => Throw (TypeError "Reduce of empty array with no initial value")
  | a :: rest => Ok (Z.land (fold_left Z.add rest a) 255)
  end.

(** [s.split('.')] *)
Fixpoint split_dot (s : string) : list string :=
  match s with
  | EmptyString => [EmptyString]
  | String c rest =>
      if Ascii.eqb c "."%char then EmptyString :: split_dot rest
      else match split_dot rest with
           | [] => [String c EmptyString]
           | seg :: segs => String c seg :: segs
           end
  end.

(** [l.join('.')] *)
Fixpoint join_dot (l : list string) : string :=
  match l with
  | [] => EmptyString
  | [s] => s
  | s :: rest => s +:+ "." +:+ join_dot rest
  end.

(** What [resolve_namespace_path] returns: the object found, or the [Error]
    object it builds (returned, not thrown). *)
Inductive resolved (F : Type) : Type :=
| Resolved (n : node F)
| ErrorObject (msg : string).
Arguments Resolved {F} n.
Arguments ErrorObject {F} msg.

(** The [for] loop of [resolve_namespace_path].  When [obj] is [undefined]
    at the head of a pass, the message being built reads [namespace_list],
    which util.js does not define. *)
Fixpoint resolve_loop {F} (obj : option (node F)) (path : list string)
  : result (option (node F)) :=
  match path with
  | [] => Ok obj
  | seg :: rest =>
      match obj with
      | None => Throw (ReferenceError "namespace_list")
      | Some o =>
          if String.eqb seg "com" then resolve_loop obj rest
          else resolve_loop (get_prop o seg) rest
      end
  end.

(** [resolve_namespace_path(path_str, rpc, root_obj, err_msg)]; [rpc] is
    [None] for [null]. *)
Definition resolve_namespace_path {F} (path_str : string) (rpc : option string)
    (root_obj : node F) (err_msg : string) : result (resolved F) :=
  let path := split_dot path_str in
  let path := match rpc with
              | Some r => if String.eqb r "" then path else path ++ [r]
              | None => path
              end in
  match path with
  | [EmptyString] => Ok (Resolved root_obj)
  | _ =>
      obj ← resolve_loop (Some root_obj) path;
      match obj with
      | Some o =>
          if truthy_node o then Ok (Resolved o)
          else Ok (ErrorObject (err_msg +:+ " -- undefined last path element under "
                     +:+ join_dot (removelast path) +:+ ": " +:+ List.last path ""))
      | None =>
          Ok (ErrorObject (err_msg +:+ " -- undefined last path element under "
                +:+ join_dot (removelast path) +:+ ": " +:+ List.last path ""))
      end
  end.

(** [isObject(obj)]: does [Object.keys(obj)] return?  It throws on a
    primitive and returns on objects, arrays and functions. *)
Definition isObject {F} (obj : node F) : bool :=
  match obj with
  | Obj _ _ => true
  | Prim _ => false
  end.

(** [extend(dest, src)]:
    [for (var prop in src) {
       if (dest[prop] === undefined) dest[prop] = src[prop];
       else if (isObject(src[prop])) extend(dest[prop], src[prop]); }]
    [extend_props] is the loop over the properties of [src].  A primitive
    [dest] is left as it is: it has no properties and ignores writes.
    [dest[prop]] is read among the properties [dest] has itself; a name
    that [dest] only inherits ('constructor', 'toString', ...) is not
    [undefined] in the source, and statements on [extend] are about the
    other names. *)
Fixpoint extend {F} (dest src : node F) {struct src} : node F :=
  match src with
  | Prim _ => dest
  | Obj _ sps =>
      match dest with
      | Prim _ => dest
      | Obj fn dps => Obj fn (extend_props dps sps)
      end
  end
with extend_props {F} (dps sps : props F) {struct sps} : props F :=
  match sps with
  | PNil => dps
  | PCons prop sv rest =>
      let dps :=
        match get dps prop with
        | None => set dps prop sv
        | Some dv => if isObject sv then set dps prop (extend dv sv) else dps
        end in
      extend_props dps rest
  end.

End bowler_util.

(** ** Builders, parsers and the device record *)

(** A body builder: the JavaScript function with its declared parameter
    count ([builder.length], which counts the assembler parameter) and its
    action on the body assembler for given arguments. *)
Record builder : Type := mk_builder {
  builder_length : Z;
  builder_run : PacketAssembler.t -> list jsval -> result PacketAssembler.t
}.

(** A body parser, named. *)
Record parser : Type := mk_parser {
  parser_name : string
}.

(** The method trees hold no functions. *)
Definition no_function : Type := Empty_set.

Inductive mac_address : Type :=
| Broadcast                         (* _mac_address_raw = 'broadcast' *)
| Address (octets : list Z).

Record BowlerDevice : Type := mk_device {
  supported_namespaces : list (Z * string);   (* id -> name, ascending ids *)
  _mac_address_raw : mac_address;
  _parsers : node parser;
  _builders : node builder;
  _rpc_send_methods : node no_function;
  _rpc_recv_methods : node no_function
}.

(** ** lib/extra_namespaces.js: [BowlerNamespace] *)

Module BowlerNamespace.

Record t : Type := mk {
  root : string;
  parsers : node parser;
  builders : node builder;
  send_methods : node no_function;
  recv_methods : node no_function
}.

Definition has_properties {F} (n : node F) : bool :=
  match n with
  | Obj _ (PCons _ _ _) => true
  | _ => false
  end.

(** One of the four objects of [_import_into_objs], followed down [path]:
    [if (!obj[path[i]]) obj[path[i]] = {}; obj = obj[path[i]];] and at the
    end [bowler_util.extend(obj, contribution)].  Stepping into a primitive
    leaves [obj] undefined, and the next read of a property of it throws.
    [obj[path[i]]] is read among the properties [obj] has itself;
    statements on the import are about roots without an inherited name. *)
Fixpoint import_at {F} (obj : node F) (path : list string) (contribution : node F)
  : result (node F) :=
  match path with
  | [] => Ok (bowler_util.extend obj contribution)
  | seg :: rest =>
      match obj with
      | Obj fn ps =>
          let child := match get ps seg with
                       | Some c => if truthy_node c then c else empty_object
                       | None => empty_object
                       end in
          child' ← import_at child rest contribution;
          Ok (Obj fn (set ps seg child'))
      | Prim _ =>
          match rest with
          | [] => if has_properties contribution
                  then Throw (TypeError "Cannot read property of undefined")
                  else Ok obj
          | _ :: _ => Throw (TypeError "Cannot read property of undefined")
          end
      end
  end.

(** [this.root.split('.')], with [['']] replaced by [[]]. *)
Definition root_path (this : t) : list string :=
  match bowler_util.split_dot (root this) with
  | [EmptyString] => []
  | path => path
  end.

(** [_import_into_objs(parsers_obj, builders_obj, send_methods_obj, recv_methods_obj)].
    The four objects are walked side by side; when a step throws, the
    import is abandoned and the embedding does not keep what had been
    created so far. *)
Definition _import_into_objs (this : t)
    (parsers_obj : node parser) (builders_obj : node builder)
    (send_methods_obj recv_methods_obj : node no_function)
  : result (node parser * node builder * node no_function * node no_function) :=
  let path := root_path this in
  p ← import_at parsers_obj path (parsers this);
  b ← import_at builders_obj path (builders this);
  s ← import_at send_methods_obj path (send_methods this);
  r ← import_at recv_methods_obj path (recv_methods this);
  Ok (p, b, s, r).

(** [import_into(bowler_dev)] *)
Definition import_into (this : t) (bowler_dev : BowlerDevice) : result BowlerDevice :=
  '(p, b, s, r) ← _import_into_objs this (_parsers bowler_dev) (_builders bowler_dev)
                    (_rpc_send_methods bowler_dev) (_rpc_recv_methods bowler_dev);
  Ok (mk_device (supported_namespaces bowler_dev) (_mac_address_raw bowler_dev) p b s r).

End BowlerNamespace.

(** [BowlerDevice.prototype.supports_namespace(ns)] for an instance of
    [BowlerNamespace]. *)
Definition supports_namespace (this : BowlerDevice) (ns : BowlerNamespace.t)
  : result BowlerDevice :=
  BowlerNamespace.import_into ns this.

(** ** The namespace contribution of lib/extra_namespaces/bcs_core.js *)

Definition method_map (l : list (string * string)) : node no_function :=
  Obj None (fold_right (fun '(k, v) ps => PCons k (Prim (PStr v)) ps) PNil l).

Definition bcs_core_png_builder : builder :=
  mk_builder 1 (fun bldr args => Ok bldr).

Definition bcs_core_nms_builder : builder :=
  mk_builder 2 (fun bldr args =>
    let num := nth 0 args JUndefined in
    let '(bldr, r) := PacketAssembler.byte bldr 0 in
    PacketAssembler.fromInt bldr r num).

Definition bcs_core : BowlerNamespace.t :=
  BowlerNamespace.mk "bcs.core"
    (Obj None (PCons "_png" (Obj (Some (mk_parser "_png")) PNil)
              (PCons "_nms" (Obj (Some (mk_parser "_nms")) PNil) PNil)))
    (Obj None (PCons "_png" (Obj (Some bcs_core_png_builder) PNil)
              (PCons "_nms" (Obj (Some bcs_core_nms_builder) PNil) PNil)))
    (Obj None (PCons "_png" (Prim (PStr "get"))
              (PCons "_nms" (Prim (PStr "get")) PNil)))
    (Obj None (PCons "_png" (method_map [("get", "post")])
              (PCons "_nms" (method_map [("get", "post")]) PNil))).

(** The device as the constructor [BowlerDevice()] leaves it before it
    imports its namespaces: id 0 is 'bcs.core', the MAC is 'broadcast', the
    four registries are empty objects. *)
Definition blank_device : BowlerDevice :=
  mk_device [(0, "bcs.core")] Broadcast
            empty_object empty_object empty_object empty_object.

(** lib/extra_namespaces/bcs_rpc.js: both builders read [self], which the
    module does not define. *)
Definition bcs_rpc_builder : builder :=
  mk_builder 3 (fun bldr args => Throw (ReferenceError "self")).

Definition bcs_rpc : BowlerNamespace.t :=
  BowlerNamespace.mk "bcs.rpc"
    (Obj None (PCons "_rpc" (Obj (Some (mk_parser "_rpc")) PNil)
              (PCons "args" (Obj (Some (mk_parser "args")) PNil) PNil)))
    (Obj None (PCons "_rpc" (Obj (Some bcs_rpc_builder) PNil)
              (PCons "args" (Obj (Some bcs_rpc_builder) PNil) PNil)))
    (Obj None (PCons "_rpc" (Prim (PStr "get"))
              (PCons "args" (Prim (PStr "get")) PNil)))
    (Obj None (PCons "_rpc" (method_map [("get", "post")])
              (PCons "args" (method_map [("get", "post")]) PNil))).

(** [new BowlerDevice()]: the blank device with 'bcs.core' and 'bcs.rpc'
    imported. *)
Definition new_BowlerDevice : result BowlerDevice :=
  d ← supports_namespace blank_device bcs_core;
  supports_namespace d bcs_rpc.

(** ** lib/bowler_device.js: building a packet *)

(** [BOWLER_METHODS_HR[method]] *)
Definition BOWLER_METHODS_HR (method : jsval) : jsval :=
  match method with
  | JString "status" => JNumber (Num 0x00)
  | JString "get" => JNumber (Num 0x10)
  | JString "post" => JNumber (Num 0x20)
  | JString "critical" => JNumber (Num 0x30)
  | JString "async" => JNumber (Num 0x40)
  | _ => JUndefined
  end.

(** The getter [supported_namespaces_hr], read at [namespace]: the inverse
    of [supported_namespaces].  [for (var nsid in ...)] yields the ids as
    strings, and a later id replaces an earlier one of the same name. *)
Definition supported_namespaces_hr (this : BowlerDevice) (namespace : jsval) : jsval :=
  match namespace with
  | JString name =>
      fold_left (fun found '(nsid, n) =>
                   if String.eqb n name then JString (pretty nsid) else found)
                (supported_namespaces this) JUndefined
  | _ => JUndefined
  end.

(** The getter [mac_address_bytes]: for 'broadcast' the source returns
    [[0, 0, 0, 0, 0, 0]] ("use link-local instead"; the line returning six
    255s is commented out). *)
Definition mac_address_bytes (this : BowlerDevice) : list Z :=
  match _mac_address_raw this with
  | Broadcast => [0; 0; 0; 0; 0; 0]
  | Address octets => octets
  end.

(** [namespace = namespace || 'bcs.core'] and [method = method || 'get'] *)
Definition namespace_or_default (namespace : jsval) : jsval :=
  js_or namespace (JString "bcs.core").

Definition method_or_default (method : jsval) : jsval :=
  js_or method (JString "get").

Definition could_not_find_builder (method namespace command : string) : string :=
  "Could not find builder for the " +:+ method +:+ " method for the RPC "
    +:+ namespace +:+ "#" +:+ command.

(** The lookup of the body builder:
    [resolve_namespace_path(namespace, command, this._builders, ...)], and
    for anything that is not a function the property [method] of it. *)
Definition find_body_builder (this : BowlerDevice) (method namespace : jsval)
    (command : string) : result builder :=
  match namespace with
  | JString ns =>
      found ← bowler_util.resolve_namespace_path ns (Some command) (_builders this)
                "Error finding packet builder";
      match found with
      | bowler_util.Resolved (Obj (Some f) _) => Ok f
      | bowler_util.Resolved n =>
          (* we have a multi-type RPC *)
          match method with
          | JString m =>
              match get_prop n m with
              | Some (Obj (Some f) _) => Ok f
              | Some other =>
                  if truthy_node other
                  then Throw (TypeError "body_builder.apply is not a function")
                  else Throw (Error (could_not_find_builder m ns command))
              | None => Throw (Error (could_not_find_builder m ns command))
              end
          | _ => Throw (Error (could_not_find_builder "" ns command))
          end
      | bowler_util.ErrorObject _ =>
          match method with
          | JString m => Throw (Error (could_not_find_builder m ns command))
          | _ => Throw (Error (could_not_find_builder "" ns command))
          end
      end
  | _ => Throw (TypeError "path_str.split is not a function")
  end.

(** The body assembler after the builder has run:
    [new packet.PacketAssembler(BOWLER_HEADER_SIZE+4)] and
    [body_builder.apply(this, [body_assembler].concat(args))]. *)
Definition run_body_builder (body_builder : builder) (args : list jsval)
  : result PacketAssembler.t :=
  builder_run body_builder (PacketAssembler.new (Some (BOWLER_HEADER_SIZE + 4))) args.

(** The value written at byte 9: [body_assembler.length+4]. *)
Definition size_value (body_assembler : PacketAssembler.t) : Z :=
  PacketAssembler.length body_assembler + 4.

(** [BowlerDevice.prototype.build_packet(method, namespace, command, ...args)] *)
Definition build_packet (this : BowlerDevice) (method namespace : jsval)
    (command : string) (args : list jsval) : result Buffer.t :=
  let builder := PacketAssembler.new None in
  let namespace := namespace_or_default namespace in
  let method := method_or_default method in
  (* build the prefix *)
  let '(builder, r) := PacketAssembler.byte builder 0 in
  builder ← PacketAssembler.fromInt builder r (JNumber (Num BOWLER_VERSION));
  let '(builder, r) := PacketAssembler.bytes builder 1 6 in
  builder ← PacketAssembler.fromRawUInt8Array builder r (mac_address_bytes this);
  let '(builder, r) := PacketAssembler.byte builder 7 in
  builder ← PacketAssembler.fromInt builder r (BOWLER_METHODS_HR method);
  let '(builder, r) := PacketAssembler.byte builder 8 in
  builder ← PacketAssembler.fromInt builder r (supported_namespaces_hr this namespace);
  (* run the builder now so we can calculate the size of body *)
  body_builder ← find_body_builder this method namespace command;
  body_assembler ← run_body_builder body_builder args;
  let '(builder, r) := PacketAssembler.byte builder 9 in
  builder ← PacketAssembler.fromInt builder r (JNumber (Num (size_value body_assembler)));
  checksum_input ← PacketAssembler.assemble builder;
  checksum ← bowler_util.make_checksum checksum_input;
  let '(builder, r) := PacketAssembler.byte builder 10 in
  builder ← PacketAssembler.fromInt builder r (JNumber (Num checksum));
  (* add the RPC name *)
  let '(builder, r) :=
    PacketAssembler.bytes builder BOWLER_HEADER_SIZE (BOWLER_HEADER_SIZE + 3) in
  builder ← PacketAssembler.fromString builder r (JString command);
  (* add the main part of the body *)
  let builder := PacketAssembler.append builder body_assembler in
  PacketAssembler.assemble builder.

(** ** Node's [events.EventEmitter], which [BowlerDevice] inherits

    Only [once] and [emit] are used.  A listener is a closure: called with
    the event's first argument it throws, or it calls functions, and a call
    is recorded as the callee's name and arguments.  [emit] calls every
    listener registered for the event, in the order of registration; a
    listener added with [once] is removed just before it is called; when a
    listener throws, [emit] stops and the exception leaves it. *)

Module EventEmitter.

Definition call : Type := string * list jsval.

Definition listener : Type := jsval -> result (list call).

(** The registered listeners, oldest first, each with its event name. *)
Definition t : Type := list (string * listener).

(** [emitter.once(event, listener)] *)
Definition once (this : t) (event : string) (l : listener) : t :=
  this ++ [(event, l)].

(** [emitter.emit(event, arg)]: the listeners left, the calls made and the
    exception that ended it, if any. *)
Fixpoint emit (this : t) (event : string) (arg : jsval)
  : t * list call * option js_error :=
  match this with
  | [] => ([], [], None)
  | (e, l) :: rest =>
      if String.eqb e event then
        match l arg with
        | Ok calls =>
            let '(rest', calls', err) := emit rest event arg in
            (rest', calls ++ calls', err)
        | Throw err => (rest, [], Some err)
        end
      else
        let '(rest', calls', err) := emit rest event arg in
        ((e, l) :: rest', calls', err)
  end.

(** [emitter.listeners(event).length] *)
Definition listener_count (this : t) (event : string) : nat :=
  List.length (List.filter (fun el => String.eqb el.1 event) this).

End EventEmitter.

(** [f(args)] for a value [f] *)
Definition call_function (f : jsval) (args : list jsval) : result (list EventEmitter.call) :=
  match f with
  | JFunction name => Ok [(name, args)]
  | JUndefined => Throw (TypeError "undefined is not a function")
  | _ => Throw (TypeError "cb is not a function")
  end.

(** ** lib/command_handler.js: the RPC handles

    A handle works on its device through [build_packet], [send_datagram]
    and [once].  [send_datagram] is the one of lib/devices/nr_dyio.js,
    which writes the datagram to the serial connection. *)

Module CommandHandler.

(** What a call of a handle does, in order. *)
Inductive effect : Type :=
| Written (datagram : Buffer.t)             (* this._conn.write(datagram) *)
| Registered (evt_name : string).           (* this.bowler_device.once(evt_name, ...) *)

Record state : Type := mk_state {
  listeners : EventEmitter.t;
  effects : list effect
}.

Definition initial : state := mk_state [] [].

(** The function a handle returns when it was given no continuation. *)
Record deferred : Type := mk_deferred {
  deferred_evt_name : string
}.

Section Handle.
(** [this.bowler_device.build_packet] *)
Variable build_packet : jsval -> jsval -> string -> list jsval -> result Buffer.t.

(** The function [make_rpc_caller(rpc_name, send_method, recv_method)]
    returns, called with [arguments] on the handler of [namespace];
    [builder] is [ns_obj[ns_elem_name]].  The result is the state after the
    call and what the call returns: [None] for [undefined]. *)
Definition make_rpc_caller (builder : builder) (rpc_name send_method recv_method : string)
    (namespace : string) (arguments : list jsval) (st : state)
  : result (state * option deferred) :=
  (* if (arguments.length >= builder.length) { args = slice(0, builder.length); has_cb = true } *)
  let '(args, has_cb) :=
    if builder_length builder <=? Z.of_nat (List.length arguments)
    then (take (Z.to_nat (builder_length builder)) arguments, true)
    else (arguments, false) in
  datagram ← build_packet (JString send_method) (JString namespace) rpc_name args;
  (* this.bowler_device.send_datagram(datagram); *)
  let st := mk_state (listeners st) (effects st ++ [Written datagram]) in
  let evt_name := recv_method +:+ ":" +:+ namespace +:+ "#" +:+ rpc_name in
  if has_cb then
    let cb := nth (List.length args) arguments JUndefined in
    Ok (mk_state (EventEmitter.once (listeners st) evt_name
                    (fun formatted_packet => call_function cb [formatted_packet]))
                 (effects st ++ [Registered evt_name]),
        None)
  else
    Ok (st, Some (mk_deferred evt_name)).

End Handle.

(** The deferred function called with a continuation:
    [this.bowler_device.once(evt_name, function (fp) { cb(null, fp); })] *)
Definition call_deferred (d : deferred) (cb : jsval) (st : state) : state :=
  mk_state (EventEmitter.once (listeners st) (deferred_evt_name d)
              (fun formatted_packet => call_function cb [JNull; formatted_packet]))
           (effects st ++ [Registered (deferred_evt_name d)]).

(** An inbound packet, parsed and classified:
    [this.emit(event_name, full_packet, ...)] of lib/devices/nr_dyio.js. *)
Definition receive (event_name : string) (full_packet : jsval) (st : state)
  : state * list EventEmitter.call * option js_error :=
  let '(ls, calls, err) := EventEmitter.emit (listeners st) event_name full_packet in
  (mk_state ls (effects st), calls, err).

(** [populate_with] for an RPC whose builder is a function: the builder,
    [send_method_ns_obj[name]] and [recv_method_ns_obj[name][send_method]]. *)
Definition single_method_rpc (dev : BowlerDevice) (namespace rpc : string)
  : result (builder * string * string) :=
  b ← bowler_util.resolve_namespace_path namespace None (_builders dev)
        "Error resolving builders namespace path";
  s ← bowler_util.resolve_namespace_path namespace None (_rpc_send_methods dev)
        "Error resolving send methods namespace path";
  r ← bowler_util.resolve_namespace_path namespace None (_rpc_recv_methods dev)
        "Error resolving recv methods namespace path";
  match b, s, r with
  | bowler_util.Resolved ns_obj, bowler_util.Resolved send_obj, bowler_util.Resolved recv_obj =>
      match get_prop ns_obj rpc, get_prop send_obj rpc with
      | Some (Obj (Some f) _), Some (Prim (PStr send_method)) =>
          match mbind (M := option) (fun m => get_prop m send_method) (get_prop recv_obj rpc) with
          | Some (Prim (PStr recv_method)) => Ok (f, send_method, recv_method)
          | _ => Throw (TypeError "undefined is not a function")
          end
      | _, _ => Throw (TypeError "undefined is not a function")
      end
  | _, _, _ => Throw (TypeError "undefined is not a function")
  end.

(** [device.command_to.<namespace>.<rpc>(...arguments)] for a single-method
    RPC of a device. *)
Definition command_to (dev : BowlerDevice) (namespace rpc : string)
    (arguments : list jsval) (st : state) : result (state * option deferred) :=
  '(b, send_method, recv_method) ← single_method_rpc dev namespace rpc;
  make_rpc_caller (build_packet dev) b rpc send_method recv_method namespace arguments st.

End CommandHandler.

(** The framing parser between two packets: nothing is being filled and
    nothing is buffered. *)
Definition idle (s : bowler_serial_parser.state) : Prop :=
  bowler_serial_parser.bowler_data s = None /\
  bowler_serial_parser.curr_ind s = 0 /\
  bowler_serial_parser.amt_left s = 0 /\
  Buffer.length (bowler_serial_parser.incoming_data s) = 255.

(** The framing parser's invariant: a packet under construction is
    non-empty and still misses bytes. *)
Definition filling (s : bowler_serial_parser.state) : Prop :=
  0 <= bowler_serial_parser.amt_left_to_read s /\
  forall d, bowler_serial_parser.bowler_data s = Some d ->
            0 < Buffer.length d /\ 0 < bowler_serial_parser.amt_left_to_read s.

(** ** Bodies and packets used in the statements *)

(** The reply body ["bcs.core;1.0.0"], a null byte and the count 1. *)
Definition nms_body_plain : Buffer.t :=
  data_types.ascii_bytes "bcs.core;1.0.0" ++ [0; 1].

(** A reply body in the form the offsets of the [_nms] parser fit: the name
    followed by ".*", the version followed by ";;", a null byte, the count. *)
Definition nms_body_wire : Buffer.t :=
  data_types.ascii_bytes "bcs.core.*;0.3;;" ++ [0; 5].

(** The fifteen bytes 03 FF FF FF FF FF FF 10 00 04 0A '_' 'p' 'n' 'g'. *)
Definition ping_with_ff_mac : Buffer.t :=
  [3; 255; 255; 255; 255; 255; 255; 16; 0; 4; 10; 95; 112; 110; 103].

(** The continuations [cbs], each given to a deferred for [evt_name], in
    order. *)
Definition register_all (evt_name : string) (cbs : list string)
    (st : CommandHandler.state) : CommandHandler.state :=
  fold_left (fun st cb =>
               CommandHandler.call_deferred (CommandHandler.mk_deferred evt_name)
                 (JFunction cb) st)
            cbs st.

(** ** Relating a registry tree before and after an import *)

Section Growth.
Context {F : Type}.

(** [grows a b]: [b] is [a] with properties added, at any depth.  A
    primitive stays the same primitive; an object stays an object, keeps
    the function it is, and each of its properties is still there and has
    grown itself. *)
#[warnings="-register-all"]
Inductive grows : node F -> node F -> Prop :=
| grows_prim p : grows (Prim p) (Prim p)
| grows_obj fn ps qs :
    (forall k v, get ps k = Some v -> exists v', get qs k = Some v' /\ grows v v') ->
    grows (Obj fn ps) (Obj fn qs).

(** [obj.seg1.seg2...]: [None] is [undefined]. *)
Fixpoint lookup_path (n : node F) (path : list string) : option (node F) :=
  match path with
  | [] => Some n
  | seg :: rest =>
      match get_prop n seg with
      | Some child => lookup_path child rest
      | None => None
      end
  end.

(** No entry of the tree is a falsy primitive. *)
Fixpoint all_truthy (n : node F) : bool :=
  match n with
  | Prim _ => truthy_node n
  | Obj _ ps => all_truthy_props ps
  end
with all_truthy_props (ps : props F) : bool :=
  match ps with
  | PNil => true
  | PCons _ v rest => all_truthy v && all_truthy_props rest
  end.


(** What [extend] leaves at [k] for an existing entry and an entry of the
    contribution. *)
Definition merged_entry (existing contributed : option (node F)) : option (node F) :=
  match existing, contributed with
  | Some dv, Some sv => Some (if bowler_util.isObject sv then bowler_util.extend dv sv else dv)
  | Some dv, None => Some dv
  | None, sv => sv
  end.



End Growth.

(** None of the four registries of a device holds a falsy primitive: their
    entries are functions, method names and the flag [is_rpc: true]. *)
Definition registries_truthy (dev : BowlerDevice) : bool :=
  all_truthy (_parsers dev) && all_truthy (_builders dev)
  && all_truthy (_rpc_send_methods dev) && all_truthy (_rpc_recv_methods dev).



(** An array of method names as an object: its keys are its indices. *)
Definition method_array (l : list string) : node no_function :=
  Obj None ((fix go (i : nat) (l : list string) : props no_function :=
               match l with
               | [] => PNil
               | m :: rest => PCons (pretty i) (Prim (PStr m)) (go (S i) rest)
               end) 0%nat l).

(** A contribution that registers another builder for [_png] under
    'bcs.core', and the device that has imported it and nothing else. *)
Definition override_namespace : BowlerNamespace.t :=
  BowlerNamespace.mk "bcs.core"
    empty_object (Obj None (PCons "_png" (Obj (Some bcs_rpc_builder) PNil) PNil))
    empty_object empty_object.

Definition overridden_device : BowlerDevice :=
  match supports_namespace blank_device override_namespace with
  | Ok d => d
  | Throw _ => blank_device
  end.



(** A small registry of named functions and a contribution at 'bcs.core'
    that names one function the registry has and one it has not. *)
Definition sample_registry : node string :=
  Obj None (PCons "bcs" (Obj None (PCons "core"
    (Obj None (PCons "_png" (Obj (Some "registered _png") PNil) PNil)) PNil)) PNil).

Definition sample_contribution : node string :=
  Obj None (PCons "_png" (Obj (Some "contributed _png") PNil)
           (PCons "_nms" (Obj (Some "contributed _nms") PNil) PNil)).

(** A [build_packet] that returns the given datagram whatever it is asked. *)
Definition build_packet_returning (datagram : Buffer.t)
  : jsval -> jsval -> string -> list jsval -> result Buffer.t :=
  fun _ _ _ _ => Ok datagram.


(** ** lib/packet.js: the other deserializers of [data_types] *)

(** [data_types.Bool.deserialize]: [!!buff[ind]]; outside the buffer
    [buff[ind]] is [undefined]. *)
Definition deserialize_Bool (buff : Buffer.t) (ind : Z) : bool :=
  match Buffer.get buff ind with
  | Some v => negb (v mod 256 =? 0)
  | None => false
  end.

(** [data_types.ByteBuffer.deserialize]:
    [var len = buff.readUInt8(ind); var new_buff = new Buffer(len);
     buff.copy(new_buff, 0, ind+1, ind+1+len); return [new_buff, len+1]]. *)
Definition deserialize_ByteBuffer (buff : Buffer.t) (ind : Z) : result (Buffer.t * Z) :=
  len ← Buffer.readUInt8 buff ind;
  '(new_buff, _) ← Buffer.copy buff (Buffer.alloc len) 0 (ind + 1) (ind + 1 + len);
  Ok (new_buff, len + 1).

(** [buf.toArrayBuffer()]: a new [ArrayBuffer] with a copy of the memory of
    the buffer.  Node 0.11.8 to 0.12 have the method; from Node 4 on a
    [Buffer] has none and the call is a [TypeError].  [has_toArrayBuffer]
    says which kind of Node runs the code. *)
Definition toArrayBuffer (has_toArrayBuffer : bool) (b : Buffer.t) : result (list Z) :=
  if has_toArrayBuffer then Ok (map (fun v => v mod 256) b)
  else Throw (TypeError "toArrayBuffer is not a function").

(** [data_types.UInt8Array.deserialize]:
    [var len = buff.readUInt8(ind);
     return [new Uint8Array(buff.slice(ind, ind+len).toArrayBuffer()), len+1]].
    The slice starts at [ind], the index of the count byte. *)
Definition deserialize_UInt8Array (has_toArrayBuffer : bool) (buff : Buffer.t) (ind : Z)
  : result (list Z * Z) :=
  len ← Buffer.readUInt8 buff ind;
  bytes ← toArrayBuffer has_toArrayBuffer (Buffer.sub buff ind (ind + len));
  Ok (bytes, len + 1).

(** The elements of [new Int32Array(arrayBuffer)] on a big-endian host. *)
Fixpoint int32_words (bs : list Z) : list Z :=
  match bs with
  | a :: b :: c :: d :: rest =>
      Buffer.to_signed 32 (Buffer.be_value [a; b; c; d]) :: int32_words rest
  | _ => []
  end.

(** [for (i = 0; i < len; i++) arr[i] = buff.readInt32BE(ind+1+i*4)], with
    [pos] the index of element [i]. *)
Fixpoint read_int32_elements (buff : Buffer.t) (pos : Z) (len : nat) : result (list Z) :=
  match len with
  | O => Ok []
  | S len' =>
      v ← Buffer.readInt32BE buff pos;
      rest ← read_int32_elements buff (pos + 4) len';
      Ok (v :: rest)
  end.

(** [data_types.Int32Array.deserialize]; [NATIVE_BE] is
    [os.endianness() == 'BE'].  On a big-endian host the bytes are handed
    to [new Int32Array] through [toArrayBuffer], and [new Int32Array]
    refuses a byte length that is no multiple of 4; elsewhere the elements
    are read one by one. *)
Definition deserialize_Int32Array (NATIVE_BE has_toArrayBuffer : bool)
    (buff : Buffer.t) (ind : Z) : result (list Z * Z) :=
  len ← Buffer.readUInt8 buff ind;
  if NATIVE_BE then
    bytes ← toArrayBuffer has_toArrayBuffer
              (Buffer.sub buff (ind + 1) (ind + 1 + len * 4));
    if Buffer.length bytes mod 4 =? 0 then Ok (int32_words bytes, len * 4 + 1)
    else Throw (RangeError "byte length of Int32Array should be a multiple of 4")
  else
    arr ← read_int32_elements buff (ind + 1) (Z.to_nat len);
    Ok (arr, len * 4 + 1).

(** The values an [Int32Array] holds. *)
Definition int32 (v : Z) : Prop := -2147483648 <= v <= 2147483647.

(** ** lib/packet.js: the other methods of a [ByteRange] of a
    [PacketByteContainer] *)

Module ByteRange.
Import PacketByteContainer.

(** [masked_with(mask)]: a new range over the same bytes, each ANDed with
    the mask. *)
Definition masked_with (this : ByteRange) (mask : Z) : result ByteRange :=
  res ← new_ByteRange (src this) (start this) (end_ this);
  Ok (mk_range (map (fun b => Z.land b mask mod 256) (buff res))
               (src res) (start res) (end_ res) (partial res)).

(** [to_end()]: [new ByteRange(this.src, this.start, this.src.length)] *)
Definition to_end (this : ByteRange) : result ByteRange :=
  new_ByteRange (src this) (start this) (Some (Buffer.length (src this))).

(** [to_null(excl_null)]: after its loop the method reads [incl_null],
    which is neither its parameter nor any other variable. *)
Definition to_null (this : ByteRange) : result ByteRange :=
  Throw (ReferenceError "incl_null").

(** [format(func)] *)
Definition format {A} (this : ByteRange) (func : Buffer.t -> A) : A :=
  func (buff this).

(** [getBuffer()] *)
Definition getBuffer (this : ByteRange) : Buffer.t := buff this.

(** [lookup_in(arr)]: [arr[this.buff[0]]]; [None] is [undefined]. *)
Definition lookup_in {A} (this : ByteRange) (arr : Z -> option A) : option A :=
  match buff this with
  | b :: _ => arr (b mod 256)
  | [] => None
  end.

(** [toBool()] *)
Definition toBool (this : ByteRange) : bool := deserialize_Bool (buff this) 0.

(** [toBuffer()]: the buffer, and the range with [partial] set. *)
Definition toBuffer (this : ByteRange) : result (Buffer.t * ByteRange) :=
  '(res, len) ← deserialize_ByteBuffer (buff this) 0;
  Ok (res, mk_range (buff this) (src this) (start this) (end_ this) (Some len)).

End ByteRange.

(** ** lib/bowler_device.js: reading a packet *)

(** [n.toString(16).toUpperCase()] of a byte. *)
Definition hex_digit (d : Z) : Ascii.ascii :=
  Ascii.ascii_of_nat (Z.to_nat (if d <? 10 then 48 + d else 55 + d)).

Definition to_hex_upper (b : Z) : string :=
  if b <? 16 then String (hex_digit b) EmptyString
  else String (hex_digit (b / 16)) (String (hex_digit (b mod 16)) EmptyString).

(** [BOWLER_METHODS[code]] *)
Definition BOWLER_METHODS (code : Z) : option string :=
  if code =? 0x00 then Some "status"
  else if code =? 0x10 then Some "get"
  else if code =? 0x20 then Some "post"
  else if code =? 0x30 then Some "critical"
  else if code =? 0x40 then Some "async"
  else None.

(** [this.supported_namespaces[id]] *)
Definition supported_namespace_at (this : BowlerDevice) (id : Z) : option string :=
  snd <$> List.find (fun entry => fst entry =? id) (supported_namespaces this).

(** The object [BOWLER_PACKET_PARSER] returns; [None] is [undefined] for
    [method] and [namespace] and [null] for [data]. *)
Record bowler_packet : Type := mk_bowler_packet {
  packet_version : Z;
  packet_mac_address : string;
  packet_method : option string;
  packet_namespace : option string;
  packet_direction : Z;
  packet_size : Z;
  packet_crc : Z;
  packet_rpc : string;
  packet_data : option Buffer.t
}.

(** The callback given to [format] for the MAC address:
    [for (i ...) res += raw[i].toString(16).toUpperCase()]. *)
Definition mac_address_format (raw : Buffer.t) : string :=
  fold_left (fun res b => res +:+ to_hex_upper (b mod 256)) raw EmptyString.

(** [this.BOWLER_PACKET_PARSER(src)]: the fields are read in the order of
    the object literal, then [data]. *)
Definition BOWLER_PACKET_PARSER (this : BowlerDevice) (src : PacketByteContainer.t)
  : result bowler_packet :=
  r ← PacketByteContainer.byte src 0;
  version ← PacketByteContainer.toInt r;
  r ← PacketByteContainer.bytes src (Some 1) (Some 6);
  let mac_address := ByteRange.format r mac_address_format in
  r ← PacketByteContainer.byte src 7;
  let method := ByteRange.lookup_in r BOWLER_METHODS in
  r ← PacketByteContainer.byte src 8;
  r ← ByteRange.masked_with r 0x7F;
  let namespace := ByteRange.lookup_in r (supported_namespace_at this) in
  r ← PacketByteContainer.byte src 8;
  r ← ByteRange.masked_with r 0x01;
  direction ← PacketByteContainer.toInt r;
  r ← PacketByteContainer.byte src 9;
  size ← PacketByteContainer.toInt r;
  r ← PacketByteContainer.byte src 10;
  crc ← PacketByteContainer.toInt r;
  r ← PacketByteContainer.bytes src (Some 11) (Some 14);
  let rpc := PacketByteContainer.toRawString r in
  if 4 <? size then
    r ← PacketByteContainer.byte src 15;
    r ← ByteRange.to_end r;
    Ok (mk_bowler_packet version mac_address method namespace direction size crc rpc
          (Some (ByteRange.getBuffer r)))
  else
    Ok (mk_bowler_packet version mac_address method namespace direction size crc rpc None).

(** [BowlerDevice.prototype.parse_bowler_data(raw_bytes)] *)
Definition parse_bowler_data (this : BowlerDevice) (raw_bytes : Buffer.t)
  : result bowler_packet :=
  BOWLER_PACKET_PARSER this raw_bytes.

Definition could_not_find_parser (method namespace rpc : string) : string :=
  "Could not find a parser for the " +:+ method +:+ " method for the RPC "
    +:+ namespace +:+ "#" +:+ rpc.

(** A string or [undefined] in a string concatenation. *)
Definition or_undefined (s : option string) : string := default "undefined" s.

Section Inbound.
(** What calling a registered parser on the container of [data] returns. *)
Variable apply_parser : parser -> option Buffer.t -> result jsval.

(** [BowlerDevice.prototype.parse_packet_data(base_packet)] *)
Definition parse_packet_data (this : BowlerDevice) (base_packet : bowler_packet)
  : result jsval :=
  match packet_namespace base_packet with
  | None => Throw (Error "Received packet from unknown namespace!")
  | Some namespace =>
      if String.eqb namespace "" then
        Throw (Error "Received packet from unknown namespace!")
      else
        found ← bowler_util.resolve_namespace_path namespace (Some (packet_rpc base_packet))
                  (_parsers this) "Error finding packet parser";
        let method := or_undefined (packet_method base_packet) in
        let not_found :=
          Throw (Error (could_not_find_parser method namespace (packet_rpc base_packet))) in
        match found with
        | bowler_util.Resolved (Obj (Some f) _) => apply_parser f (packet_data base_packet)
        | bowler_util.Resolved n =>
            (* we have a multi-type RPC *)
            match get_prop n method with
            | Some (Obj (Some f) _) => apply_parser f (packet_data base_packet)
            | Some other =>
                if truthy_node other then Throw (TypeError "parser is not a function")
                else not_found
            | None => not_found
            end
        | bowler_util.ErrorObject _ => not_found
        end
  end.

(** The listener the [DyIO] constructor puts on the connection's 'data'
    event: the event it emits, with the parsed packet and the header that
    is stored in its [bowler_data]. *)
Definition on_data (this : BowlerDevice) (raw_data : Buffer.t)
  : result (string * jsval * bowler_packet) :=
  bowler_packet ← parse_bowler_data this raw_data;
  full_packet ← parse_packet_data this bowler_packet;
  match full_packet with
  | JUndefined | JNull =>
      Throw (TypeError "Cannot set property 'bowler_data' of undefined")
  | _ =>
      let event_name :=
        or_undefined (packet_method bowler_packet) +:+ ":"
          +:+ or_undefined (packet_namespace bowler_packet) +:+ "#"
          +:+ packet_rpc bowler_packet in
      Ok (event_name, full_packet, bowler_packet)
  end.

End Inbound.

(** ** Paths through the registries *)

(** A path as [resolve_namespace_path] walks it: segments 'com' are skipped. *)
Definition without_com (path : list string) : list string :=
  List.filter (fun seg => negb (String.eqb seg "com")) path.

(** The device [new BowlerDevice()] returns. *)
Definition default_device : BowlerDevice :=
  match new_BowlerDevice with
  | Ok d => d
  | Throw _ => blank_device
  end.

(** The names every object inherits from [Object.prototype].  [get] and
    [get_prop] read own properties; a statement about an entry that is
    missing from a plain object is about the other names. *)
Definition Object_prototype_names : list string :=
  ["constructor"; "toString"; "toLocaleString"; "valueOf"; "hasOwnProperty";
   "isPrototypeOf"; "propertyIsEnumerable"; "__defineGetter__"; "__lookupGetter__";
   "__defineSetter__"; "__lookupSetter__"; "__proto__"].

Definition inherited_name (name : string) : bool :=
  existsb (String.eqb name) Object_prototype_names.

(** ** lib/bowler_device.js: the setter of [mac_address_bytes]

    [for (i = 0; i < 6; i++) if (val[i] != 255) { equals_broadcast = false; break; }]
    and then ['broadcast'] or [val] is stored. *)
Definition set_mac_address_bytes (this : BowlerDevice) (val : list Z) : BowlerDevice :=
  let equals_broadcast :=
    forallb (fun i => match val !! i with
                      | Some b => b =? 255
                      | None => false
                      end) (seq 0 6) in
  mk_device (supported_namespaces this)
            (if equals_broadcast then Broadcast else Address val)
            (_parsers this) (_builders this)
            (_rpc_send_methods this) (_rpc_recv_methods this).

(** ** Invariants of the framing parser *)



(** ** The framing parser with its emitter

    [emitter.emit('data', bowler_data)] runs the listeners of the emitter
    before it returns, and an exception of a listener leaves through the
    parser call, before [bowler_data = null].  [emit] is what the
    listeners do with a packet, on whatever they keep of their own ([E]):
    they return, or throw.  After an exception the closure's variables
    stay as they were at the call of [emit]; the embedding follows the
    parser up to the first exception. *)
Section Emitter.
Context {E : Type}.
Variable emit : E -> Buffer.t -> result E.

(** One pass through the body of the [while] loop. *)
Definition loop_body_emitting (e : E) (s : bowler_serial_parser.state)
  : result (E * bowler_serial_parser.state) :=
  (* if (bowler_data === null) { size = ...; amt_left_to_read = ...; bowler_data = new Buffer(...) } *)
  '(data, to_read) ←
    match bowler_serial_parser.bowler_data s with
    | None =>
        size ← Buffer.readUInt8 (bowler_serial_parser.incoming_data s)
                 (bowler_serial_parser.curr_ind s + BOWLER_SIZE_BYTE);
        Ok (Buffer.alloc (BOWLER_HEADER_SIZE + size), BOWLER_HEADER_SIZE + size)
    | Some data => Ok (data, bowler_serial_parser.amt_left_to_read s)
    end;
  (* if (amt_left_to_read > 0 && amt_left > 0) { ... copy ... } *)
  '(data, ind, avail, to_read) ←
    (if (0 <? to_read) && (0 <? bowler_serial_parser.amt_left s) then
       let amt_to_read := to_read in
       let amt_to_read := if bowler_serial_parser.amt_left s <? amt_to_read
                          then bowler_serial_parser.amt_left s else amt_to_read in
       '(data', _) ← Buffer.copy (bowler_serial_parser.incoming_data s) data
                       (Buffer.length data - to_read)
                       (bowler_serial_parser.curr_ind s)
                       (bowler_serial_parser.curr_ind s + amt_to_read);
       Ok (data', bowler_serial_parser.curr_ind s + amt_to_read,
           bowler_serial_parser.amt_left s - amt_to_read, to_read - amt_to_read)
     else Ok (data, bowler_serial_parser.curr_ind s, bowler_serial_parser.amt_left s,
              to_read));
  (* if (amt_left_to_read === 0 && bowler_data.length > 0) { emit; bowler_data = null } *)
  if (to_read =? 0) && (0 <? Buffer.length data) then
    e' ← emit e data;
    Ok (e', bowler_serial_parser.mk_state None (bowler_serial_parser.incoming_data s)
              ind avail to_read)
  else
    Ok (e, bowler_serial_parser.mk_state (Some data) (bowler_serial_parser.incoming_data s)
             ind avail to_read).

(** [while (amt_left > BOWLER_SIZE_BYTE) { ... }] *)
Fixpoint while_loop_emitting (fuel : nat) (e : E) (s : bowler_serial_parser.state)
  : result (E * bowler_serial_parser.state) :=
  match fuel with
  | O => Ok (e, s)
  | S fuel' =>
      if BOWLER_SIZE_BYTE <? bowler_serial_parser.amt_left s then
        '(e', s') ← loop_body_emitting e s;
        while_loop_emitting fuel' e' s'
      else Ok (e, s)
  end.

(** One call [parser(emitter, buffer)]. *)
Definition parse_chunk_emitting (e : E) (s : bowler_serial_parser.state) (buffer : Buffer.t)
  : result (E * bowler_serial_parser.state) :=
  (* amt_left += buffer.copy(incoming_data, curr_ind); *)
  '(incoming, copied) ← Buffer.copy buffer (bowler_serial_parser.incoming_data s)
                          (bowler_serial_parser.curr_ind s) 0 (Buffer.length buffer);
  let s := bowler_serial_parser.mk_state
             (bowler_serial_parser.bowler_data s) incoming (bowler_serial_parser.curr_ind s)
             (bowler_serial_parser.amt_left s + copied)
             (bowler_serial_parser.amt_left_to_read s) in
  '(e, s) ← while_loop_emitting (Z.to_nat (bowler_serial_parser.amt_left s)) e s;
  (* copy left over data to the beginning of the buffer *)
  if 0 <? bowler_serial_parser.amt_left s then
    '(incoming, _) ← Buffer.copy (bowler_serial_parser.incoming_data s)
                       (bowler_serial_parser.incoming_data s) 0
                       (bowler_serial_parser.curr_ind s)
                       (bowler_serial_parser.curr_ind s + bowler_serial_parser.amt_left s);
    Ok (e, bowler_serial_parser.mk_state
             (bowler_serial_parser.bowler_data s) incoming
             (bowler_serial_parser.amt_left s) (bowler_serial_parser.amt_left s)
             (bowler_serial_parser.amt_left_to_read s))
  else
    Ok (e, bowler_serial_parser.mk_state
             (bowler_serial_parser.bowler_data s) (bowler_serial_parser.incoming_data s) 0
             (bowler_serial_parser.amt_left s) (bowler_serial_parser.amt_left_to_read s)).

(** The chunks of a stream given to one parser, call after call. *)
Fixpoint feed_emitting (e : E) (s : bowler_serial_parser.state) (chunks : list Buffer.t)
  : result (E * bowler_serial_parser.state) :=
  match chunks with
  | [] => Ok (e, s)
  | c :: rest =>
      '(e', s') ← parse_chunk_emitting e s c;
      feed_emitting e' s' rest
  end.

(** The listeners run on packet after packet, up to the first that
    throws. *)
Fixpoint emit_all (e : E) (packets : list Buffer.t) : result E :=
  match packets with
  | [] => Ok e
  | p :: rest => e' ← emit e p; emit_all e' rest
  end.

End Emitter.

(** The 'data' listener of a DyIO, on whose events no handle waits, as the
    emitter's listener: it keeps the names of the events it has emitted. *)
Definition dyio_listener (apply_parser : parser -> option Buffer.t -> result jsval)
    (d : BowlerDevice) (events : list string) (raw_data : Buffer.t)
  : result (list string) :=
  '(event_name, _, _) ← on_data apply_parser d raw_data;
  Ok (events ++ [event_name]).

(** A packet as it travels: bytes, and as long as its size byte says. *)
Definition wire_packet (p : Buffer.t) : Prop :=
  Forall (fun b => 0 <= b < 256) p /\ complete_packet p = true.

(** ** Arrays and object literals in the registries *)

(** The properties of an array of method names whose first index is [i]. *)
Fixpoint indexed_entries (i : nat) (l : list string) : props no_function :=
  match l with
  | [] => PNil
  | m :: rest => PCons (pretty i) (Prim (PStr m)) (indexed_entries (S i) rest)
  end.

Section DeepDistinct.
Context {F : Type}.

(** Every object of the tree has distinct property names, as a tree of
    object literals has. *)
Fixpoint distinct_deep (n : node F) : Prop :=
  match n with
  | Prim _ => True
  | Obj _ ps => NoDup (keys ps) /\ distinct_deep_props ps
  end
with distinct_deep_props (ps : props F) : Prop :=
  match ps with
  | PNil => True
  | PCons _ v rest => distinct_deep v /\ distinct_deep_props rest
  end.

(** No property name of the tree is one that every object inherits. *)
Fixpoint plain_names (n : node F) : bool :=
  match n with
  | Prim _ => true
  | Obj _ ps => plain_names_props ps
  end
with plain_names_props (ps : props F) : bool :=
  match ps with
  | PNil => true
  | PCons k v rest => negb (inherited_name k) && plain_names v && plain_names_props rest
  end.

End DeepDistinct.

(** The four objects of a contribution are trees of object literals. *)
Definition contribution_literal (ns : BowlerNamespace.t) : Prop :=
  distinct_deep (BowlerNamespace.parsers ns) /\
  distinct_deep (BowlerNamespace.builders ns) /\
  distinct_deep (BowlerNamespace.send_methods ns) /\
  distinct_deep (BowlerNamespace.recv_methods ns).

(** Neither the root of a contribution nor its four objects use a name
    that every object inherits: [obj[name]], by which the registries are
    read, finds such a name on every object. *)
Definition contribution_plain (ns : BowlerNamespace.t) : bool :=
  forallb (fun seg => negb (inherited_name seg)) (BowlerNamespace.root_path ns)
  && plain_names (BowlerNamespace.parsers ns)
  && plain_names (BowlerNamespace.builders ns)
  && plain_names (BowlerNamespace.send_methods ns)
  && plain_names (BowlerNamespace.recv_methods ns).

(** *** The [while] loop of the framing parser runs to its exit *)

Module bowler_serial_parser_facts.
Import bowler_serial_parser.

Lemma filling_init : filling init.
Proof. split; [simpl; lia | intros d Hd; discriminate Hd]. Qed.

Lemma length_alloc n : 0 <= n -> Buffer.length (Buffer.alloc n) = n.
Proof.
  intros Hn. unfold Buffer.length, Buffer.alloc.
  rewrite repeat_length. lia.
Qed.

Lemma copy_length source target ts ss se target' n :
  Buffer.copy source target ts ss se = Ok (target', n) ->
  Buffer.length target' = Buffer.length target.
Proof.
  unfold Buffer.copy.
  destruct ((ts <? 0) || (ss <? 0) || (se <? 0)) eqn:Hneg; [discriminate|].
  destruct ((Buffer.length target <=? ts) || (se <=? ss)) eqn:Hnone.
  { intros [= <- <-]. reflexivity. }
  destruct (Buffer.length source <? ss) eqn:Hsrc; [discriminate|].
  intros [= <- <-].
  apply orb_false_iff in Hneg as [Hneg Hse].
  apply orb_false_iff in Hneg as [Hts Hss].
  apply orb_false_iff in Hnone as [Hlen Hrange].
  unfold Buffer.length, Buffer.sub in *.
  rewrite !length_app, length_take, length_take, !length_drop.
  lia.
Qed.

Lemma loop_body_progress s s' e :
  filling s -> BOWLER_SIZE_BYTE < amt_left s ->
  loop_body s = Ok (s', e) ->
  filling s' /\ 0 <= amt_left s' < amt_left s.
Proof.
  intros [Hnonneg Hfill] Hleft. unfold loop_body, BOWLER_SIZE_BYTE, BOWLER_HEADER_SIZE in *.
  assert (Hstart : exists data to_read,
    match bowler_data s with
    | None =>
        size ← Buffer.readUInt8 (incoming_data s) (curr_ind s + 9);
        Ok (Buffer.alloc (11 + size), 11 + size)
    | Some data => Ok (data, amt_left_to_read s)
    end = Ok (data, to_read) /\ 0 < Buffer.length data /\ 0 < to_read
    \/ exists err, match bowler_data s with
    | None =>
        size ← Buffer.readUInt8 (incoming_data s) (curr_ind s + 9);
        Ok (Buffer.alloc (11 + size), 11 + size)
    | Some data => Ok (data, amt_left_to_read s)
    end = Throw err).
  { destruct (bowler_data s) as [d|] eqn:Hd.
    - exists d, (amt_left_to_read s). left. destruct (Hfill d eq_refl). auto.
    - unfold Buffer.readUInt8.
      destruct (Buffer.get (incoming_data s) (curr_ind s + 9)) as [v|].
      + exists (Buffer.alloc (11 + v mod 256)), (11 + v mod 256). left.
        pose proof (Z.mod_pos_bound v 256 ltac:(lia)).
        split; [reflexivity|]. rewrite length_alloc by lia. lia.
      + exists [], 0. right. eexists. reflexivity. }
  destruct Hstart as (data & to_read & [(-> & Hlen & Hto) | [err ->]]);
    [|discriminate].
  cbn [mbind result_bind].
  assert (Hcond : (0 <? to_read) && (0 <? amt_left s) = true).
  { apply andb_true_iff. split; apply Z.ltb_lt; lia. }
  rewrite Hcond.
  set (amt := if amt_left s <? to_read then amt_left s else to_read).
  assert (Hamt : 0 < amt /\ amt <= to_read /\ amt <= amt_left s).
  { subst amt. destruct (amt_left s <? to_read) eqn:Hc;
      [apply Z.ltb_lt in Hc | apply Z.ltb_ge in Hc]; lia. }
  destruct (Buffer.copy (incoming_data s) data (Buffer.length data - to_read)
              (curr_ind s) (curr_ind s + amt)) as [[data' n]|err] eqn:Hcopy;
    [|discriminate].
  cbn [mbind result_bind].
  apply copy_length in Hcopy.
  intros Hres.
  destruct ((to_read - amt =? 0) && (0 <? Buffer.length data')) eqn:Hemit;
    injection Hres as <- <-; unfold filling; cbn; (split; [split|]); try lia.
  - intros d Hd; discriminate Hd.
  - intros d [= <-]. split; [lia|].
    apply andb_false_iff in Hemit as [Hz | Hl];
      [apply Z.eqb_neq in Hz | apply Z.ltb_ge in Hl]; lia.
Qed.

(** With as much fuel as there are buffered bytes the loop is left through
    its condition, not through the fuel. *)
Lemma while_loop_runs_out fuel : forall s out s' out',
  filling s -> 0 <= amt_left s <= Z.of_nat fuel ->
  while_loop fuel s out = Ok (s', out') ->
  filling s' /\ 0 <= amt_left s' <= BOWLER_SIZE_BYTE.
Proof.
  induction fuel as [|fuel IH]; intros s out s' out' Hfill Hfuel; cbn [while_loop].
  - intros [= <- <-]. split; [assumption|]. unfold BOWLER_SIZE_BYTE. lia.
  - destruct (BOWLER_SIZE_BYTE <? amt_left s) eqn:Hcond.
    + apply Z.ltb_lt in Hcond.
      destruct (loop_body s) as [[s1 e]|err] eqn:Hbody; [|discriminate].
      cbn [mbind result_bind].
      destruct (loop_body_progress _ _ _ Hfill Hcond Hbody) as [Hfill1 Hlt].
      apply IH; [assumption | lia].
    + apply Z.ltb_ge in Hcond. intros [= <- <-]. split; [assumption | lia].
Qed.

Lemma copy_count source target ts ss se target' n :
  Buffer.copy source target ts ss se = Ok (target', n) -> 0 <= n.
Proof.
  unfold Buffer.copy.
  destruct ((ts <? 0) || (ss <? 0) || (se <? 0)) eqn:Hneg; [discriminate|].
  destruct ((Buffer.length target <=? ts) || (se <=? ss)) eqn:Hnone.
  { intros [= <- <-]. lia. }
  destruct (Buffer.length source <? ss) eqn:Hsrc; [discriminate|].
  intros [= <- <-].
  apply orb_false_iff in Hnone as [Hlen Hrange].
  apply Z.ltb_ge in Hsrc. apply Z.leb_gt in Hlen, Hrange. lia.
Qed.

(** Every call of the parser leaves at most [BOWLER_SIZE_BYTE] bytes
    buffered: its loop ran until its condition failed. *)
Lemma parse_chunk_filling s chunk s' out :
  filling s -> 0 <= amt_left s ->
  parse_chunk s chunk = Ok (s', out) ->
  filling s' /\ 0 <= amt_left s' <= BOWLER_SIZE_BYTE.
Proof.
  intros Hfill Hleft. unfold parse_chunk.
  destruct (Buffer.copy chunk (incoming_data s) (curr_ind s) 0 (Buffer.length chunk))
    as [[incoming copied]|err] eqn:Hcopy; [|discriminate].
  cbn [mbind result_bind]. apply copy_count in Hcopy.
  set (s1 := mk_state _ _ _ _ _).
  destruct (while_loop (Z.to_nat (amt_left s1)) s1 []) as [[s2 out2]|err] eqn:Hloop;
    [|discriminate].
  cbn [mbind result_bind].
  apply while_loop_runs_out in Hloop as [Hfill2 Hleft2];
    [| exact Hfill | subst s1; cbn; lia].
  destruct (0 <? amt_left s2).
  - destruct (Buffer.copy _ _ _ _ _) as [[incoming2 k]|err]; [|discriminate].
    cbn [mbind result_bind]. intros [= <- <-]. split; [exact Hfill2 | exact Hleft2].
  - intros [= <- <-]. split; [exact Hfill2 | exact Hleft2].
Qed.

End bowler_serial_parser_facts.

(** *** The framing parser on whole and on split packets *)

Lemma copy_from_start (source target : Buffer.t) (n : Z) :
  0 < n -> n <= Buffer.length source -> n <= Buffer.length target ->
  Buffer.copy source target 0 0 n
  = Ok (take (Z.to_nat n) source ++ drop (Z.to_nat n) target, n).
Proof.
  intros Hn Hs Ht. unfold Buffer.copy.
  replace ((0 <? 0) || (0 <? 0) || (n <? 0)) with false
    by (symmetry; repeat (apply orb_false_intro); apply Z.ltb_ge; lia).
  replace ((Buffer.length target <=? 0) || (n <=? 0)) with false
    by (symmetry; apply orb_false_intro; apply Z.leb_gt; lia).
  replace (Buffer.length source <? 0) with false
    by (symmetry; apply Z.ltb_ge; unfold Buffer.length; lia).
  replace (Z.min (Z.min (n - 0) (Buffer.length target - 0)) (Buffer.length source - 0))
    with n by lia.
  unfold Buffer.sub. rewrite !Z.add_0_l, Z.sub_0_r. reflexivity.
Qed.

(** A complete packet that arrives as one chunk while the parser is idle is
    emitted as it is, and the parser is idle again. *)
Lemma parse_chunk_whole_packet (s : bowler_serial_parser.state) (p : Buffer.t) :
  idle s ->
  Forall (fun b => 0 <= b < 256) p ->
  complete_packet p = true ->
  Buffer.length p <= 255 ->
  exists s', bowler_serial_parser.parse_chunk s p = Ok (s', [p]) /\ idle s'.
Proof.
  intros (Hdata & Hind & Hleft & Hinc) Hbytes Hcomplete H255.
  unfold complete_packet in Hcomplete.
  destruct (Buffer.get p BOWLER_SIZE_BYTE) as [size|] eqn:Hsize; [|discriminate].
  apply Z.eqb_eq in Hcomplete. unfold BOWLER_SIZE_BYTE, BOWLER_HEADER_SIZE in *.
  assert (Hsize_range : 0 <= size < 256).
  { unfold Buffer.get in Hsize. cbn in Hsize.
    rewrite Forall_lookup in Hbytes. exact (Hbytes _ _ Hsize). }
  assert (Hn : Z.to_nat (Buffer.length p) = List.length p)
    by (unfold Buffer.length; lia).
  unfold bowler_serial_parser.parse_chunk. rewrite Hind, Hleft.
  rewrite copy_from_start by lia. cbn [mbind result_bind].
  rewrite Hn, firstn_all.
  set (incoming := p ++ drop (List.length p) (bowler_serial_parser.incoming_data s)).
  assert (Hincoming : Buffer.length incoming = 255).
  { subst incoming. unfold Buffer.length in *. rewrite length_app, length_drop. lia. }
  cbn [bowler_serial_parser.amt_left bowler_serial_parser.incoming_data
       bowler_serial_parser.curr_ind bowler_serial_parser.bowler_data
       bowler_serial_parser.amt_left_to_read].
  rewrite Z.add_0_l, Hdata.
  assert (Hbody :
    bowler_serial_parser.loop_body
      (bowler_serial_parser.mk_state None incoming 0 (Buffer.length p)
         (bowler_serial_parser.amt_left_to_read s))
    = Ok (bowler_serial_parser.mk_state None incoming (Buffer.length p) 0 0, Some p)).
  { unfold bowler_serial_parser.loop_body.
    cbn [bowler_serial_parser.amt_left bowler_serial_parser.incoming_data
         bowler_serial_parser.curr_ind bowler_serial_parser.bowler_data
         bowler_serial_parser.amt_left_to_read].
    assert (Hread : Buffer.readUInt8 incoming (0 + 9) = Ok size).
    { assert (Hget : Buffer.get incoming 9 = Some size).
      { unfold Buffer.get in *. change (9 <? 0) with false in *. cbv iota in *.
        subst incoming. rewrite lookup_app_l; [exact Hsize|].
        apply lookup_lt_Some in Hsize. exact Hsize. }
      unfold Buffer.readUInt8. rewrite Z.add_0_l, Hget. f_equal.
      apply Z.mod_small. lia. }
    unfold BOWLER_SIZE_BYTE, BOWLER_HEADER_SIZE. rewrite Hread. cbn [mbind result_bind].
    rewrite <- Hcomplete.
    replace ((0 <? Buffer.length p) && (0 <? Buffer.length p)) with true
      by (symmetry; apply andb_true_iff; split; apply Z.ltb_lt; lia).
    rewrite Z.ltb_irrefl.
    assert (Halloc : Buffer.length (Buffer.alloc (Buffer.length p)) = Buffer.length p).
    { unfold Buffer.length, Buffer.alloc. rewrite repeat_length. lia. }
    rewrite Halloc, Z.sub_diag, Z.add_0_l.
    rewrite copy_from_start by lia. cbn [mbind result_bind].
    rewrite drop_ge by (unfold Buffer.alloc; rewrite repeat_length; lia).
    rewrite app_nil_r, Hn. subst incoming. rewrite take_app_length.
    cbn [Z.eqb andb].
    replace (0 <? Buffer.length p) with true by (symmetry; apply Z.ltb_lt; lia).
    reflexivity. }
  assert (Hloop :
    bowler_serial_parser.while_loop (Z.to_nat (Buffer.length p))
      (bowler_serial_parser.mk_state None incoming 0 (Buffer.length p)
         (bowler_serial_parser.amt_left_to_read s)) []
    = Ok (bowler_serial_parser.mk_state None incoming (Buffer.length p) 0 0, [p])).
  { destruct (Z.to_nat (Buffer.length p)) as [|fuel] eqn:Hfuel; [lia|].
    cbn [bowler_serial_parser.while_loop bowler_serial_parser.amt_left].
    replace (BOWLER_SIZE_BYTE <? Buffer.length p) with true
      by (symmetry; apply Z.ltb_lt; unfold BOWLER_SIZE_BYTE; lia).
    rewrite Hbody. cbn [mbind result_bind option_list app].
    destruct fuel; reflexivity. }
  rewrite Hloop. cbn.
  eexists. split; [reflexivity|].
  repeat split. exact Hincoming.
Qed.


(** Packets that arrive one per chunk are emitted one by one: the parser
    frames a stream that is cut at packet boundaries. *)
Lemma feed_whole_packets (packets : list Buffer.t) : forall s,
  idle s ->
  Forall (fun p => Forall (fun b => 0 <= b < 256) p /\
                   complete_packet p = true /\ Buffer.length p <= 255) packets ->
  exists s', bowler_serial_parser.feed s packets = Ok (s', packets) /\ idle s'.
Proof.
  induction packets as [|p rest IH]; intros s Hidle Hall.
  - exists s. split; [reflexivity | exact Hidle].
  - apply Forall_cons in Hall as [(Hbytes & Hcomplete & Hlen) Hrest].
    destruct (parse_chunk_whole_packet s p Hidle Hbytes Hcomplete Hlen)
      as (s1 & Hchunk & Hidle1).
    destruct (IH s1 Hidle1 Hrest) as (s2 & Hfeed & Hidle2).
    exists s2. cbn [bowler_serial_parser.feed]. rewrite Hchunk. cbn [mbind result_bind].
    rewrite Hfeed. split; [reflexivity | exact Hidle2].
Qed.

(** A chunk that holds whole packets is split into them: two pings in one
    30 byte chunk come out as two packets. *)
Lemma serial_parser_coalesced_pings :
  bowler_serial_parser.emitted
    (bowler_serial_parser.feed bowler_serial_parser.init [ping_packet ++ ping_packet])
  = Ok [ping_packet; ping_packet].
Proof. vm_compute. reflexivity. Qed.

(** A first fragment shorter than ten bytes is kept at the front of the
    rolling buffer with [curr_ind] behind it; the size byte of the packet is
    then read at [curr_ind + 9], inside the next fragment. *)
Lemma serial_parser_short_first_fragment :
  bowler_serial_parser.emitted
    (bowler_serial_parser.feed bowler_serial_parser.init [take 5 ping_packet; drop 5 ping_packet])
  = Ok [].
Proof. vm_compute. reflexivity. Qed.

(** The bytes held back from a split packet are completed from the wrong
    place when more data arrives: the packet emitted is not the one sent. *)
Lemma serial_parser_split_then_more :
  bowler_serial_parser.emitted
    (bowler_serial_parser.feed bowler_serial_parser.init
       [take 12 ping_packet; drop 12 ping_packet; ping_packet])
  = Ok [[3; 0; 0; 0; 0; 0; 0; 16; 0; 4; 23; 95; 3; 0; 0]].
Proof. vm_compute. reflexivity. Qed.

(** C7: one complete ping packet, cut into a chunk of 12 bytes and a chunk
    of 3 bytes and fed to a fresh framing parser in that order, is not
    emitted: the parser emits no packet at all, where the framing property
    asks for exactly that one packet.  The last three bytes stay in the
    rolling buffer because the loop only runs while more than
    [BOWLER_SIZE_BYTE] bytes are buffered. *)
Theorem serial_parser_split_ping_not_emitted :
  complete_packet ping_packet = true /\
  take 12 ping_packet ++ drop 12 ping_packet = ping_packet /\
  bowler_serial_parser.emitted
    (bowler_serial_parser.feed bowler_serial_parser.init [take 12 ping_packet; drop 12 ping_packet])
  = Ok [].
Proof. repeat split; vm_compute; reflexivity. Qed.

(** *** The typed value codec *)

(** The fixed-width integers are written big-endian and report their width. *)
Lemma serialize_Int32_example :
  data_types.serialize data_types.Int32 (JNumber (Num (-2))) (Buffer.alloc 4) 0
  = Ok ([255; 255; 255; 254], 4).
Proof. vm_compute. reflexivity. Qed.

Lemma serialize_Int16_example :
  data_types.serialize data_types.Int16 (JNumber (Num 258)) (Buffer.alloc 2) 0
  = Ok ([1; 2], 2).
Proof. vm_compute. reflexivity. Qed.

(** A string is written with its terminator, one byte more than
    [get_width] reports for it. *)
Lemma NullTerminatedString_width_mismatch :
  data_types.get_width data_types.NullTerminatedString (JString "abc") = Ok 3 /\
  data_types.serialize data_types.NullTerminatedString (JString "abc") (Buffer.alloc 4) 0
  = Ok ([97; 98; 99; 0], 4).
Proof. split; vm_compute; reflexivity. Qed.

(** An Int32 in range, at an index where four bytes fit, is written as its
    four big-endian two's complement bytes, and 4 is returned. *)
Lemma serialize_Int32_in_range (v ind : Z) (buff : Buffer.t) :
  -2147483648 <= v <= 2147483647 ->
  0 <= ind -> ind + 4 <= Buffer.length buff ->
  data_types.serialize data_types.Int32 (JNumber (Num v)) buff ind
  = Ok (take (Z.to_nat ind) buff
          ++ [(v ≫ 24) mod 256; (v ≫ 16) mod 256; (v ≫ 8) mod 256; v mod 256]
          ++ drop (Z.to_nat ind + 4) buff, 4).
Proof.
  intros Hv Hind Hfit. cbn [data_types.serialize write_int to_number].
  unfold Buffer.writeInt32BE.
  replace ((v <? -2147483648) || (2147483647 <? v)) with false
    by (symmetry; apply orb_false_intro; apply Z.ltb_ge; lia).
  replace ((ind <? 0) || (Buffer.length buff <? ind + 4)) with false
    by (symmetry; apply orb_false_intro; apply Z.ltb_ge; lia).
  cbn [mbind result_bind]. unfold Buffer.write_bytes. cbn [Buffer.be_bytes List.length].
  rewrite Z.shiftr_0_r. reflexivity.
Qed.

(** The width of the Int32Array [1, -2, 3] is 13. *)
Lemma Int32Array_width_example :
  data_types.get_width data_types.Int32Array (JInt32Array [1; -2; 3]) = Ok 13.
Proof. vm_compute. reflexivity. Qed.

(** C8: [data_types.Int32Array.serialize] writes nothing and returns no
    count: for every input, buffer and index it raises [ReferenceError],
    because it reads [ab] where its parameter is called [input].  In
    particular serializing [1, -2, 3] into a 13 byte buffer does not
    produce 03 00 00 00 01 FF FF FF FE 00 00 00 03. *)
Theorem Int32Array_serialize_throws :
  (forall input buff ind,
     data_types.serialize data_types.Int32Array input buff ind
     = Throw (ReferenceError "ab")) /\
  data_types.serialize data_types.Int32Array (JInt32Array [1; -2; 3]) (Buffer.alloc 13) 0
  <> Ok ([3; 0; 0; 0; 1; 255; 255; 255; 254; 0; 0; 0; 3], 13).
Proof. split; [reflexivity | discriminate]. Qed.

(** *** The [_nms] parser *)

(** With the composite string read up to its null byte, the offsets of the
    parser cut the plain body short: the name loses its last two
    characters and the version its last two. *)
Lemma nms_fields_plain_body :
  BcsCoreNamespace._nms_fields nms_body_plain "bcs.core;1.0.0" 15
  = Ok (BcsCoreNamespace.mk_nms "bcs.core;1.0.0" "bcs.co" "1.0" 1).
Proof. vm_compute. reflexivity. Qed.

(** As written, [toString] hands the parser the whole range, not the
    string up to the null byte: the comparison with ['\0'] never holds. *)
Lemma toString_runs_to_the_end :
  (r ← PacketByteContainer.all_bytes nms_body_plain;
   Ok (PacketByteContainer.partial (PacketByteContainer.toString r).2))
  = Ok (Some 17).
Proof. vm_compute. reflexivity. Qed.

(** C4, as stated, fails: applied to the body "bcs.core;1.0.0" 00 01 the
    [_nms] parser returns no object (it ends in an exception); and given
    the string up to the null byte and its consumed length, the fields it
    cuts out of that body are the name "bcs.co" and the version "1.0".
    Either way no result has the name "bcs.core", the version_str "1.0.0"
    and num_namespaces 1. *)
Lemma nms_parser_plain_body_counterexample :
  BcsCoreNamespace._nms nms_body_plain = Throw (RangeError "out of range index") /\
  BcsCoreNamespace._nms_fields nms_body_plain "bcs.core;1.0.0" 15
  = Ok (BcsCoreNamespace.mk_nms "bcs.core;1.0.0" "bcs.co" "1.0" 1) /\
  ~ (exists r,
       (BcsCoreNamespace._nms nms_body_plain = Ok r \/
        BcsCoreNamespace._nms_fields nms_body_plain "bcs.core;1.0.0" 15 = Ok r) /\
       BcsCoreNamespace.name r = "bcs.core" /\
       BcsCoreNamespace.version_str r = "1.0.0" /\
       BcsCoreNamespace.num_namespaces r = 1).
Proof.
  split; [vm_compute; reflexivity|]. split; [vm_compute; reflexivity|].
  intros (r & [Hr | Hr] & Hname & _); vm_compute in Hr.
  - discriminate Hr.
  - injection Hr as <-. discriminate Hname.
Qed.

(** Comparisons of indices that come out false. *)
Ltac index_tests_false :=
  symmetry; repeat (apply orb_false_intro);
  (apply Z.ltb_ge || apply Z.leb_gt); lia.

(** A range that lies inside the source holds exactly those bytes. *)
Lemma new_ByteRange_inside (src : Buffer.t) (s e : Z) :
  0 <= s -> s <= e -> e < Buffer.length src ->
  PacketByteContainer.new_ByteRange src (Some s) (Some e)
  = Ok (PacketByteContainer.mk_range (Buffer.sub src s (e + 1)) src (Some s) (Some e) None).
Proof.
  intros Hs Hse He. unfold PacketByteContainer.new_ByteRange, Buffer.copy.
  change (default 0 (Some s)) with s.
  assert (Hlen : Buffer.length (Buffer.alloc (e - s + 1)) = e - s + 1).
  { unfold Buffer.length, Buffer.alloc. rewrite repeat_length. lia. }
  rewrite Hlen.
  replace ((0 <? 0) || (s <? 0) || (e + 1 <? 0)) with false by index_tests_false.
  replace ((e - s + 1 <=? 0) || (e + 1 <=? s)) with false by index_tests_false.
  replace (Buffer.length src <? s) with false by index_tests_false.
  cbn [mbind result_bind].
  replace (Z.min (Z.min (e + 1 - s) (e - s + 1 - 0)) (Buffer.length src - s))
    with (e - s + 1) by lia.
  replace (s + (e - s + 1)) with (e + 1) by lia.
  cbn [Z.to_nat take app]. rewrite Z.add_0_l.
  rewrite drop_ge by (unfold Buffer.alloc; rewrite repeat_length; lia).
  rewrite app_nil_r. reflexivity.
Qed.

Lemma sub_one_byte (src : Buffer.t) (i b : Z) :
  Buffer.get src i = Some b -> Buffer.sub src i (i + 1) = [b].
Proof.
  unfold Buffer.get, Buffer.sub. destruct (i <? 0) eqn:Hi; [discriminate|].
  intros Hb. replace (Z.to_nat (i + 1 - i)) with 1%nat by lia.
  rewrite (drop_S _ _ _ Hb). reflexivity.
Qed.

(** C4, amended: given the composite string of the body up to its null
    byte ([raw_name]) and its consumed length [len] (the string's length
    plus one), the [_nms] parser takes the name from byte 0 to three bytes
    before the ';', the version from the byte after the ';' to byte
    [len - 4], and the namespace count from byte [len]. *)
Theorem nms_fields_offsets :
  forall (src : Buffer.t) (raw_name : string) (len count : Z),
    let semicolon := indexOf raw_name ";"%char in
    3 <= semicolon ->
    semicolon + 1 <= len - 4 ->
    Buffer.readUInt8 src len = Ok count ->
    BcsCoreNamespace._nms_fields src raw_name len
    = Ok (BcsCoreNamespace.mk_nms raw_name
            (data_types.ascii_string (Buffer.sub src 0 (semicolon - 2)))
            (data_types.ascii_string (Buffer.sub src (semicolon + 1) (len - 3)))
            count).
Proof.
  intros src raw_name len count semicolon Hname Hversion Hcount.
  unfold Buffer.readUInt8 in Hcount.
  destruct (Buffer.get src len) as [b|] eqn:Hb; [|discriminate].
  injection Hcount as <-.
  assert (Hlen : 0 <= len < Buffer.length src).
  { unfold Buffer.get in Hb. destruct (len <? 0) eqn:Hneg; [discriminate|].
    apply lookup_lt_Some in Hb. unfold Buffer.length. lia. }
  unfold BcsCoreNamespace._nms_fields, PacketByteContainer.bytes, PacketByteContainer.byte.
  fold semicolon.
  rewrite !new_ByteRange_inside by lia. cbn [mbind result_bind].
  unfold PacketByteContainer.toInt, PacketByteContainer.toRawString.
  cbn [PacketByteContainer.buff].
  replace (semicolon - 3 + 1) with (semicolon - 2) by lia.
  replace (len - 4 + 1) with (len - 3) by lia.
  rewrite (sub_one_byte _ _ _ Hb). cbn. reflexivity.
Qed.

(** The body "bcs.core.*;0.3;;" 00 05 gives name "bcs.core", version_str
    "0.3" and num_namespaces 5. *)
Lemma nms_fields_wire_body :
  3 <= indexOf "bcs.core.*;0.3;;" ";"%char /\
  Buffer.readUInt8 nms_body_wire 17 = Ok 5 /\
  BcsCoreNamespace._nms_fields nms_body_wire "bcs.core.*;0.3;;" 17
  = Ok (BcsCoreNamespace.mk_nms "bcs.core.*;0.3;;" "bcs.core" "0.3" 5).
Proof.
  split; [vm_compute; discriminate|]. split; [reflexivity|].
  apply (nms_fields_offsets nms_body_wire "bcs.core.*;0.3;;" 17 5);
    [vm_compute; discriminate | vm_compute; discriminate | reflexivity].
Defined.

(** *** Building a packet *)

(** [make_checksum] is the low byte of the sum of the bytes. *)
Lemma make_checksum_low_byte a rest :
  bowler_util.make_checksum (a :: rest) = Ok ((fold_left Z.add rest a) mod 256).
Proof.
  unfold bowler_util.make_checksum. f_equal.
  change 255 with (Z.ones 8). rewrite Z.land_ones by lia. reflexivity.
Qed.

(** The header assembler is made without an offset, so its ranges start at
    [NaN], have length [NaN], and take no integer. *)
Lemma header_range_is_NaN start :
  PacketAssembler.range_length
    (PacketAssembler.byte (PacketAssembler.new None) start).2 = NaN.
Proof. reflexivity. Qed.

(** With an offset given, a range of the body assembler raises the length
    to the absolute index after its end. *)
Lemma body_range_raises_length offset start end_ :
  0 <= offset + end_ + 1 ->
  PacketAssembler.length
    (PacketAssembler.bytes (PacketAssembler.new (Some offset)) start end_).1
  = offset + end_ + 1.
Proof.
  intros H. unfold PacketAssembler.bytes, PacketAssembler.new_ByteRange. cbn.
  destruct (0 <? offset + end_ + 1) eqn:Hc; cbn; [reflexivity|].
  apply Z.ltb_ge in Hc. lia.
Qed.

(** C2: the value [build_packet] computes for the size byte of
    [bcs.core._nms(0)], whose body is the single byte written by
    [bldr.byte(0).fromInt(num)], is [body_assembler.length + 4 = 20], not
    4 + 1: the length of the body assembler is the absolute index after its
    last byte (15 + 1).  And the call itself ends in an exception at the
    first header write, before any byte is produced. *)
Theorem build_packet_nms_size_value :
  exists d b body,
    new_BowlerDevice = Ok d /\
    find_body_builder d (JString "get") (JString "bcs.core") "_nms" = Ok b /\
    run_body_builder b [JNumber (Num 0)] = Ok body /\
    List.length (PacketAssembler.instructions body) = 1%nat /\
    size_value body = 20 /\
    build_packet d (JString "get") (JString "bcs.core") "_nms" [JNumber (Num 0)]
    = Throw (Error "Cannot write ints greater than 32 bits in size!").
Proof.
  do 3 eexists. split; [reflexivity|]. split; [reflexivity|].
  split; [reflexivity|]. repeat split.
Qed.

(** C3: [build_packet] never gets to its checksum.  [assemble] raises
    [ReferenceError] on every assembler (it reads [instructions], not
    [this.instructions]), and [build_packet] raises already at
    [builder.byte(0).fromInt(BOWLER_VERSION)] for every device and all
    arguments, so no packet carrying a checksum is produced. *)
Theorem build_packet_never_assembles :
  (forall a, PacketAssembler.assemble a = Throw (ReferenceError "instructions")) /\
  (forall d method namespace command args,
     build_packet d method namespace command args
     = Throw (Error "Cannot write ints greater than 32 bits in size!")).
Proof. split; reflexivity. Qed.

(** C1, as stated, fails on a new device, whose MAC address is
    'broadcast': sending [bcs.core._png] through its handle does not hand
    the transport the fifteen bytes 03 FF FF FF FF FF FF 10 00 04 0A
    '_png' (the call ends in an exception and nothing is written); the
    MAC serializes as six bytes 0x00, not 0xFF; and the low byte of the
    sum of 03 FF FF FF FF FF FF 10 00 04 is 0x11, not 0x0A. *)
Lemma ping_ff_mac_counterexample :
  exists d,
    new_BowlerDevice = Ok d /\
    _mac_address_raw d = Broadcast /\
    CommandHandler.command_to d "bcs.core" "_png" [] CommandHandler.initial
    = Throw (Error "Cannot write ints greater than 32 bits in size!") /\
    ~ (exists st ret,
         CommandHandler.command_to d "bcs.core" "_png" [] CommandHandler.initial
         = Ok (st, ret) /\
         CommandHandler.effects st = [CommandHandler.Written ping_with_ff_mac]) /\
    mac_address_bytes d = [0; 0; 0; 0; 0; 0] /\
    mac_address_bytes d <> [255; 255; 255; 255; 255; 255] /\
    bowler_util.make_checksum (take 10 ping_with_ff_mac) = Ok 0x11 /\
    bowler_util.make_checksum (take 10 ping_with_ff_mac) <> Ok 0x0A.
Proof.
  eexists. split; [reflexivity|]. split; [reflexivity|].
  split; [vm_compute; reflexivity|].
  split; [intros (st & ret & Hcall & _); vm_compute in Hcall; discriminate Hcall|].
  split; [reflexivity|]. split; [discriminate|].
  split; [vm_compute; reflexivity | discriminate].
Qed.

Lemma ff_mac_header_checksum :
  bowler_util.make_checksum (take 10 ping_with_ff_mac) = Ok 0x11.
Proof. vm_compute. reflexivity. Qed.

(** C1, amended: for a device whose MAC address is 'broadcast' and whose
    namespace table is the default one, the header fields of a
    [bcs.core._png] packet are: the MAC as six bytes 0x00 (the link-local
    address), the method code 0x10 of 'get', the namespace id 0, the size
    value 4 of the empty body; and the low byte of the sum of the header
    bytes 03 00 00 00 00 00 00 10 00 04 is 0x17. *)
Theorem broadcast_ping_header :
  forall d body,
    _mac_address_raw d = Broadcast ->
    supported_namespaces d = [(0, "bcs.core")] ->
    run_body_builder bcs_core_png_builder [] = Ok body ->
    mac_address_bytes d = [0; 0; 0; 0; 0; 0] /\
    BOWLER_METHODS_HR (method_or_default (JString "get")) = JNumber (Num 0x10) /\
    to_number (supported_namespaces_hr d (namespace_or_default (JString "bcs.core")))
    = Num 0 /\
    size_value body = 4 /\
    bowler_util.make_checksum
      ([BOWLER_VERSION] ++ mac_address_bytes d ++ [0x10; 0; size_value body]) = Ok 0x17.
Proof.
  intros d body Hmac Hns Hbody. injection Hbody as <-.
  unfold mac_address_bytes, supported_namespaces_hr. rewrite Hmac, Hns.
  repeat split; reflexivity.
Qed.

Lemma broadcast_ping_header_witness :
  _mac_address_raw blank_device = Broadcast /\
  mac_address_bytes blank_device = [0; 0; 0; 0; 0; 0] /\
  bowler_util.make_checksum [3; 0; 0; 0; 0; 0; 0; 16; 0; 4] = Ok 23.
Proof.
  split; [reflexivity|].
  destruct (broadcast_ping_header blank_device
              (PacketAssembler.new (Some (BOWLER_HEADER_SIZE + 4)))
              eq_refl eq_refl eq_refl) as (Hmac & _ & _ & _ & Hsum).
  split; [exact Hmac | exact Hsum].
Defined.




(** *** One-shot listeners and inbound events *)

Lemma emit_cons_hit event (l : EventEmitter.listener) (rest : EventEmitter.t) arg :
  EventEmitter.emit ((event, l) :: rest) event arg
  = match l arg with
    | Ok calls =>
        let '(rest', calls', err) := EventEmitter.emit rest event arg in
        (rest', calls ++ calls', err)
    | Throw err => (rest, [], Some err)
    end.
Proof. cbn [EventEmitter.emit]. rewrite String.eqb_refl. reflexivity. Qed.

Lemma emit_cons_miss e event (l : EventEmitter.listener) (rest : EventEmitter.t) arg :
  e <> event ->
  EventEmitter.emit ((e, l) :: rest) event arg
  = let '(rest', calls', err) := EventEmitter.emit rest event arg in
    ((e, l) :: rest', calls', err).
Proof.
  intros Hne. cbn [EventEmitter.emit].
  destruct (String.eqb e event) eqn:He; [apply String.eqb_eq in He; contradiction|].
  reflexivity.
Qed.

Lemma emit_other_event (ls : EventEmitter.t) event arg :
  Forall (fun el => el.1 <> event) ls ->
  EventEmitter.emit ls event arg = (ls, [], None).
Proof.
  induction 1 as [|[e l] rest Hne _ IH]; [reflexivity|].
  cbn in Hne. rewrite emit_cons_miss, IH by exact Hne. reflexivity.
Qed.

Lemma emit_app_callbacks event arg (cbs : list string) : forall (ls : EventEmitter.t),
  Forall (fun el => el.1 <> event) ls ->
  EventEmitter.emit
    (ls ++ map (fun cb => (event, fun fp => call_function (JFunction cb) [JNull; fp])) cbs)
    event arg
  = (ls, map (fun cb => (cb, [JNull; arg])) cbs, None).
Proof.
  intros ls Hls. induction Hls as [|[e l] rest Hne _ IH].
  - cbn [app]. induction cbs as [|cb cbs IHc]; [reflexivity|].
    cbn [map]. rewrite emit_cons_hit, IHc. reflexivity.
  - cbn in Hne. rewrite <- app_comm_cons, emit_cons_miss, IH by exact Hne.
    reflexivity.
Qed.

Lemma register_all_listeners evt_name cbs : forall st,
  CommandHandler.listeners (register_all evt_name cbs st)
  = CommandHandler.listeners st
    ++ map (fun cb => (evt_name, fun fp => call_function (JFunction cb) [JNull; fp])) cbs.
Proof.
  induction cbs as [|cb cbs IH]; intros st; cbn [register_all fold_left map].
  - rewrite app_nil_r. reflexivity.
  - unfold register_all in IH. rewrite IH. cbn. unfold EventEmitter.once.
    rewrite <- app_assoc. reflexivity.
Qed.

(** C5, as stated, fails: with two one-shot listeners registered for
    'post:bcs.core#_png', a single inbound event invokes both
    continuations, and the next inbound event invokes none. *)
Lemma two_listeners_one_event_counterexample :
  let st := register_all "post:bcs.core#_png" ["first"; "second"] CommandHandler.initial in
  let '(st1, calls1, _) := CommandHandler.receive "post:bcs.core#_png" (JObject "reply 1") st in
  let '(_, calls2, _) := CommandHandler.receive "post:bcs.core#_png" (JObject "reply 2") st1 in
  calls1 = [("first", [JNull; JObject "reply 1"]); ("second", [JNull; JObject "reply 1"])] /\
  calls2 = [] /\
  ~ (List.length calls1 <= 1)%nat.
Proof. cbn. repeat split. lia. Qed.

(** One inbound event after [cbs] have been registered for its key. *)
Lemma receive_registered evt_name cbs full_packet st :
  Forall (fun el => el.1 <> evt_name) (CommandHandler.listeners st) ->
  CommandHandler.receive evt_name full_packet (register_all evt_name cbs st)
  = (CommandHandler.mk_state (CommandHandler.listeners st)
       (CommandHandler.effects (register_all evt_name cbs st)),
     map (fun cb => (cb, [JNull; full_packet])) cbs, None).
Proof.
  intros Hst. unfold CommandHandler.receive.
  rewrite register_all_listeners, emit_app_callbacks by exact Hst. reflexivity.
Qed.

(** C5, amended: when one-shot listeners are registered for the same
    response event key, an inbound matching event invokes every one of
    their continuations, in the order of registration, each with the
    decoded result, and removes them all; listeners for other keys stay,
    and a further matching event invokes nothing. *)
Theorem inbound_event_fires_all_listeners :
  forall (evt_name : string) (cbs : list string) (full_packet next_packet : jsval)
         (st : CommandHandler.state),
    Forall (fun el => el.1 <> evt_name) (CommandHandler.listeners st) ->
    let st' := register_all evt_name cbs st in
    CommandHandler.receive evt_name full_packet st'
    = (CommandHandler.mk_state (CommandHandler.listeners st) (CommandHandler.effects st'),
       map (fun cb => (cb, [JNull; full_packet])) cbs, None) /\
    CommandHandler.receive evt_name next_packet
      (CommandHandler.mk_state (CommandHandler.listeners st) (CommandHandler.effects st'))
    = (CommandHandler.mk_state (CommandHandler.listeners st) (CommandHandler.effects st'),
       [], None).
Proof.
  intros evt_name cbs full_packet next_packet st Hst st'. subst st'.
  split; [apply receive_registered; exact Hst|].
  unfold CommandHandler.receive. cbn [CommandHandler.listeners].
  rewrite emit_other_event by exact Hst. reflexivity.
Qed.

Lemma inbound_event_fires_all_listeners_witness :
  CommandHandler.receive "post:bcs.core#_png" (JObject "reply")
    (register_all "post:bcs.core#_png" ["first"; "second"; "third"] CommandHandler.initial)
  = (CommandHandler.mk_state []
       [CommandHandler.Registered "post:bcs.core#_png";
        CommandHandler.Registered "post:bcs.core#_png";
        CommandHandler.Registered "post:bcs.core#_png"],
     [("first", [JNull; JObject "reply"]);
      ("second", [JNull; JObject "reply"]);
      ("third", [JNull; JObject "reply"])],
     None).
Proof.
  exact (proj1 (inbound_event_fires_all_listeners "post:bcs.core#_png"
                  ["first"; "second"; "third"] (JObject "reply") (JObject "reply")
                  CommandHandler.initial ltac:(constructor))).
Defined.

(** *** Importing a namespace contribution *)

Section ImportFacts.
Context {F : Type}.
Implicit Types (n dest src : node F) (ps qs dps sps : props F).

Lemma get_set_same ps k v : get (set ps k v) k = Some v.
Proof.
  induction ps as [|key value rest IH]; cbn.
  - rewrite String.eqb_refl. reflexivity.
  - destruct (String.eqb key k) eqn:He; cbn; rewrite ?He; [reflexivity | exact IH].
Qed.

Lemma get_set_other ps k k' v : k <> k' -> get (set ps k v) k' = get ps k'.
Proof.
  intros Hne. induction ps as [|key value rest IH]; cbn.
  - destruct (String.eqb k k') eqn:He; [apply String.eqb_eq in He; contradiction|].
    reflexivity.
  - destruct (String.eqb key k) eqn:He; cbn.
    + apply String.eqb_eq in He. subst key.
      destruct (String.eqb k k') eqn:He'; [apply String.eqb_eq in He'; contradiction|].
      reflexivity.
    + destruct (String.eqb key k'); [reflexivity | exact IH].
Qed.

Lemma get_None_not_key ps k : k ∉ keys ps -> get ps k = None.
Proof.
  induction ps as [|key value rest IH]; cbn; [reflexivity|].
  rewrite not_elem_of_cons. intros [Hne Hrest].
  destruct (String.eqb key k) eqn:He; [apply String.eqb_eq in He; congruence | auto].
Qed.

Lemma grows_refl_mutual :
  (forall n, grows n n) /\
  (forall ps k v, get ps k = Some v -> grows v v).
Proof.
  apply node_props_mutind.
  - intros p. constructor.
  - intros fn ps IH. constructor. intros k v Hk. exists v. split; [exact Hk | eauto].
  - intros k v Hk. discriminate Hk.
  - intros key value Hvalue rest IH k v. cbn.
    destruct (String.eqb key k); [intros [= <-]; exact Hvalue | apply IH].
Qed.

Lemma grows_refl n : grows n n.
Proof. apply grows_refl_mutual. Qed.

Lemma grows_trans_mutual :
  (forall a : node F, forall b c, grows a b -> grows b c -> grows a c) /\
  (forall ps k v, get ps k = Some v ->
     forall b c, grows v b -> grows b c -> grows v c).
Proof.
  apply node_props_mutind.
  - intros p b c Hab Hbc. inversion Hab; subst. exact Hbc.
  - intros fn ps IH b c Hab Hbc.
    inversion Hab as [|fn' ps' qs Hps]; subst.
    inversion Hbc as [|fn' qs' rs Hqs]; subst.
    constructor. intros k v Hk.
    destruct (Hps k v Hk) as (v' & Hk' & Hvv').
    destruct (Hqs k v' Hk') as (v'' & Hk'' & Hvv'').
    exists v''. split; [exact Hk'' | eapply IH; eauto].
  - intros k v Hk. discriminate Hk.
  - intros key value Hvalue rest IH k v. cbn.
    destruct (String.eqb key k); [intros [= <-]; exact Hvalue | apply IH].
Qed.

Lemma grows_trans (a b c : node F) : grows a b -> grows b c -> grows a c.
Proof. apply grows_trans_mutual. Qed.

(** [extend] only adds: the destination grows, whatever the source. *)
Lemma extend_grows_mutual :
  (forall src, forall dest, grows dest (bowler_util.extend dest src)) /\
  (forall sps, forall dps k v, get dps k = Some v ->
     exists v', get (bowler_util.extend_props dps sps) k = Some v' /\ grows v v').
Proof.
  apply node_props_mutind.
  - intros p dest. cbn. apply grows_refl.
  - intros fn sps IH dest. cbn. destruct dest as [p|dfn dps]; [apply grows_refl|].
    constructor. apply IH.
  - intros dps k v Hk. cbn. exists v. split; [exact Hk | apply grows_refl].
  - intros prop sv IHsv rest IHrest dps k v Hk. cbn [bowler_util.extend_props].
    set (dps1 := match get dps prop with
                 | Some dv => if bowler_util.isObject sv
                              then set dps prop (bowler_util.extend dv sv) else dps
                 | None => set dps prop sv
                 end).
    assert (H1 : exists v1, get dps1 k = Some v1 /\ grows v v1).
    { subst dps1. destruct (String.eqb prop k) eqn:He.
      - apply String.eqb_eq in He. subst k. rewrite Hk.
        destruct (bowler_util.isObject sv).
        + rewrite get_set_same. eexists. split; [reflexivity | apply IHsv].
        + exists v. split; [exact Hk | apply grows_refl].
      - apply String.eqb_neq in He.
        exists v. split; [|apply grows_refl].
        destruct (get dps prop) as [dv|];
          [destruct (bowler_util.isObject sv)|]; rewrite ?get_set_other by exact He;
          exact Hk. }
    destruct H1 as (v1 & Hk1 & Hvv1).
    destruct (IHrest dps1 k v1 Hk1) as (v' & Hk' & Hv1v').
    exists v'. split; [exact Hk' | eapply grows_trans; eauto].
Qed.

Lemma extend_grows dest src : grows dest (bowler_util.extend dest src).
Proof. apply extend_grows_mutual. Qed.

(** What [extend] leaves at each name, for a source with distinct names. *)
Lemma get_extend_props sps : forall dps k,
  NoDup (keys sps) ->
  get (bowler_util.extend_props dps sps) k = merged_entry (get dps k) (get sps k).
Proof.
  induction sps as [|prop sv rest IH]; intros dps k Hnd.
  - cbn. destruct (get dps k); reflexivity.
  - cbn [keys] in Hnd. apply NoDup_cons in Hnd as [Hfresh Hnd].
    cbn [bowler_util.extend_props get]. rewrite IH by exact Hnd.
    destruct (String.eqb prop k) eqn:He.
    + apply String.eqb_eq in He. subst k.
      rewrite (get_None_not_key rest prop Hfresh).
      destruct (get dps prop) as [dv|] eqn:Hd; cbn.
      * destruct (bowler_util.isObject sv); rewrite ?get_set_same, ?Hd; reflexivity.
      * rewrite get_set_same. reflexivity.
    + apply String.eqb_neq in He.
      assert (Hsame : get match get dps prop with
                          | Some dv => if bowler_util.isObject sv
                                       then set dps prop (bowler_util.extend dv sv)
                                       else dps
                          | None => set dps prop sv
                          end k = get dps k).
      { destruct (get dps prop) as [dv|];
          [destruct (bowler_util.isObject sv)|]; rewrite ?get_set_other by exact He;
          reflexivity. }
      rewrite Hsame. reflexivity.
Qed.

Lemma all_truthy_truthy n : all_truthy n = true -> truthy_node n = true.
Proof. destruct n as [p|fn ps]; cbn; auto. Qed.

Lemma all_truthy_get ps k v :
  all_truthy_props ps = true -> get ps k = Some v -> all_truthy v = true.
Proof.
  induction ps as [|key value rest IH]; cbn; [discriminate|].
  intros [Hv Hrest]%andb_true_iff.
  destruct (String.eqb key k); [intros [= <-]; exact Hv | auto].
Qed.


(** The import only adds to a tree without falsy entries. *)
Lemma import_at_grows path : forall (obj c obj' : node F),
  all_truthy obj = true ->
  BowlerNamespace.import_at obj path c = Ok obj' ->
  grows obj obj'.
Proof.
  induction path as [|seg rest IH]; intros obj c obj' Htruthy; cbn.
  - intros [= <-]. apply extend_grows.
  - destruct obj as [p|fn ps].
    + destruct rest; [destruct (BowlerNamespace.has_properties c)|];
        try discriminate. intros [= <-]. apply grows_refl.
    + cbn in Htruthy.
      set (child := match get ps seg with
                    | Some c0 => if truthy_node c0 then c0 else empty_object
                    | None => empty_object
                    end).
      destruct (BowlerNamespace.import_at child rest c) as [child'|err] eqn:Himp;
        [|discriminate].
      cbn. intros [= <-]. constructor. intros k v Hk.
      destruct (String.eqb seg k) eqn:He.
      * apply String.eqb_eq in He. subst k. rewrite get_set_same.
        exists child'. split; [reflexivity|].
        pose proof (all_truthy_get _ _ _ Htruthy Hk) as Hv.
        apply (IH _ c); [exact Hv|].
        subst child. rewrite Hk, (all_truthy_truthy _ Hv) in Himp. exact Himp.
      * apply String.eqb_neq in He. rewrite get_set_other by exact He.
        exists v. split; [exact Hk | apply grows_refl].
Qed.











End ImportFacts.

Lemma sample_import :
  BowlerNamespace.import_at sample_registry ["bcs"; "core"] sample_contribution
  = Ok (Obj None (PCons "bcs" (Obj None (PCons "core"
      (Obj None (PCons "_png" (Obj (Some "registered _png") PNil)
                (PCons "_nms" (Obj (Some "contributed _nms") PNil) PNil))) PNil)) PNil)).
Proof. reflexivity. Qed.

(** Two functions under one name: the registered one stays, unchanged. *)
Lemma extend_function_collision {F} (f g : F) (ps : props F) :
  bowler_util.extend (Obj (Some f) ps) (Obj (Some g) PNil) = Obj (Some f) ps.
Proof. reflexivity. Qed.

(** A primitive under a name stays, whatever is contributed under it. *)
Lemma extend_primitive_kept {F} (p : prim) (src : node F) :
  bowler_util.extend (Prim p) src = Prim p.
Proof. destruct src; reflexivity. Qed.

(** Arrays are objects too: method lists under one name are merged index
    by index. *)
Lemma extend_method_arrays :
  bowler_util.extend (method_array ["get"]) (method_array ["post"; "critical"])
  = method_array ["get"; "critical"].
Proof. reflexivity. Qed.

(** *** The two shapes of an RPC handle *)

(** C6, as stated, fails.  On a new device the handle of [bcs.core._png]
    called with one argument, the continuation, registers no listener and
    returns nothing: the call ends in the exception of [build_packet].  And
    with a [build_packet] that returns a datagram, the handle writes the
    datagram first and registers the listener afterwards, and the
    continuation is not invoked when the event arrives: the handle takes
    its continuation from [arguments[builder.length]], behind the last
    argument, and the listener calls [undefined]. *)
Lemma continuation_counterexample :
  exists d st,
    new_BowlerDevice = Ok d /\
    CommandHandler.command_to d "bcs.core" "_png" [JFunction "cb"] CommandHandler.initial
    = Throw (Error "Cannot write ints greater than 32 bits in size!") /\
    CommandHandler.make_rpc_caller (build_packet_returning ping_packet)
      bcs_core_png_builder "_png" "get" "post" "bcs.core"
      [JFunction "cb"] CommandHandler.initial = Ok (st, None) /\
    CommandHandler.effects st
    = [CommandHandler.Written ping_packet; CommandHandler.Registered "post:bcs.core#_png"] /\
    CommandHandler.effects st
    <> [CommandHandler.Registered "post:bcs.core#_png"; CommandHandler.Written ping_packet] /\
    (CommandHandler.receive "post:bcs.core#_png" (JObject "reply") st).1.2 = [] /\
    (CommandHandler.receive "post:bcs.core#_png" (JObject "reply") st).1.2
    <> [("cb", [JObject "reply"])].
Proof.
  do 2 eexists. split; [reflexivity|]. split; [vm_compute; reflexivity|].
  split; [reflexivity|]. split; [reflexivity|]. split; [discriminate|].
  split; [reflexivity | discriminate].
Qed.

Lemma continuation_behind_last_argument :
  exists st,
    CommandHandler.make_rpc_caller (build_packet_returning ping_packet)
      bcs_core_png_builder "_png" "get" "post" "bcs.core"
      [JFunction "cb"] CommandHandler.initial = Ok (st, None) /\
    CommandHandler.effects st
    = [CommandHandler.Written ping_packet; CommandHandler.Registered "post:bcs.core#_png"] /\
    CommandHandler.receive "post:bcs.core#_png" (JObject "reply") st
    = (CommandHandler.mk_state [] (CommandHandler.effects st), [],
       Some (TypeError "undefined is not a function")).
Proof. eexists. repeat split. Qed.

(** C6, amended: for a [build_packet] that returns a datagram, a handle
    called with fewer arguments than its builder declares parameters (so
    with exactly arity arguments, the arity not counting the assembler)
    writes the datagram and returns a deferred; the deferred, given a
    continuation, registers a one-shot listener on
    "<recv_method>:<namespace>#<rpc>", and that continuation is invoked
    with [null] and the decoded result when the event arrives.  Called
    with at least as many arguments as the builder declares, the handle
    registers one listener on that key after it has written the datagram. *)
Theorem rpc_caller_two_shapes :
  forall build_packet b rpc_name send_method recv_method namespace
         arguments st datagram,
    let evt_name := recv_method +:+ ":" +:+ namespace +:+ "#" +:+ rpc_name in
    (Z.of_nat (List.length arguments) < builder_length b ->
     build_packet (JString send_method) (JString namespace) rpc_name arguments
     = Ok datagram ->
     CommandHandler.make_rpc_caller build_packet b rpc_name send_method recv_method
       namespace arguments st
     = Ok (CommandHandler.mk_state (CommandHandler.listeners st)
             (CommandHandler.effects st ++ [CommandHandler.Written datagram]),
           Some (CommandHandler.mk_deferred evt_name))) /\
    (forall cb full_packet st0,
       Forall (fun el => el.1 <> evt_name) (CommandHandler.listeners st0) ->
       let st1 := CommandHandler.call_deferred (CommandHandler.mk_deferred evt_name)
                    (JFunction cb) st0 in
       CommandHandler.effects st1
       = CommandHandler.effects st0 ++ [CommandHandler.Registered evt_name] /\
       CommandHandler.receive evt_name full_packet st1
       = (CommandHandler.mk_state (CommandHandler.listeners st0) (CommandHandler.effects st1),
          [(cb, [JNull; full_packet])], None)) /\
    (builder_length b <= Z.of_nat (List.length arguments) ->
     build_packet (JString send_method) (JString namespace) rpc_name
       (take (Z.to_nat (builder_length b)) arguments) = Ok datagram ->
     exists st',
       CommandHandler.make_rpc_caller build_packet b rpc_name send_method recv_method
         namespace arguments st = Ok (st', None) /\
       CommandHandler.effects st'
       = CommandHandler.effects st
         ++ [CommandHandler.Written datagram; CommandHandler.Registered evt_name] /\
       EventEmitter.listener_count (CommandHandler.listeners st') evt_name
       = S (EventEmitter.listener_count (CommandHandler.listeners st) evt_name)).
Proof.
  intros build_packet b rpc_name send_method recv_method namespace arguments st
         datagram evt_name.
  split; [|split].
  - intros Hfew Hbuild. unfold CommandHandler.make_rpc_caller.
    destruct (builder_length b <=? Z.of_nat (List.length arguments)) eqn:Hc;
      [apply Z.leb_le in Hc; lia|].
    rewrite Hbuild. reflexivity.
  - intros cb full_packet st0 Hst0 st1. split; [reflexivity|].
    exact (receive_registered evt_name [cb] full_packet st0 Hst0).
  - intros Hmany Hbuild. unfold CommandHandler.make_rpc_caller.
    destruct (builder_length b <=? Z.of_nat (List.length arguments)) eqn:Hc;
      [|apply Z.leb_gt in Hc; lia].
    rewrite Hbuild. cbn [mbind result_bind]. eexists. split; [reflexivity|].
    cbn [CommandHandler.effects CommandHandler.listeners].
    split; [rewrite <- app_assoc; reflexivity|].
    unfold EventEmitter.listener_count, EventEmitter.once.
    rewrite List.filter_app, length_app. cbn [List.filter fst].
    fold evt_name. rewrite String.eqb_refl. cbn [List.length]. lia.
Qed.

Lemma rpc_caller_two_shapes_witness :
  CommandHandler.make_rpc_caller (build_packet_returning ping_packet) bcs_core_png_builder
    "_png" "get" "post" "bcs.core" [] CommandHandler.initial
  = Ok (CommandHandler.mk_state [] [CommandHandler.Written ping_packet],
        Some (CommandHandler.mk_deferred "post:bcs.core#_png")) /\
  CommandHandler.receive "post:bcs.core#_png" (JObject "reply")
    (CommandHandler.call_deferred (CommandHandler.mk_deferred "post:bcs.core#_png")
       (JFunction "cb") CommandHandler.initial)
  = (CommandHandler.mk_state [] [CommandHandler.Registered "post:bcs.core#_png"],
     [("cb", [JNull; JObject "reply"])], None) /\
  exists st',
    CommandHandler.make_rpc_caller (build_packet_returning ping_packet) bcs_core_png_builder
      "_png" "get" "post" "bcs.core" [JFunction "cb"] CommandHandler.initial
    = Ok (st', None) /\
    CommandHandler.effects st'
    = [CommandHandler.Written ping_packet; CommandHandler.Registered "post:bcs.core#_png"].
Proof.
  split; [|split].
  - apply (proj1 (rpc_caller_two_shapes (build_packet_returning ping_packet)
                    bcs_core_png_builder "_png" "get" "post" "bcs.core" []
                    CommandHandler.initial ping_packet));
      [cbn; lia | reflexivity].
  - apply (proj1 (proj2 (rpc_caller_two_shapes (build_packet_returning ping_packet)
                    bcs_core_png_builder "_png" "get" "post" "bcs.core" []
                    CommandHandler.initial ping_packet)) "cb" (JObject "reply")
                 CommandHandler.initial).
    constructor.
  - destruct (proj2 (proj2 (rpc_caller_two_shapes (build_packet_returning ping_packet)
                    bcs_core_png_builder "_png" "get" "post" "bcs.core" [JFunction "cb"]
                    CommandHandler.initial ping_packet)))
      as (st' & Hcall & Heffects & _); [cbn; lia | reflexivity |].
    exists st'. split; [exact Hcall | exact Heffects].
Defined.

(** * Further properties of the sources *)

(** *** Big-endian bytes and buffers *)

Lemma be_bytes_length n v : List.length (Buffer.be_bytes n v) = n.
Proof. induction n as [|n IH]; cbn [Buffer.be_bytes List.length]; [reflexivity | now rewrite IH]. Qed.

Lemma be_bytes_range n v : Forall (fun b => 0 <= b < 256) (Buffer.be_bytes n v).
Proof.
  induction n as [|n IH]; cbn [Buffer.be_bytes]; constructor; [|exact IH].
  apply Z.mod_pos_bound. lia.
Qed.

Lemma fold_be_bytes n v : forall acc,
  fold_left (fun acc x => acc * 256 + x) (Buffer.be_bytes n v) acc
  = acc * 256 ^ Z.of_nat n + v mod 256 ^ Z.of_nat n.
Proof.
  induction n as [|n IH]; intros acc.
  - cbn. rewrite Z.mod_1_r. lia.
  - cbn [Buffer.be_bytes fold_left]. rewrite IH.
    rewrite Nat2Z.inj_succ, Z.pow_succ_r by lia.
    rewrite Z.shiftr_div_pow2 by lia.
    replace (2 ^ (8 * Z.of_nat n)) with (256 ^ Z.of_nat n)
      by (rewrite Z.pow_mul_r by lia; reflexivity).
    assert (Hpos : 0 < 256 ^ Z.of_nat n) by (apply Z.pow_pos_nonneg; lia).
    rewrite (Z.mul_comm 256 (256 ^ Z.of_nat n)).
    rewrite (Z.rem_mul_r v (256 ^ Z.of_nat n) 256) by lia.
    lia.
Qed.

Lemma be_value_be_bytes n v :
  Buffer.be_value (Buffer.be_bytes n v) = v mod 256 ^ Z.of_nat n.
Proof. unfold Buffer.be_value. rewrite fold_be_bytes. lia. Qed.

Lemma to_signed_mod bits v :
  0 < bits -> - 2 ^ (bits - 1) <= v < 2 ^ (bits - 1) ->
  Buffer.to_signed bits (v mod 2 ^ bits) = v.
Proof.
  intros Hbits Hv. unfold Buffer.to_signed.
  assert (Hpow : 2 ^ bits = 2 * 2 ^ (bits - 1)).
  { replace bits with (Z.succ (bits - 1)) at 1 by lia. apply Z.pow_succ_r. lia. }
  destruct (Z.neg_nonneg_cases v) as [Hneg | Hpos].
  - replace (v mod 2 ^ bits) with (v + 2 ^ bits)
      by (apply Z.mod_unique with (-1); lia).
    destruct (v + 2 ^ bits <? 2 ^ (bits - 1)) eqn:Hc;
      [apply Z.ltb_lt in Hc | apply Z.ltb_ge in Hc]; lia.
  - rewrite Z.mod_small by lia.
    destruct (v <? 2 ^ (bits - 1)) eqn:Hc;
      [apply Z.ltb_lt in Hc | apply Z.ltb_ge in Hc]; lia.
Qed.

Lemma write_bytes_length (b : Buffer.t) i bs :
  0 <= i -> i + Z.of_nat (List.length bs) <= Buffer.length b ->
  Buffer.length (Buffer.write_bytes b i bs) = Buffer.length b.
Proof.
  unfold Buffer.length, Buffer.write_bytes. intros Hi Hfit.
  rewrite !length_app, length_take, length_drop. lia.
Qed.

Lemma sub_write_bytes (b : Buffer.t) i bs :
  0 <= i -> i + Z.of_nat (List.length bs) <= Buffer.length b ->
  Buffer.sub (Buffer.write_bytes b i bs) i (i + Z.of_nat (List.length bs)) = bs.
Proof.
  unfold Buffer.length, Buffer.write_bytes, Buffer.sub. intros Hi Hfit.
  rewrite drop_app_length' by (rewrite length_take; lia).
  replace (Z.to_nat (i + Z.of_nat (List.length bs) - i)) with (List.length bs) by lia.
  rewrite take_app_length. reflexivity.
Qed.

Lemma get_write_bytes_outside (b : Buffer.t) i bs j :
  0 <= i -> i + Z.of_nat (List.length bs) <= Buffer.length b ->
  j < i \/ i + Z.of_nat (List.length bs) <= j ->
  Buffer.get (Buffer.write_bytes b i bs) j = Buffer.get b j.
Proof.
  unfold Buffer.length, Buffer.write_bytes, Buffer.get. intros Hi Hfit Hout.
  destruct (j <? 0) eqn:Hj; [reflexivity|]. apply Z.ltb_ge in Hj.
  destruct Hout as [Hlow | Hhigh].
  - rewrite lookup_app_l by (rewrite length_take; lia).
    apply lookup_take_lt. lia.
  - rewrite lookup_app_r by (rewrite length_take; lia).
    rewrite lookup_app_r by (rewrite length_take; lia).
    rewrite length_take, lookup_drop. f_equal. lia.
Qed.

Lemma get_set_same_index (b : Buffer.t) i v :
  0 <= i < Buffer.length b -> Buffer.get (Buffer.set b i v) i = Some (v mod 256).
Proof.
  unfold Buffer.get, Buffer.set, Buffer.length. intros Hi.
  destruct (i <? 0) eqn:Hneg; [apply Z.ltb_lt in Hneg; lia|].
  apply list_lookup_insert_eq. lia.
Qed.

Lemma get_set_other_index (b : Buffer.t) i j v :
  i <> j -> Buffer.get (Buffer.set b i v) j = Buffer.get b j.
Proof.
  unfold Buffer.get, Buffer.set. intros Hne.
  destruct (j <? 0) eqn:Hj; [reflexivity|]. apply Z.ltb_ge in Hj.
  destruct (i <? 0) eqn:Hi; [reflexivity|]. apply Z.ltb_ge in Hi.
  apply list_lookup_insert_ne. lia.
Qed.

Lemma set_length (b : Buffer.t) i v : Buffer.length (Buffer.set b i v) = Buffer.length b.
Proof.
  unfold Buffer.set, Buffer.length. destruct (i <? 0); [reflexivity|].
  now rewrite length_insert.
Qed.

(** *** The typed value codec: round trips *)

(** X1: an integer in the range of its type, serialized where it fits, is
    read back unchanged by the deserializer of the same type, for UInt8,
    Int16 and Int32; the serializer reports the width of the type. *)
Theorem fixed_width_round_trip :
  forall (v ind : Z) (buff : Buffer.t),
    0 <= ind ->
    (0 <= v <= 255 -> ind + 1 <= Buffer.length buff ->
     exists buff',
       data_types.serialize data_types.UInt8 (JNumber (Num v)) buff ind = Ok (buff', 1) /\
       deserialize_UInt8 buff' ind = Ok v) /\
    (-32768 <= v <= 32767 -> ind + 2 <= Buffer.length buff ->
     exists buff',
       data_types.serialize data_types.Int16 (JNumber (Num v)) buff ind = Ok (buff', 2) /\
       deserialize_Int16 buff' ind = Ok v) /\
    (-2147483648 <= v <= 2147483647 -> ind + 4 <= Buffer.length buff ->
     exists buff',
       data_types.serialize data_types.Int32 (JNumber (Num v)) buff ind = Ok (buff', 4) /\
       deserialize_Int32 buff' ind = Ok v).
Proof.
  intros v ind buff Hind. split; [|split]; intros Hv Hfit;
    cbn [data_types.serialize write_int to_number].
  - unfold Buffer.writeUInt8.
    replace ((v <? 0) || (255 <? v)) with false
      by (symmetry; apply orb_false_intro; apply Z.ltb_ge; lia).
    replace ((ind <? 0) || (Buffer.length buff <? ind + 1)) with false
      by (symmetry; apply orb_false_intro; apply Z.ltb_ge; lia).
    eexists. split; [reflexivity|].
    unfold deserialize_UInt8, Buffer.readUInt8.
    rewrite get_set_same_index by lia.
    rewrite Z.mod_mod by lia. rewrite Z.mod_small by lia. reflexivity.
  - unfold Buffer.writeInt16BE.
    replace ((v <? -32768) || (32767 <? v)) with false
      by (symmetry; apply orb_false_intro; apply Z.ltb_ge; lia).
    replace ((ind <? 0) || (Buffer.length buff <? ind + 2)) with false
      by (symmetry; apply orb_false_intro; apply Z.ltb_ge; lia).
    eexists. split; [reflexivity|].
    unfold deserialize_Int16, Buffer.readInt16BE.
    rewrite write_bytes_length by (rewrite ?be_bytes_length; lia).
    replace ((ind <? 0) || (Buffer.length buff <? ind + 2)) with false
      by (symmetry; apply orb_false_intro; apply Z.ltb_ge; lia).
    pose proof (sub_write_bytes buff ind (Buffer.be_bytes 2 v)) as Hsub.
    rewrite be_bytes_length in Hsub. change (Z.of_nat 2) with 2 in Hsub.
    rewrite Hsub by lia.
    rewrite be_value_be_bytes. f_equal.
    apply (to_signed_mod 16); [lia|]. cbn. lia.
  - unfold Buffer.writeInt32BE.
    replace ((v <? -2147483648) || (2147483647 <? v)) with false
      by (symmetry; apply orb_false_intro; apply Z.ltb_ge; lia).
    replace ((ind <? 0) || (Buffer.length buff <? ind + 4)) with false
      by (symmetry; apply orb_false_intro; apply Z.ltb_ge; lia).
    eexists. split; [reflexivity|].
    unfold deserialize_Int32, Buffer.readInt32BE.
    rewrite write_bytes_length by (rewrite ?be_bytes_length; lia).
    replace ((ind <? 0) || (Buffer.length buff <? ind + 4)) with false
      by (symmetry; apply orb_false_intro; apply Z.ltb_ge; lia).
    pose proof (sub_write_bytes buff ind (Buffer.be_bytes 4 v)) as Hsub.
    rewrite be_bytes_length in Hsub. change (Z.of_nat 4) with 4 in Hsub.
    rewrite Hsub by lia.
    rewrite be_value_be_bytes. f_equal.
    apply (to_signed_mod 32); [lia|]. cbn. lia.
Qed.

Lemma fixed_width_round_trip_witness :
  exists buff',
    data_types.serialize data_types.Int32 (JNumber (Num (-2))) (Buffer.alloc 6) 1
    = Ok (buff', 4) /\
    deserialize_Int32 buff' 1 = Ok (-2).
Proof.
  apply (proj2 (proj2 (fixed_width_round_trip (-2) 1 (Buffer.alloc 6) ltac:(lia))));
    [lia | vm_compute; discriminate].
Defined.

(** *** The typed value codec: what a serializer leaves alone *)

Lemma copy_frame source target ts ss se target' n :
  Buffer.copy source target ts ss se = Ok (target', n) ->
  Buffer.length target' = Buffer.length target /\
  0 <= n <= Z.max 0 (se - ss) /\
  forall j, j < ts \/ ts + n <= j -> Buffer.get target' j = Buffer.get target j.
Proof.
  unfold Buffer.copy.
  destruct ((ts <? 0) || (ss <? 0) || (se <? 0)) eqn:Hneg; [discriminate|].
  apply orb_false_iff in Hneg as [Hneg Hse].
  apply orb_false_iff in Hneg as [Hts Hss].
  apply Z.ltb_ge in Hts, Hss, Hse.
  destruct ((Buffer.length target <=? ts) || (se <=? ss)) eqn:Hnone.
  { intros [= <- <-]. split; [reflexivity|]. split; [lia | reflexivity]. }
  apply orb_false_iff in Hnone as [Hlen Hrange].
  apply Z.leb_gt in Hlen, Hrange.
  destruct (Buffer.length source <? ss) eqn:Hsrc; [discriminate|].
  apply Z.ltb_ge in Hsrc.
  set (to_copy := Z.min (Z.min (se - ss) (Buffer.length target - ts))
                        (Buffer.length source - ss)).
  intros [= <- <-].
  assert (Hsub : List.length (Buffer.sub source ss (ss + to_copy)) = Z.to_nat to_copy).
  { unfold Buffer.sub, Buffer.length in *. rewrite length_take, length_drop. lia. }
  pose proof (write_bytes_length target ts (Buffer.sub source ss (ss + to_copy))) as Hl.
  pose proof (get_write_bytes_outside target ts (Buffer.sub source ss (ss + to_copy))) as Hg.
  unfold Buffer.write_bytes in Hl, Hg. rewrite Hsub in Hl, Hg.
  replace (Z.to_nat ts + Z.to_nat to_copy)%nat with (Z.to_nat (ts + to_copy)) in Hl, Hg by lia.
  split; [apply Hl; lia|]. split; [lia|].
  intros j Hj. apply Hg; lia.
Qed.

Lemma write_bytes_nil (b : Buffer.t) i : Buffer.write_bytes b i [] = b.
Proof.
  unfold Buffer.write_bytes. cbn [app List.length]. rewrite Nat.add_0_r.
  apply take_drop.
Qed.

Lemma buffer_write_frame b s offset len b' n :
  data_types.buffer_write b s offset len = Ok (b', n) ->
  Buffer.length b' = Buffer.length b /\
  0 <= n /\
  forall j, j < offset \/ offset + n <= j -> Buffer.get b' j = Buffer.get b j.
Proof.
  unfold data_types.buffer_write.
  set (len' := Z.min len (Buffer.length b - offset)).
  destruct (negb (String.eqb s "") && ((len' <? 0) || (offset <? 0))) eqn:Hthrow;
    [discriminate|].
  intros [= <- <-].
  destruct (String.eqb s "") eqn:Hs.
  - apply String.eqb_eq in Hs. subst s. cbn [data_types.ascii_bytes
      String.list_ascii_of_string map]. rewrite take_nil, write_bytes_nil.
    split; [reflexivity|]. split; [cbn; lia | reflexivity].
  - cbn [negb andb] in Hthrow. apply orb_false_iff in Hthrow as [Hl Ho].
    apply Z.ltb_ge in Hl, Ho.
    set (bytes := take (Z.to_nat len') (data_types.ascii_bytes s)).
    assert (Hbytes : Z.of_nat (List.length bytes) <= len')
      by (subst bytes; rewrite length_take; lia).
    split; [apply write_bytes_length; lia|]. split; [lia|].
    intros j Hj. apply get_write_bytes_outside; lia.
Qed.

Lemma write_int_frame write width b v i b' :
  (forall b z i b', write b z i = Ok b' ->
     Buffer.length b' = Buffer.length b /\
     forall j, j < i \/ i + width <= j -> Buffer.get b' j = Buffer.get b j) ->
  write_int write b v i = Ok b' ->
  Buffer.length b' = Buffer.length b /\
  forall j, j < i \/ i + width <= j -> Buffer.get b' j = Buffer.get b j.
Proof. intros Hw. unfold write_int. destruct (to_number v); apply Hw. Qed.

Lemma writeUInt8_frame b z i b' :
  Buffer.writeUInt8 b z i = Ok b' ->
  Buffer.length b' = Buffer.length b /\
  forall j, j < i \/ i + 1 <= j -> Buffer.get b' j = Buffer.get b j.
Proof.
  unfold Buffer.writeUInt8.
  destruct ((z <? 0) || (255 <? z)); [discriminate|].
  destruct ((i <? 0) || (Buffer.length b <? i + 1)); [discriminate|].
  intros [= <-]. split; [apply set_length|].
  intros j Hj. apply get_set_other_index. lia.
Qed.

Lemma writeInt16BE_frame b z i b' :
  Buffer.writeInt16BE b z i = Ok b' ->
  Buffer.length b' = Buffer.length b /\
  forall j, j < i \/ i + 2 <= j -> Buffer.get b' j = Buffer.get b j.
Proof.
  unfold Buffer.writeInt16BE.
  destruct ((z <? -32768) || (32767 <? z)); [discriminate|].
  destruct ((i <? 0) || (Buffer.length b <? i + 2)) eqn:Hc; [discriminate|].
  apply orb_false_iff in Hc as [Hi Hfit]. apply Z.ltb_ge in Hi, Hfit.
  intros [= <-].
  split; [apply write_bytes_length; rewrite ?be_bytes_length; cbn [List.length]; lia|].
  intros j Hj.
  apply get_write_bytes_outside; rewrite ?be_bytes_length; cbn [List.length]; lia.
Qed.

Lemma writeInt32BE_frame b z i b' :
  Buffer.writeInt32BE b z i = Ok b' ->
  Buffer.length b' = Buffer.length b /\
  forall j, j < i \/ i + 4 <= j -> Buffer.get b' j = Buffer.get b j.
Proof.
  unfold Buffer.writeInt32BE.
  destruct ((z <? -2147483648) || (2147483647 <? z)); [discriminate|].
  destruct ((i <? 0) || (Buffer.length b <? i + 4)) eqn:Hc; [discriminate|].
  apply orb_false_iff in Hc as [Hi Hfit]. apply Z.ltb_ge in Hi, Hfit.
  intros [= <-].
  split; [apply write_bytes_length; rewrite ?be_bytes_length; cbn [List.length]; lia|].
  intros j Hj.
  apply get_write_bytes_outside; rewrite ?be_bytes_length; cbn [List.length]; lia.
Qed.

(** X2: whatever the type and the value, a serializer that returns has
    left the length of the buffer as it was and has changed no byte outside
    the range that starts at its index and is as long as the count it
    returns. *)
Theorem serialize_stays_in_its_range :
  forall (T : data_types.data_type) (obj : jsval) (buff buff' : Buffer.t) (ind n : Z),
    data_types.serialize T obj buff ind = Ok (buff', n) ->
    Buffer.length buff' = Buffer.length buff /\
    forall j, j < ind \/ ind + n <= j -> Buffer.get buff' j = Buffer.get buff j.
Proof.
  intros T obj buff buff' ind n. destruct T; cbn [data_types.serialize];
    try discriminate.
  - (* Bool *)
    destruct (truthy obj); intros [= <- <-];
      (split; [apply set_length | intros j Hj; apply get_set_other_index; lia]).
  - (* UInt8 *)
    destruct (write_int Buffer.writeUInt8 buff obj ind) as [b|e] eqn:Hw; [|discriminate].
    intros [= <- <-]. exact (write_int_frame _ 1 _ _ _ _ writeUInt8_frame Hw).
  - (* Int16 *)
    destruct (write_int Buffer.writeInt16BE buff obj ind) as [b|e] eqn:Hw; [|discriminate].
    intros [= <- <-]. exact (write_int_frame _ 2 _ _ _ _ writeInt16BE_frame Hw).
  - (* Int32 *)
    destruct (write_int Buffer.writeInt32BE buff obj ind) as [b|e] eqn:Hw; [|discriminate].
    intros [= <- <-]. exact (write_int_frame _ 4 _ _ _ _ writeInt32BE_frame Hw).
  - (* ByteBuffer *)
    destruct obj as [| | | |in_buff| | | | |]; try discriminate.
    destruct (Buffer.writeUInt8 buff (Buffer.length in_buff) ind) as [b|e] eqn:Hw;
      [|discriminate].
    cbn [mbind result_bind].
    destruct (Buffer.copy in_buff b (ind + 1) 0 (Buffer.length in_buff))
      as [[b2 k]|e] eqn:Hc; [|discriminate].
    cbn [mbind result_bind]. intros [= <- <-].
    apply writeUInt8_frame in Hw as [Hl1 Hg1].
    apply copy_frame in Hc as (Hl2 & Hk & Hg2).
    assert (0 <= Buffer.length in_buff) by (unfold Buffer.length; lia).
    split; [congruence|].
    intros j Hj. rewrite Hg2 by lia. apply Hg1. lia.
  - (* NullTerminatedString *)
    destruct obj as [| | |input_str| | | | | |]; try discriminate.
    destruct (data_types.ends_with_nul input_str); intros Hw;
      apply buffer_write_frame in Hw as (Hl & _ & Hg); (split; [exact Hl | exact Hg]).
Qed.

Lemma serialize_stays_in_its_range_witness :
  Buffer.length [9; 1; 2; 9] = Buffer.length [9; 9; 9; 9] /\
  forall j, j < 1 \/ 1 + 2 <= j ->
            Buffer.get [9; 1; 2; 9] j = Buffer.get [9; 9; 9; 9] j.
Proof.
  exact (serialize_stays_in_its_range data_types.Int16 (JNumber (Num 258))
           [9; 9; 9; 9] [9; 1; 2; 9] 1 2 eq_refl).
Defined.

(** A copy that fits both buffers writes the source range at the target
    index. *)
Lemma copy_fits (source target : Buffer.t) ts ss n :
  0 <= ts -> 0 <= ss -> 0 < n ->
  ss + n <= Buffer.length source -> ts + n <= Buffer.length target ->
  Buffer.copy source target ts ss (ss + n)
  = Ok (Buffer.write_bytes target ts (Buffer.sub source ss (ss + n)), n).
Proof.
  intros Hts Hss Hn Hs Ht. unfold Buffer.copy.
  replace ((ts <? 0) || (ss <? 0) || (ss + n <? 0)) with false
    by (symmetry; repeat (apply orb_false_intro); apply Z.ltb_ge; lia).
  replace ((Buffer.length target <=? ts) || (ss + n <=? ss)) with false
    by (symmetry; apply orb_false_intro; apply Z.leb_gt; lia).
  replace (Buffer.length source <? ss) with false by (symmetry; apply Z.ltb_ge; lia).
  replace (Z.min (Z.min (ss + n - ss) (Buffer.length target - ts))
                 (Buffer.length source - ss)) with n by lia.
  assert (Hlen : (Z.to_nat ts + List.length (Buffer.sub source ss (ss + n)))%nat
                 = Z.to_nat (ts + n)).
  { unfold Buffer.sub, Buffer.length in *. rewrite length_take, length_drop. lia. }
  unfold Buffer.write_bytes. rewrite Hlen. reflexivity.
Qed.

Lemma sub_length (b : Buffer.t) s e :
  0 <= s -> s <= e -> e <= Buffer.length b ->
  Z.of_nat (List.length (Buffer.sub b s e)) = e - s.
Proof.
  unfold Buffer.sub, Buffer.length. intros. rewrite length_take, length_drop. lia.
Qed.

Lemma sub_all (b : Buffer.t) : Buffer.sub b 0 (Buffer.length b) = b.
Proof.
  unfold Buffer.sub, Buffer.length. cbn [Z.to_nat drop].
  rewrite Z.sub_0_r, Nat2Z.id. apply firstn_all.
Qed.

(** X3: a buffer of at most 255 bytes, serialized as a ByteBuffer where it
    fits, is written as its length followed by its bytes, and
    [ByteBuffer.deserialize] at the same index returns the same bytes and
    the same count, the length plus one. *)
Theorem ByteBuffer_round_trip :
  forall (in_buff buff : Buffer.t) (ind : Z),
    Buffer.length in_buff <= 255 ->
    0 <= ind ->
    ind + 1 + Buffer.length in_buff <= Buffer.length buff ->
    exists buff',
      data_types.serialize data_types.ByteBuffer (JBuffer in_buff) buff ind
      = Ok (buff', Buffer.length in_buff + 1) /\
      Buffer.sub buff' ind (ind + 1 + Buffer.length in_buff)
      = Buffer.length in_buff :: in_buff /\
      deserialize_ByteBuffer buff' ind = Ok (in_buff, Buffer.length in_buff + 1).
Proof.
  intros in_buff buff ind H255 Hind Hfit.
  assert (Hlen0 : 0 <= Buffer.length in_buff) by (unfold Buffer.length; lia).
  cbn [data_types.serialize]. unfold Buffer.writeUInt8.
  replace ((Buffer.length in_buff <? 0) || (255 <? Buffer.length in_buff)) with false
    by (symmetry; apply orb_false_intro; apply Z.ltb_ge; lia).
  replace ((ind <? 0) || (Buffer.length buff <? ind + 1)) with false
    by (symmetry; apply orb_false_intro; apply Z.ltb_ge; lia).
  cbn [mbind result_bind].
  set (b1 := Buffer.set buff ind (Buffer.length in_buff)).
  assert (Hb1 : Buffer.length b1 = Buffer.length buff) by apply set_length.
  assert (Hcount : Buffer.get b1 ind = Some (Buffer.length in_buff)).
  { subst b1. rewrite get_set_same_index by lia. f_equal. apply Z.mod_small. lia. }
  destruct (Z.eq_dec (Buffer.length in_buff) 0) as [Hempty | Hne].
  - (* nothing to copy *)
    assert (in_buff = []) as ->
      by (destruct in_buff; [reflexivity | unfold Buffer.length in Hempty; cbn in Hempty; lia]).
    change (Buffer.length []) with 0 in *.
    unfold Buffer.copy at 1.
    replace ((ind + 1 <? 0) || (0 <? 0) || (0 <? 0)) with false
      by (symmetry; repeat (apply orb_false_intro); apply Z.ltb_ge; lia).
    replace ((Buffer.length b1 <=? ind + 1) || (0 <=? 0)) with true
      by (symmetry; apply orb_true_iff; right; reflexivity).
    cbn [mbind result_bind]. exists b1. split; [reflexivity|]. split.
    + unfold Buffer.sub. replace (Z.to_nat (ind + 1 + 0 - ind)) with 1%nat by lia.
      unfold Buffer.get in Hcount.
      destruct (ind <? 0); [discriminate|].
      rewrite (drop_S _ _ _ Hcount). reflexivity.
    + unfold deserialize_ByteBuffer, Buffer.readUInt8. rewrite Hcount.
      cbn [mbind result_bind]. rewrite Z.mod_0_l by lia.
      unfold Buffer.copy.
      replace ((0 <? 0) || (ind + 1 <? 0) || (ind + 1 + 0 <? 0)) with false
        by (symmetry; repeat (apply orb_false_intro); apply Z.ltb_ge; lia).
      reflexivity.
  - pose proof (copy_fits in_buff b1 (ind + 1) 0 (Buffer.length in_buff)) as Hcopy.
    rewrite Z.add_0_l, sub_all in Hcopy. rewrite Hcopy by lia.
    cbn [mbind result_bind].
    set (b2 := Buffer.write_bytes b1 (ind + 1) in_buff).
    assert (Hb2 : Buffer.length b2 = Buffer.length buff).
    { subst b2. rewrite write_bytes_length; [exact Hb1 | lia |].
      unfold Buffer.length in *. lia. }
    assert (Hpayload : Buffer.sub b2 (ind + 1) (ind + 1 + Buffer.length in_buff) = in_buff).
    { subst b2. unfold Buffer.length at 1.
      apply sub_write_bytes; [lia|]. unfold Buffer.length in *. lia. }
    assert (Hcount2 : Buffer.get b2 ind = Some (Buffer.length in_buff)).
    { subst b2. rewrite get_write_bytes_outside; [exact Hcount | lia | | lia].
      unfold Buffer.length in *. lia. }
    exists b2. split; [reflexivity|]. split.
    + unfold Buffer.sub in *.
      unfold Buffer.get in Hcount2. destruct (ind <? 0); [discriminate|].
      replace (Z.to_nat (ind + 1 + Buffer.length in_buff - ind))
        with (S (Z.to_nat (Buffer.length in_buff))) by lia.
      rewrite (drop_S _ _ _ Hcount2). cbn [take]. f_equal.
      replace (Z.to_nat (ind + 1)) with (S (Z.to_nat ind)) in Hpayload by lia.
      replace (Z.to_nat (ind + 1 + Buffer.length in_buff - (ind + 1)))
        with (Z.to_nat (Buffer.length in_buff)) in Hpayload by lia.
      exact Hpayload.
    + unfold deserialize_ByteBuffer, Buffer.readUInt8. rewrite Hcount2.
      cbn [mbind result_bind]. rewrite Z.mod_small by lia.
      assert (Halloc : Buffer.length (Buffer.alloc (Buffer.length in_buff))
                       = Buffer.length in_buff).
      { unfold Buffer.length, Buffer.alloc. rewrite repeat_length. lia. }
      rewrite copy_fits by lia. cbn [mbind result_bind].
      rewrite Hpayload. unfold Buffer.write_bytes. cbn [Z.to_nat take app Nat.add].
      rewrite drop_ge by (unfold Buffer.alloc, Buffer.length; rewrite repeat_length; lia).
      rewrite app_nil_r. reflexivity.
Qed.

Lemma ByteBuffer_round_trip_witness :
  exists buff',
    data_types.serialize data_types.ByteBuffer (JBuffer [7; 8; 9]) (Buffer.alloc 6) 1
    = Ok (buff', 4) /\
    Buffer.sub buff' 1 5 = [3; 7; 8; 9] /\
    deserialize_ByteBuffer buff' 1 = Ok ([7; 8; 9], 4).
Proof.
  exact (ByteBuffer_round_trip [7; 8; 9] (Buffer.alloc 6) 1
           ltac:(vm_compute; discriminate) ltac:(lia) ltac:(vm_compute; discriminate)).
Defined.

(** X4: [ByteBuffer.serialize] does not check that the payload fits.  With
    the count byte inside the buffer and the payload reaching past its end,
    it still returns the length plus one, more than the bytes the buffer
    has from the index on, and the buffer keeps its length: the payload is
    cut without an error. *)
Theorem ByteBuffer_serialize_overrun :
  forall (in_buff buff : Buffer.t) (ind : Z),
    Buffer.length in_buff <= 255 ->
    0 <= ind < Buffer.length buff ->
    Buffer.length buff < ind + 1 + Buffer.length in_buff ->
    exists buff',
      data_types.serialize data_types.ByteBuffer (JBuffer in_buff) buff ind
      = Ok (buff', Buffer.length in_buff + 1) /\
      Buffer.length buff' = Buffer.length buff /\
      Buffer.length buff' - ind < Buffer.length in_buff + 1 /\
      Buffer.sub buff' (ind + 1) (Buffer.length buff)
      = Buffer.sub in_buff 0 (Buffer.length buff - (ind + 1)).
Proof.
  intros in_buff buff ind H255 Hind Hshort.
  assert (Hlen0 : 0 <= Buffer.length in_buff) by (unfold Buffer.length; lia).
  cbn [data_types.serialize]. unfold Buffer.writeUInt8.
  replace ((Buffer.length in_buff <? 0) || (255 <? Buffer.length in_buff)) with false
    by (symmetry; apply orb_false_intro; apply Z.ltb_ge; lia).
  replace ((ind <? 0) || (Buffer.length buff <? ind + 1)) with false
    by (symmetry; apply orb_false_intro; apply Z.ltb_ge; lia).
  cbn [mbind result_bind].
  set (b1 := Buffer.set buff ind (Buffer.length in_buff)).
  assert (Hb1 : Buffer.length b1 = Buffer.length buff) by apply set_length.
  destruct (Z.eq_dec (Buffer.length buff) (ind + 1)) as [Hlast | Hmore].
  - (* the count byte is the last byte of the buffer *)
    unfold Buffer.copy.
    replace ((ind + 1 <? 0) || (0 <? 0) || (Buffer.length in_buff <? 0)) with false
      by (symmetry; repeat (apply orb_false_intro); apply Z.ltb_ge; lia).
    replace ((Buffer.length b1 <=? ind + 1) || (Buffer.length in_buff <=? 0)) with true
      by (symmetry; apply orb_true_iff; left; apply Z.leb_le; lia).
    cbn [mbind result_bind]. exists b1.
    split; [reflexivity|]. split; [exact Hb1|]. split; [lia|].
    unfold Buffer.sub. rewrite Hlast, Z.sub_diag. reflexivity.
  - pose proof (copy_fits in_buff b1 (ind + 1) 0 (Buffer.length buff - (ind + 1))) as Hcopy.
    unfold Buffer.copy in *.
    replace ((ind + 1 <? 0) || (0 <? 0) || (Buffer.length in_buff <? 0)) with false
      by (symmetry; repeat (apply orb_false_intro); apply Z.ltb_ge; lia).
    replace ((ind + 1 <? 0) || (0 <? 0) || (0 + (Buffer.length buff - (ind + 1)) <? 0))
      with false in Hcopy
      by (symmetry; repeat (apply orb_false_intro); apply Z.ltb_ge; lia).
    replace ((Buffer.length b1 <=? ind + 1) || (Buffer.length in_buff <=? 0)) with false
      by (symmetry; apply orb_false_intro; apply Z.leb_gt; lia).
    replace ((Buffer.length b1 <=? ind + 1) || (0 + (Buffer.length buff - (ind + 1)) <=? 0))
      with false in Hcopy
      by (symmetry; apply orb_false_intro; apply Z.leb_gt; lia).
    replace (Buffer.length in_buff <? 0) with false in *
      by (symmetry; apply Z.ltb_ge; lia).
    replace (Z.min (Z.min (Buffer.length in_buff - 0) (Buffer.length b1 - (ind + 1)))
                   (Buffer.length in_buff - 0))
      with (Buffer.length buff - (ind + 1)) by lia.
    replace (Z.min (Z.min (0 + (Buffer.length buff - (ind + 1)) - 0)
                          (Buffer.length b1 - (ind + 1)))
                   (Buffer.length in_buff - 0))
      with (Buffer.length buff - (ind + 1)) in Hcopy by lia.
    rewrite Hcopy by lia. cbn [mbind result_bind]. rewrite Z.add_0_l.
    set (cut := Buffer.sub in_buff 0 (Buffer.length buff - (ind + 1))).
    assert (Hcut : Z.of_nat (List.length cut) = Buffer.length buff - (ind + 1)).
    { subst cut. rewrite sub_length by lia. lia. }
    eexists. split; [reflexivity|].
    split; [rewrite write_bytes_length by lia; exact Hb1|].
    split; [rewrite write_bytes_length by lia; lia|].
    replace (Buffer.length buff) with (ind + 1 + Z.of_nat (List.length cut)) at 1 by lia.
    apply sub_write_bytes; lia.
Qed.

Lemma ByteBuffer_serialize_overrun_witness :
  exists buff',
    data_types.serialize data_types.ByteBuffer (JBuffer [7; 8; 9]) (Buffer.alloc 3) 1
    = Ok (buff', 4) /\
    Buffer.length buff' = 3.
Proof.
  destruct (ByteBuffer_serialize_overrun [7; 8; 9] (Buffer.alloc 3) 1
              ltac:(vm_compute; discriminate)
              ltac:(split; [lia | vm_compute; reflexivity])
              ltac:(vm_compute; reflexivity)) as (buff' & Hs & Hl & _).
  exists buff'. split; [exact Hs | exact Hl].
Defined.

(** *** Decoding arrays *)

Lemma readInt32BE_be_bytes (pre post : Buffer.t) v :
  int32 v ->
  Buffer.readInt32BE (pre ++ Buffer.be_bytes 4 v ++ post) (Buffer.length pre) = Ok v.
Proof.
  intros Hv. unfold Buffer.readInt32BE, Buffer.length.
  rewrite !length_app, be_bytes_length.
  replace ((Z.of_nat (List.length pre) <? 0)
           || (Z.of_nat (List.length pre + (4 + List.length post))
               <? Z.of_nat (List.length pre) + 4)) with false
    by (symmetry; apply orb_false_intro; apply Z.ltb_ge; lia).
  unfold Buffer.sub. rewrite Nat2Z.id, drop_app_length.
  replace (Z.to_nat (Z.of_nat (List.length pre) + 4 - Z.of_nat (List.length pre)))
    with (List.length (Buffer.be_bytes 4 v)) by (rewrite be_bytes_length; lia).
  rewrite take_app_length, be_value_be_bytes. f_equal.
  apply (to_signed_mod 32); [lia|]. unfold int32 in Hv. cbn. lia.
Qed.

Lemma read_int32_elements_be_bytes vs : forall (pre post : Buffer.t),
  Forall int32 vs ->
  read_int32_elements (pre ++ concat (map (Buffer.be_bytes 4) vs) ++ post)
    (Buffer.length pre) (List.length vs) = Ok vs.
Proof.
  induction vs as [|v vs IH]; intros pre post Hvs; [reflexivity|].
  apply Forall_cons in Hvs as [Hv Hvs].
  cbn [map concat List.length read_int32_elements].
  rewrite <- (app_assoc (Buffer.be_bytes 4 v)).
  rewrite readInt32BE_be_bytes by exact Hv. cbn [mbind result_bind].
  replace (Buffer.length pre + 4) with (Buffer.length (pre ++ Buffer.be_bytes 4 v))
    by (unfold Buffer.length; rewrite length_app, be_bytes_length; lia).
  rewrite (app_assoc pre). rewrite IH by exact Hvs. reflexivity.
Qed.

Lemma concat_be_bytes_length vs :
  List.length (concat (map (Buffer.be_bytes 4) vs)) = (4 * List.length vs)%nat.
Proof.
  induction vs as [|v vs IH]; [reflexivity|].
  cbn [map concat List.length]. rewrite length_app, be_bytes_length, IH. lia.
Qed.

(** X5: on a little-endian host ([NATIVE_BE] false), where the elements
    are read one by one with [readInt32BE], [Int32Array.deserialize]
    applied where a count byte is followed by that many big-endian 32 bit
    two's complement values returns exactly those values, and as consumed
    length four times the count plus one. *)
Theorem Int32Array_deserialize_wire_form :
  forall (has_toArrayBuffer : bool) (vs : list Z) (pre post : Buffer.t),
    Forall int32 vs ->
    Z.of_nat (List.length vs) <= 255 ->
    deserialize_Int32Array false has_toArrayBuffer
      (pre ++ [Z.of_nat (List.length vs)] ++ concat (map (Buffer.be_bytes 4) vs) ++ post)
      (Buffer.length pre)
    = Ok (vs, Z.of_nat (List.length vs) * 4 + 1).
Proof.
  intros has_toArrayBuffer vs pre post Hvs H255. unfold deserialize_Int32Array.
  set (n := Z.of_nat (List.length vs)) in *.
  assert (Hread : Buffer.readUInt8
                    (pre ++ [n] ++ concat (map (Buffer.be_bytes 4) vs) ++ post)
                    (Buffer.length pre) = Ok n).
  { unfold Buffer.readUInt8, Buffer.get, Buffer.length.
    replace (Z.of_nat (List.length pre) <? 0) with false
      by (symmetry; apply Z.ltb_ge; lia).
    rewrite Nat2Z.id. cbn [app]. rewrite list_lookup_middle by reflexivity.
    f_equal. apply Z.mod_small. lia. }
  rewrite Hread. cbn [mbind result_bind].
  subst n. rewrite Nat2Z.id.
  replace (Buffer.length pre + 1) with (Buffer.length (pre ++ [Z.of_nat (List.length vs)]))
    by (unfold Buffer.length; rewrite length_app; cbn; lia).
  rewrite (app_assoc pre). rewrite read_int32_elements_be_bytes by exact Hvs.
  reflexivity.
Qed.

Lemma Int32Array_deserialize_wire_form_witness :
  deserialize_Int32Array false false [3; 0; 0; 0; 1; 255; 255; 255; 254; 0; 0; 0; 3] 0
  = Ok ([1; -2; 3], 13).
Proof.
  exact (Int32Array_deserialize_wire_form false [1; -2; 3] [] []
           ltac:(repeat constructor; unfold int32; lia) ltac:(cbn; lia)).
Defined.

Lemma map_mod_bytes (l : list Z) :
  Forall (fun b => 0 <= b < 256) l -> map (fun b => b mod 256) l = l.
Proof.
  induction 1 as [|b l Hb _ IH]; [reflexivity|].
  cbn [map]. rewrite IH, Z.mod_small by lia. reflexivity.
Qed.

(** X6: [UInt8Array.deserialize] applied where a count byte is followed
    by that many payload bytes.  On a Node whose buffers have no
    [toArrayBuffer] (Node 4 and later) the call throws [TypeError] once the
    count is read.  Where buffers have the method (Node 0.11.8 to 0.12),
    the slice it copies starts at the index of the count byte, not at the
    byte after it: the call returns the count byte followed by all but the
    last payload byte (as many elements as the count says), and as
    consumed length the count plus one. *)
Theorem UInt8Array_deserialize_starts_at_count :
  forall (has_toArrayBuffer : bool) (payload pre post : Buffer.t),
    Forall (fun b => 0 <= b < 256) payload ->
    Z.of_nat (List.length payload) <= 255 ->
    deserialize_UInt8Array has_toArrayBuffer
      (pre ++ [Z.of_nat (List.length payload)] ++ payload ++ post) (Buffer.length pre)
    = if has_toArrayBuffer
      then Ok (take (List.length payload) (Z.of_nat (List.length payload) :: payload),
               Z.of_nat (List.length payload) + 1)
      else Throw (TypeError "toArrayBuffer is not a function").
Proof.
  intros has_toArrayBuffer payload pre post Hbytes H255. unfold deserialize_UInt8Array.
  set (n := Z.of_nat (List.length payload)) in *.
  assert (Hread : Buffer.readUInt8 (pre ++ [n] ++ payload ++ post) (Buffer.length pre)
                  = Ok n).
  { unfold Buffer.readUInt8, Buffer.get, Buffer.length.
    replace (Z.of_nat (List.length pre) <? 0) with false
      by (symmetry; apply Z.ltb_ge; lia).
    rewrite Nat2Z.id. cbn [app]. rewrite list_lookup_middle by reflexivity.
    f_equal. apply Z.mod_small. lia. }
  rewrite Hread. cbn [mbind result_bind]. unfold toArrayBuffer.
  destruct has_toArrayBuffer; [|reflexivity].
  cbn [mbind result_bind]. do 2 f_equal.
  unfold Buffer.sub, Buffer.length. rewrite Nat2Z.id, drop_app_length.
  replace (Z.to_nat (Z.of_nat (List.length pre) + n - Z.of_nat (List.length pre)))
    with (List.length payload) by lia.
  cbn [app]. rewrite (app_comm_cons payload post n).
  rewrite take_app_le by (cbn [List.length]; lia).
  apply map_mod_bytes. apply Forall_take. constructor; [lia | exact Hbytes].
Qed.

Lemma UInt8Array_deserialize_starts_at_count_witness :
  deserialize_UInt8Array false [3; 7; 8; 9] 0
  = Throw (TypeError "toArrayBuffer is not a function").
Proof.
  exact (UInt8Array_deserialize_starts_at_count false [7; 8; 9] [] []
           ltac:(repeat constructor; lia) ltac:(cbn; lia)).
Defined.

(** *** Strings and booleans *)

Lemma ascii_bytes_app s t :
  data_types.ascii_bytes (s +:+ t) = data_types.ascii_bytes s ++ data_types.ascii_bytes t.
Proof.
  unfold data_types.ascii_bytes. induction s as [|c s IH]; [reflexivity|].
  change (String c s +:+ t) with (String c (s +:+ t)).
  cbn [String.list_ascii_of_string map app]. f_equal. exact IH.
Qed.

Lemma ascii_bytes_length s :
  List.length (data_types.ascii_bytes s) = String.length s.
Proof.
  unfold data_types.ascii_bytes. induction s as [|c s IH]; [reflexivity|].
  cbn. f_equal. exact IH.
Qed.

(** X7: a string that does not end in a null character, serialized as a
    NullTerminatedString where it and a terminator fit, is written as its
    characters followed by a zero byte, and the count returned is the
    length of the string plus one: one more than [get_width] gives for the
    same string. *)
Theorem NullTerminatedString_serialize_adds_terminator :
  forall (input_str : string) (buff : Buffer.t) (ind : Z),
    data_types.ends_with_nul input_str = false ->
    0 <= ind ->
    ind + Z.of_nat (String.length input_str) + 1 <= Buffer.length buff ->
    exists buff',
      data_types.serialize data_types.NullTerminatedString (JString input_str) buff ind
      = Ok (buff', Z.of_nat (String.length input_str) + 1) /\
      Buffer.sub buff' ind (ind + Z.of_nat (String.length input_str) + 1)
      = data_types.ascii_bytes input_str ++ [0] /\
      data_types.get_width data_types.NullTerminatedString (JString input_str)
      = Ok (Z.of_nat (String.length input_str)).
Proof.
  intros input_str buff ind Hnul Hind Hfit.
  cbn [data_types.serialize data_types.get_width]. rewrite Hnul.
  unfold data_types.buffer_write.
  replace (Z.min (Buffer.length buff - ind) (Buffer.length buff - ind))
    with (Buffer.length buff - ind) by lia.
  replace ((Buffer.length buff - ind <? 0) || (ind <? 0)) with false
    by (symmetry; apply orb_false_intro; apply Z.ltb_ge; lia).
  rewrite andb_false_r.
  rewrite ascii_bytes_app.
  change (data_types.ascii_bytes data_types.nul) with [0].
  set (bytes := data_types.ascii_bytes input_str ++ [0]).
  assert (Hbytes : Z.of_nat (List.length bytes) = Z.of_nat (String.length input_str) + 1).
  { subst bytes. rewrite length_app, ascii_bytes_length. cbn. lia. }
  rewrite take_ge by lia.
  eexists. split; [rewrite Hbytes; reflexivity|]. split; [|reflexivity].
  replace (ind + Z.of_nat (String.length input_str) + 1)
    with (ind + Z.of_nat (List.length bytes)) by lia.
  apply sub_write_bytes; lia.
Qed.

Lemma NullTerminatedString_serialize_adds_terminator_witness :
  exists buff',
    data_types.serialize data_types.NullTerminatedString (JString "_png") (Buffer.alloc 5) 0
    = Ok (buff', 5) /\
    Buffer.sub buff' 0 5 = [95; 112; 110; 103; 0] /\
    data_types.get_width data_types.NullTerminatedString (JString "_png") = Ok 4.
Proof.
  exact (NullTerminatedString_serialize_adds_terminator "_png" (Buffer.alloc 5) 0
           eq_refl ltac:(lia) ltac:(vm_compute; discriminate)).
Defined.

(** X8: a value serialized as a Bool inside the buffer is read back by
    [Bool.deserialize] as its truth value; at an index outside the buffer
    the serializer still returns 1 and leaves the buffer as it was. *)
Theorem Bool_round_trip :
  forall (obj : jsval) (buff : Buffer.t) (ind : Z),
    (0 <= ind < Buffer.length buff ->
     exists buff',
       data_types.serialize data_types.Bool obj buff ind = Ok (buff', 1) /\
       deserialize_Bool buff' ind = truthy obj) /\
    (ind < 0 \/ Buffer.length buff <= ind ->
     data_types.serialize data_types.Bool obj buff ind = Ok (buff, 1)).
Proof.
  intros obj buff ind. split.
  - intros Hind. cbn [data_types.serialize]. unfold deserialize_Bool.
    destruct (truthy obj); eexists; (split; [reflexivity|]);
      rewrite get_set_same_index by lia; reflexivity.
  - intros Hout. cbn [data_types.serialize].
    assert (Hset : forall v, Buffer.set buff ind v = buff).
    { intros v. unfold Buffer.set. destruct (ind <? 0) eqn:Hneg; [reflexivity|].
      apply Z.ltb_ge in Hneg. apply list_insert_ge. unfold Buffer.length in Hout. lia. }
    destruct (truthy obj); rewrite Hset; reflexivity.
Qed.

Lemma Bool_round_trip_witness :
  exists buff',
    data_types.serialize data_types.Bool (JString "yes") [0; 0] 1 = Ok (buff', 1) /\
    deserialize_Bool buff' 1 = true.
Proof.
  exact (proj1 (Bool_round_trip (JString "yes") [0; 0] 1)
           ltac:(split; [lia | vm_compute; reflexivity])).
Defined.

(** *** Reading the header of an inbound packet *)

Lemma drop_repeat {A} (x : A) n : forall m, drop n (repeat x m) = repeat x (m - n).
Proof.
  induction n as [|n IH]; intros m; [now rewrite Nat.sub_0_r|].
  destruct m as [|m]; [reflexivity|]. cbn [repeat drop]. rewrite IH. reflexivity.
Qed.

(** A range that starts inside the source holds the bytes the source has
    for it, followed by cells that were never written when it reaches past
    the end of the source. *)
Lemma new_ByteRange_clamped (src : Buffer.t) (s e : Z) :
  0 <= s <= Buffer.length src -> s <= e ->
  PacketByteContainer.new_ByteRange src (Some s) (Some e)
  = Ok (PacketByteContainer.mk_range
          (Buffer.sub src s (e + 1) ++ repeat 0 (Z.to_nat (e + 1 - Buffer.length src)))
          src (Some s) (Some e) None).
Proof.
  intros Hs Hse. unfold PacketByteContainer.new_ByteRange, Buffer.copy.
  change (default 0 (Some s)) with s.
  assert (Hlen : Buffer.length (Buffer.alloc (e - s + 1)) = e - s + 1).
  { unfold Buffer.length, Buffer.alloc. rewrite repeat_length. lia. }
  rewrite Hlen.
  replace ((0 <? 0) || (s <? 0) || (e + 1 <? 0)) with false
    by (symmetry; repeat (apply orb_false_intro); apply Z.ltb_ge; lia).
  replace ((e - s + 1 <=? 0) || (e + 1 <=? s)) with false
    by (symmetry; apply orb_false_intro; apply Z.leb_gt; lia).
  replace (Buffer.length src <? s) with false by (symmetry; apply Z.ltb_ge; lia).
  cbn [mbind result_bind]. do 2 f_equal.
  set (to_copy := Z.min (Z.min (e + 1 - s) (e - s + 1 - 0)) (Buffer.length src - s)).
  change (Z.to_nat 0) with 0%nat. rewrite take_0. cbn [app]. rewrite Z.add_0_l.
  unfold Buffer.alloc. rewrite drop_repeat.
  unfold Buffer.sub, Buffer.length in *.
  destruct (Z.le_gt_cases (e + 1) (Z.of_nat (List.length src))) as [Hin | Hout].
  - subst to_copy. do 2 f_equal; lia.
  - subst to_copy. rewrite !take_ge by (rewrite length_drop; lia). do 2 f_equal. lia.
Qed.

(** The header of a packet of at least 15 bytes, read field by field. *)
Lemma parse_bowler_data_header :
  forall (d : BowlerDevice)
         (version m1 m2 m3 m4 m5 m6 method namespace size crc r1 r2 r3 r4 : Z)
         (body : Buffer.t),
    let header := [version; m1; m2; m3; m4; m5; m6; method; namespace; size; crc;
                   r1; r2; r3; r4] in
    Forall (fun b => 0 <= b < 256) header ->
    exists data,
      parse_bowler_data d (header ++ body)
      = Ok (mk_bowler_packet version
              (mac_address_format [m1; m2; m3; m4; m5; m6])
              (BOWLER_METHODS method)
              (supported_namespace_at d (Z.land namespace 0x7F))
              (Z.land namespace 0x01)
              size crc
              (data_types.ascii_string [r1; r2; r3; r4])
              data) /\
      (size <= 4 -> data = None) /\
      (4 < size ->
       exists b, data = Some b /\
                 Buffer.length b = Buffer.length body + 1 /\
                 take (List.length body) b = body).
Proof.
  intros d version m1 m2 m3 m4 m5 m6 method namespace size crc r1 r2 r3 r4 body header
         Hbytes.
  unfold header in Hbytes.
  repeat match goal with
  | H : Forall _ (_ :: _) |- _ => apply Forall_cons in H as [? H]
  end.
  clear Hbytes.
  set (p := header ++ body).
  assert (Hlen : Buffer.length p = 15 + Buffer.length body).
  { unfold Buffer.length. subst p. rewrite length_app. subst header.
    cbn [List.length]. lia. }
  assert (Hbody : 0 <= Buffer.length body) by (unfold Buffer.length; lia).
  assert (Hsub0 : Buffer.sub p 0 (0 + 1) = [version]) by reflexivity.
  assert (Hsub1 : Buffer.sub p 1 (6 + 1) = [m1; m2; m3; m4; m5; m6]) by reflexivity.
  assert (Hsub7 : Buffer.sub p 7 (7 + 1) = [method]) by reflexivity.
  assert (Hsub8 : Buffer.sub p 8 (8 + 1) = [namespace]) by reflexivity.
  assert (Hsub9 : Buffer.sub p 9 (9 + 1) = [size]) by reflexivity.
  assert (Hsub10 : Buffer.sub p 10 (10 + 1) = [crc]) by reflexivity.
  assert (Hsub11 : Buffer.sub p 11 (14 + 1) = [r1; r2; r3; r4]) by reflexivity.
  assert (Hend : Buffer.sub p 15 (Buffer.length p + 1) = body).
  { unfold Buffer.sub. change (drop (Z.to_nat 15) p) with body.
    apply take_ge. rewrite Hlen. unfold Buffer.length. lia. }
  assert (Hinside : forall a b, a + 1 <= 15 ->
            b ++ repeat 0 (Z.to_nat (a + 1 - Buffer.length p)) = b).
  { intros a b Ha. replace (Z.to_nat (a + 1 - Buffer.length p)) with 0%nat by lia.
    apply app_nil_r. }
  unfold parse_bowler_data, BOWLER_PACKET_PARSER,
    PacketByteContainer.byte, PacketByteContainer.bytes, ByteRange.masked_with,
    ByteRange.to_end.
  rewrite (new_ByteRange_clamped p 0 0), (new_ByteRange_clamped p 1 6),
    (new_ByteRange_clamped p 7 7), (new_ByteRange_clamped p 8 8),
    (new_ByteRange_clamped p 9 9), (new_ByteRange_clamped p 10 10),
    (new_ByteRange_clamped p 11 14), (new_ByteRange_clamped p 15 15) by lia.
  rewrite Hsub0, Hsub1, Hsub7, Hsub8, Hsub9, Hsub10, Hsub11.
  rewrite (Hinside 0), (Hinside 6), (Hinside 7), (Hinside 8), (Hinside 9),
    (Hinside 10), (Hinside 14) by lia.
  cbn [mbind result_bind PacketByteContainer.src PacketByteContainer.start
       PacketByteContainer.end_ PacketByteContainer.buff PacketByteContainer.partial].
  rewrite (new_ByteRange_clamped p 8 8), (new_ByteRange_clamped p 15 (Buffer.length p))
    by lia.
  rewrite Hsub8, Hend, (Hinside 8) by lia.
  replace (Z.to_nat (Buffer.length p + 1 - Buffer.length p)) with 1%nat by lia.
  cbn [mbind result_bind PacketByteContainer.src PacketByteContainer.start
       PacketByteContainer.end_ PacketByteContainer.buff PacketByteContainer.partial
       map].
  assert (Hint : forall b, 0 <= b < 256 ->
            forall src st en pa,
              PacketByteContainer.toInt (PacketByteContainer.mk_range [b] src st en pa)
              = Ok b).
  { intros b Hb src st en pa. unfold PacketByteContainer.toInt.
    cbn [PacketByteContainer.buff]. change (Buffer.length [b] =? 1) with true.
    cbv iota. unfold deserialize_UInt8, Buffer.readUInt8.
    change (Buffer.get [b] 0) with (Some b). cbv iota beta.
    rewrite Z.mod_small by lia.
    reflexivity. }
  assert (Hlow7 : 0 <= Z.land namespace 127 < 256).
  { change 127 with (Z.ones 7). rewrite Z.land_ones by lia. change (2 ^ 7) with 128.
    pose proof (Z.mod_pos_bound namespace 128 ltac:(lia)). lia. }
  assert (Hlow1 : 0 <= Z.land namespace 1 < 256).
  { change (Z.land namespace 1) with (Z.land namespace (Z.ones 1)).
    rewrite Z.land_ones by lia. change (2 ^ 1) with 2.
    pose proof (Z.mod_pos_bound namespace 2 ltac:(lia)). lia. }
  rewrite (Z.mod_small (Z.land namespace 127)), (Z.mod_small (Z.land namespace 1)) by lia.
  rewrite !Hint by lia. cbn [mbind result_bind].
  unfold ByteRange.format, ByteRange.lookup_in, ByteRange.getBuffer,
    PacketByteContainer.toRawString.
  cbn [PacketByteContainer.buff].
  rewrite (Z.mod_small method), (Z.mod_small (Z.land namespace 127)) by lia.
  destruct (4 <? size) eqn:Hsz; [apply Z.ltb_lt in Hsz | apply Z.ltb_ge in Hsz].
  - eexists. split; [reflexivity|]. split; [lia|]. intros _.
    eexists. split; [reflexivity|]. split.
    + unfold Buffer.length. rewrite length_app. cbn [List.length repeat]. lia.
    + apply take_app_length.
  - exists None. split; [reflexivity|]. split; [reflexivity | lia].
Qed.

(** X9: [parse_bowler_data] reads the header of any packet of at least
    15 bytes field by field and checks nothing: the version is byte 0, the
    MAC string is made of bytes 1 to 6, the method is looked up from byte 7,
    the namespace from the low seven bits of byte 8, the direction is the
    lowest bit of the same byte, size and crc are bytes 9 and 10 as they
    are, the RPC name is bytes 11 to 14.  [data] is [null] when the size
    byte is at most 4; otherwise it is a buffer one byte longer than the
    body, which it starts with. *)
Theorem BOWLER_PACKET_PARSER_fields :
  forall (d : BowlerDevice)
         (version m1 m2 m3 m4 m5 m6 method namespace size crc r1 r2 r3 r4 : Z)
         (body : Buffer.t),
    let header := [version; m1; m2; m3; m4; m5; m6; method; namespace; size; crc;
                   r1; r2; r3; r4] in
    Forall (fun b => 0 <= b < 256) header ->
    exists data,
      parse_bowler_data d (header ++ body)
      = Ok (mk_bowler_packet version
              (mac_address_format [m1; m2; m3; m4; m5; m6])
              (BOWLER_METHODS method)
              (supported_namespace_at d (Z.land namespace 0x7F))
              (Z.land namespace 0x01)
              size crc
              (data_types.ascii_string [r1; r2; r3; r4])
              data) /\
      (size <= 4 -> data = None) /\
      (4 < size ->
       exists b, data = Some b /\
                 Buffer.length b = Buffer.length body + 1 /\
                 take (List.length body) b = body).
Proof. exact parse_bowler_data_header. Qed.

Lemma BOWLER_PACKET_PARSER_fields_witness :
  parse_bowler_data blank_device [3; 0; 0; 0; 0; 0; 0; 32; 0; 4; 23; 95; 112; 110; 103]
  = Ok (mk_bowler_packet 3 "000000" (Some "post") (Some "bcs.core") 0 4 23 "_png" None).
Proof.
  destruct (BOWLER_PACKET_PARSER_fields blank_device 3 0 0 0 0 0 0 32 0 4 23 95 112 110 103 []
              ltac:(repeat constructor; lia)) as (data & Hparse & Hnone & _).
  rewrite (Hnone ltac:(lia)) in Hparse. exact Hparse.
Defined.

(** *** Resolving a namespace path *)

Lemma split_dot_nonempty s : bowler_util.split_dot s <> [].
Proof.
  destruct s as [|c s]; cbn [bowler_util.split_dot]; [discriminate|].
  destruct (Ascii.eqb c "."); [discriminate|].
  destruct (bowler_util.split_dot s); discriminate.
Qed.

Lemma join_dot_cons s l :
  l <> [] -> bowler_util.join_dot (s :: l) = s +:+ "." +:+ bowler_util.join_dot l.
Proof. destruct l; [contradiction | reflexivity]. Qed.

(** Splitting at the dots and joining with dots gives the string back. *)
Lemma join_dot_split_dot s : bowler_util.join_dot (bowler_util.split_dot s) = s.
Proof.
  induction s as [|c s IH]; [reflexivity|].
  cbn [bowler_util.split_dot].
  destruct (Ascii.eqb c ".") eqn:Hc.
  - apply Ascii.eqb_eq in Hc. subst c.
    rewrite join_dot_cons by apply split_dot_nonempty. rewrite IH. reflexivity.
  - pose proof (split_dot_nonempty s) as Hne.
    destruct (bowler_util.split_dot s) as [|seg segs]; [contradiction|].
    destruct segs as [|seg' segs].
    + cbn [bowler_util.join_dot] in *. rewrite IH. reflexivity.
    + rewrite join_dot_cons in * by discriminate.
      change (String c seg +:+ ?t) with (String c (seg +:+ t)). rewrite IH. reflexivity.
Qed.

Section ResolveFacts.
Context {F : Type}.
Implicit Types (root n : node F).

Lemma resolve_loop_found path : forall root n,
  lookup_path root (without_com path) = Some n ->
  bowler_util.resolve_loop (Some root) path = Ok (Some n).
Proof.
  induction path as [|seg rest IH]; intros root n Hlook.
  - cbn in Hlook. injection Hlook as <-. reflexivity.
  - cbn [bowler_util.resolve_loop]. unfold without_com in Hlook.
    cbn [List.filter] in Hlook.
    destruct (String.eqb seg "com") eqn:Hcom; cbn [negb] in Hlook.
    + apply IH. exact Hlook.
    + cbn [lookup_path] in Hlook.
      destruct (get_prop root seg) as [child|]; [|discriminate].
      apply IH. exact Hlook.
Qed.

(** An element that is missing with more of the path to go. *)
Lemma resolve_loop_missing pre : forall root parent seg rest,
  lookup_path root (without_com pre) = Some parent ->
  String.eqb seg "com" = false ->
  get_prop parent seg = None ->
  rest <> [] ->
  bowler_util.resolve_loop (Some root) (pre ++ seg :: rest)
  = Throw (ReferenceError "namespace_list").
Proof.
  induction pre as [|s pre IH]; intros root parent seg rest Hlook Hcom Hnone Hrest.
  - cbn in Hlook. injection Hlook as <-. cbn [app bowler_util.resolve_loop].
    rewrite Hcom, Hnone. destruct rest; [contradiction | reflexivity].
  - cbn [app bowler_util.resolve_loop]. unfold without_com in Hlook.
    cbn [List.filter] in Hlook.
    destruct (String.eqb s "com") eqn:Hs; cbn [negb] in Hlook.
    + exact (IH _ _ _ _ Hlook Hcom Hnone Hrest).
    + cbn [lookup_path] in Hlook.
      destruct (get_prop root s) as [child|]; [|discriminate].
      exact (IH _ _ _ _ Hlook Hcom Hnone Hrest).
Qed.

Lemma without_com_app l1 l2 : without_com (l1 ++ l2) = without_com l1 ++ without_com l2.
Proof. apply List.filter_app. Qed.


(** The path of a namespace and an RPC name is never the one-element path
    [['']] that stands for the root. *)
Lemma resolve_namespace_path_rpc path_str rpc root err_msg :
  rpc <> "" ->
  bowler_util.resolve_namespace_path path_str (Some rpc) root err_msg
  = (obj ← bowler_util.resolve_loop (Some root) (bowler_util.split_dot path_str ++ [rpc]);
     let path := bowler_util.split_dot path_str ++ [rpc] in
     let error :=
       Ok (bowler_util.ErrorObject
             (err_msg +:+ " -- undefined last path element under "
                +:+ bowler_util.join_dot (removelast path) +:+ ": " +:+ List.last path "")) in
     match obj with
     | Some o => if truthy_node o then Ok (bowler_util.Resolved o) else error
     | None => error
     end).
Proof.
  intros Hrpc. unfold bowler_util.resolve_namespace_path.
  destruct (String.eqb rpc "") eqn:He; [apply String.eqb_eq in He; contradiction|].
  pose proof (split_dot_nonempty path_str) as Hne.
  destruct (bowler_util.split_dot path_str) as [|seg segs]; [contradiction|].
  cbn [app]. destruct segs as [|seg' segs]; cbn [app];
    destruct seg as [|c seg]; reflexivity.
Qed.

(** The last step of a walk whose earlier steps are found. *)
Lemma resolve_loop_snoc pre : forall root parent seg,
  lookup_path root (without_com pre) = Some parent ->
  String.eqb seg "com" = false ->
  bowler_util.resolve_loop (Some root) (pre ++ [seg]) = Ok (get_prop parent seg).
Proof.
  induction pre as [|s pre IH]; intros root parent seg Hlook Hcom.
  - cbn in Hlook. injection Hlook as <-. cbn [app bowler_util.resolve_loop].
    rewrite Hcom. reflexivity.
  - cbn [app bowler_util.resolve_loop]. unfold without_com in Hlook.
    cbn [List.filter] in Hlook.
    destruct (String.eqb s "com") eqn:Hs; cbn [negb] in Hlook.
    + exact (IH _ _ _ Hlook Hcom).
    + cbn [lookup_path] in Hlook.
      destruct (get_prop root s) as [child|]; [|discriminate].
      exact (IH _ _ _ Hlook Hcom).
Qed.

End ResolveFacts.

(** X10: when following the segments of the namespace and then the RPC
    name through the tree, segments 'com' left out, leads to a truthy
    entry, [resolve_namespace_path] returns that entry. *)
Theorem resolve_namespace_path_finds :
  forall (F : Type) (path_str rpc : string) (root n : node F) (err_msg : string),
    rpc <> "" ->
    lookup_path root (without_com (bowler_util.split_dot path_str ++ [rpc])) = Some n ->
    truthy_node n = true ->
    bowler_util.resolve_namespace_path path_str (Some rpc) root err_msg
    = Ok (bowler_util.Resolved n).
Proof.
  intros F path_str rpc root n err_msg Hrpc Hlook Ht.
  rewrite resolve_namespace_path_rpc by exact Hrpc.
  rewrite (resolve_loop_found _ _ _ Hlook).
  cbn [mbind result_bind]. rewrite Ht. reflexivity.
Qed.

Lemma resolve_namespace_path_finds_witness :
  bowler_util.resolve_namespace_path "bcs.core" (Some "_png") sample_registry "not found"
  = Ok (bowler_util.Resolved (Obj (Some "registered _png") PNil)).
Proof.
  exact (resolve_namespace_path_finds string "bcs.core" "_png" sample_registry
           (Obj (Some "registered _png") PNil) "not found" ltac:(discriminate)
           eq_refl eq_refl).
Defined.

Lemma split_dot_com s :
  bowler_util.split_dot ("com." +:+ s) = "com" :: bowler_util.split_dot s.
Proof.
  change ("com." +:+ s) with (String "c" (String "o" (String "m" (String "." s)))).
  cbn [bowler_util.split_dot Ascii.eqb Bool.eqb]. reflexivity.
Qed.

(** X11: a namespace written with 'com.' in front resolves like the
    namespace without it: the walk skips the segment 'com', so the two
    calls return an object in the same cases, and then the same object. *)
Theorem resolve_namespace_path_skips_com :
  forall (F : Type) (path_str rpc : string) (root n : node F) (err_msg : string),
    rpc <> "" ->
    (bowler_util.resolve_namespace_path ("com." +:+ path_str) (Some rpc) root err_msg
     = Ok (bowler_util.Resolved n)
     <->
     bowler_util.resolve_namespace_path path_str (Some rpc) root err_msg
     = Ok (bowler_util.Resolved n)).
Proof.
  intros F path_str rpc root n err_msg Hrpc.
  rewrite !resolve_namespace_path_rpc by exact Hrpc.
  rewrite split_dot_com. cbn [app bowler_util.resolve_loop String.eqb Ascii.eqb Bool.eqb].
  destruct (bowler_util.resolve_loop (Some root) (bowler_util.split_dot path_str ++ [rpc]))
    as [[o|]|e]; cbn [mbind result_bind]; [|split; discriminate|reflexivity].
  destruct (truthy_node o); [reflexivity | split; discriminate].
Qed.

Lemma resolve_namespace_path_skips_com_witness :
  bowler_util.resolve_namespace_path "com.bcs.core" (Some "_png") sample_registry "not found"
  = Ok (bowler_util.Resolved (Obj (Some "registered _png") PNil)).
Proof.
  apply (proj2 (resolve_namespace_path_skips_com string "bcs.core" "_png" sample_registry
                  (Obj (Some "registered _png") PNil) "not found" ltac:(discriminate))).
  reflexivity.
Defined.

(** X12: what [resolve_namespace_path] does when an element is missing
    (a name that a plain object has not and does not inherit).  When the
    namespace leads to a plain object that has no entry of the RPC's name,
    the call returns (it does not throw) an [Error] object whose message
    names the namespace and the RPC.  When a segment of the namespace
    itself is missing, the call throws [ReferenceError]: the message it
    starts to build reads [namespace_list], which does not exist. *)
Theorem resolve_namespace_path_missing :
  forall (F : Type) (path_str rpc : string) (root : node F) (ps : props F)
         (err_msg : string),
    rpc <> "" ->
    (lookup_path root (without_com (bowler_util.split_dot path_str)) = Some (Obj None ps) ->
     rpc <> "com" ->
     inherited_name rpc = false ->
     get ps rpc = None ->
     bowler_util.resolve_namespace_path path_str (Some rpc) root err_msg
     = Ok (bowler_util.ErrorObject
             (err_msg +:+ " -- undefined last path element under " +:+ path_str
                +:+ ": " +:+ rpc))) /\
    (forall pre seg more,
       bowler_util.split_dot path_str = pre ++ seg :: more ->
       lookup_path root (without_com pre) = Some (Obj None ps) ->
       seg <> "com" ->
       inherited_name seg = false ->
       get ps seg = None ->
       bowler_util.resolve_namespace_path path_str (Some rpc) root err_msg
       = Throw (ReferenceError "namespace_list")).
Proof.
  intros F path_str rpc root ps err_msg Hrpc. split.
  - intros Hlook Hcom _ Hnone. rewrite resolve_namespace_path_rpc by exact Hrpc.
    rewrite (resolve_loop_snoc _ _ _ _ Hlook)
      by (apply String.eqb_neq; exact Hcom).
    cbn [get_prop]. rewrite Hnone. cbn [mbind result_bind].
    rewrite removelast_last, last_last, join_dot_split_dot. reflexivity.
  - intros pre seg more Hsplit Hlook Hcom _ Hnone.
    rewrite resolve_namespace_path_rpc by exact Hrpc.
    rewrite Hsplit, <- app_assoc, <- app_comm_cons.
    rewrite (resolve_loop_missing _ _ _ _ _ Hlook)
      by (try (apply String.eqb_neq; exact Hcom); try exact Hnone;
          destruct more; discriminate).
    reflexivity.
Qed.

Lemma resolve_namespace_path_missing_witness :
  bowler_util.resolve_namespace_path "bcs.core" (Some "_nms") sample_registry "not found"
  = Ok (bowler_util.ErrorObject
          "not found -- undefined last path element under bcs.core: _nms") /\
  bowler_util.resolve_namespace_path "bcs.pid" (Some "_pid") sample_registry "not found"
  = Throw (ReferenceError "namespace_list").
Proof.
  pose proof (resolve_namespace_path_missing string "bcs.core" "_nms" sample_registry
                (PCons "_png" (Obj (Some "registered _png") PNil) PNil)
                "not found" ltac:(discriminate)) as [Hlast _].
  pose proof (resolve_namespace_path_missing string "bcs.pid" "_pid" sample_registry
                (PCons "core"
                   (Obj None (PCons "_png" (Obj (Some "registered _png") PNil) PNil)) PNil)
                "not found" ltac:(discriminate)) as [_ Hmid].
  split.
  - apply Hlast; [reflexivity | discriminate | reflexivity | reflexivity].
  - apply (Hmid ["bcs"] "pid" []);
      [reflexivity | reflexivity | discriminate | reflexivity | reflexivity].
Defined.

(** *** From an inbound packet to the continuation *)

(** X13: the 'data' listener of a DyIO turns a packet whose method byte is
    a known code, whose namespace byte (low seven bits) is an id the device
    lists and whose RPC name has a parser function registered under that
    namespace into one event named "<method>:<namespace>#<rpc>" that
    carries what the parser returned; and a continuation that a deferred
    handle registered for that event name is then called once, with [null]
    and that result. *)
Theorem inbound_packet_reaches_continuation :
  forall (apply_parser : parser -> option Buffer.t -> result jsval) (d : BowlerDevice)
         (version m1 m2 m3 m4 m5 m6 method namespace size crc r1 r2 r3 r4 : Z)
         (body : Buffer.t) (method_name namespace_name : string) (f : parser)
         (ps : props parser),
    let header := [version; m1; m2; m3; m4; m5; m6; method; namespace; size; crc;
                   r1; r2; r3; r4] in
    let rpc := data_types.ascii_string [r1; r2; r3; r4] in
    let event_name := method_name +:+ ":" +:+ namespace_name +:+ "#" +:+ rpc in
    Forall (fun b => 0 <= b < 256) header ->
    BOWLER_METHODS method = Some method_name ->
    supported_namespace_at d (Z.land namespace 0x7F) = Some namespace_name ->
    namespace_name <> "" ->
    lookup_path (_parsers d) (without_com (bowler_util.split_dot namespace_name ++ [rpc]))
    = Some (Obj (Some f) ps) ->
    exists bowler_packet,
      parse_bowler_data d (header ++ body) = Ok bowler_packet /\
      forall full_packet,
        apply_parser f (packet_data bowler_packet) = Ok full_packet ->
        full_packet <> JUndefined -> full_packet <> JNull ->
        on_data apply_parser d (header ++ body)
        = Ok (event_name, full_packet, bowler_packet) /\
        forall (cb : string) (st : CommandHandler.state),
          Forall (fun el => el.1 <> event_name) (CommandHandler.listeners st) ->
          let st' := CommandHandler.call_deferred (CommandHandler.mk_deferred event_name)
                       (JFunction cb) st in
          CommandHandler.receive event_name full_packet st'
          = (CommandHandler.mk_state (CommandHandler.listeners st)
               (CommandHandler.effects st'),
             [(cb, [JNull; full_packet])], None).
Proof.
  intros apply_parser d version m1 m2 m3 m4 m5 m6 method namespace size crc r1 r2 r3 r4
         body method_name namespace_name f ps header rpc event_name
         Hbytes Hmethod Hns Hname Hlook.
  assert (Hrpc : rpc <> "") by (subst rpc; cbn; discriminate).
  destruct (parse_bowler_data_header d version m1 m2 m3 m4 m5 m6 method namespace size crc
              r1 r2 r3 r4 body Hbytes) as (data & Hparse & _).
  fold header in Hparse. rewrite Hmethod, Hns in Hparse. fold rpc in Hparse.
  eexists. split; [exact Hparse|].
  intros full_packet Hfull Hundef Hnull. split.
  - unfold on_data. rewrite Hparse. cbn [mbind result_bind].
    unfold parse_packet_data.
    cbn [packet_namespace packet_rpc packet_method packet_data or_undefined default] in *.
    destruct (String.eqb namespace_name "") eqn:He;
      [apply String.eqb_eq in He; contradiction|].
    rewrite (resolve_namespace_path_rpc _ _ _ _ Hrpc).
    rewrite (resolve_loop_found _ _ _ Hlook). cbn [mbind result_bind truthy_node].
    rewrite Hfull. cbn [mbind result_bind].
    destruct full_packet; try reflexivity; contradiction.
  - intros cb st Hst st'.
    exact (receive_registered event_name [cb] full_packet st Hst).
Qed.

Lemma inbound_packet_reaches_continuation_witness :
  on_data (fun p _ => Ok (JObject (parser_name p))) default_device
    [3; 0; 0; 0; 0; 0; 0; 32; 0; 4; 23; 95; 112; 110; 103]
  = Ok ("post:bcs.core#_png", JObject "_png",
        mk_bowler_packet 3 "000000" (Some "post") (Some "bcs.core") 0 4 23 "_png" None) /\
  CommandHandler.receive "post:bcs.core#_png" (JObject "_png")
    (CommandHandler.call_deferred (CommandHandler.mk_deferred "post:bcs.core#_png")
       (JFunction "cb") CommandHandler.initial)
  = (CommandHandler.mk_state [] [CommandHandler.Registered "post:bcs.core#_png"],
     [("cb", [JNull; JObject "_png"])], None).
Proof.
  destruct (inbound_packet_reaches_continuation
              (fun p _ => Ok (JObject (parser_name p))) default_device
              3 0 0 0 0 0 0 32 0 4 23 95 112 110 103 [] "post" "bcs.core"
              (mk_parser "_png") PNil
              ltac:(repeat constructor; lia) eq_refl eq_refl
              ltac:(discriminate) eq_refl)
    as (pkt & Hparse & Hrest).
  vm_compute in Hparse. injection Hparse as <-.
  destruct (Hrest (JObject "_png") eq_refl ltac:(discriminate) ltac:(discriminate))
    as [Hevent Hcb].
  split; [exact Hevent|].
  exact (Hcb "cb" CommandHandler.initial ltac:(constructor)).
Defined.

(** X14: a packet whose namespace byte (low seven bits) is no id the
    device lists is refused by the 'data' listener with the exception
    'Received packet from unknown namespace!', whatever the rest of the
    packet and whatever parsers are registered: no parser runs and no event
    is emitted. *)
Theorem inbound_unknown_namespace :
  forall (apply_parser : parser -> option Buffer.t -> result jsval) (d : BowlerDevice)
         (version m1 m2 m3 m4 m5 m6 method namespace size crc r1 r2 r3 r4 : Z)
         (body : Buffer.t),
    let header := [version; m1; m2; m3; m4; m5; m6; method; namespace; size; crc;
                   r1; r2; r3; r4] in
    Forall (fun b => 0 <= b < 256) header ->
    supported_namespace_at d (Z.land namespace 0x7F) = None ->
    on_data apply_parser d (header ++ body)
    = Throw (Error "Received packet from unknown namespace!").
Proof.
  intros apply_parser d version m1 m2 m3 m4 m5 m6 method namespace size crc r1 r2 r3 r4
         body header Hbytes Hns.
  destruct (parse_bowler_data_header d version m1 m2 m3 m4 m5 m6 method namespace size crc
              r1 r2 r3 r4 body Hbytes) as (data & Hparse & _).
  fold header in Hparse. unfold on_data. rewrite Hparse, Hns. reflexivity.
Qed.

Lemma inbound_unknown_namespace_witness :
  on_data (fun p _ => Ok (JObject (parser_name p))) default_device
    [3; 0; 0; 0; 0; 0; 0; 32; 5; 4; 28; 95; 112; 110; 103]
  = Throw (Error "Received packet from unknown namespace!").
Proof.
  exact (inbound_unknown_namespace (fun p _ => Ok (JObject (parser_name p))) default_device
           3 0 0 0 0 0 0 32 5 4 28 95 112 110 103 []
           ltac:(repeat constructor; lia) eq_refl).
Defined.

(** *** The namespace table and the MAC address of a device *)

Lemma supported_namespaces_hr_fold name (l : list (Z * string)) : forall found,
  name ∉ map snd l ->
  fold_left (fun found '(nsid, n) =>
               if String.eqb n name then JString (pretty nsid) else found) l found
  = found.
Proof.
  induction l as [|[nsid n] l IH]; intros found Hnot; [reflexivity|].
  cbn [map snd] in Hnot. apply not_elem_of_cons in Hnot as [Hne Hnot].
  cbn [fold_left].
  destruct (String.eqb n name) eqn:He; [apply String.eqb_eq in He; congruence|].
  apply IH. exact Hnot.
Qed.

(** X15: the namespace table and its inverse.  The table is an object
    keyed by namespace ids, which [for (var nsid in ...)] visits in
    ascending order.  Each listed id is looked up to its name, and
    [supported_namespaces_hr] maps a name to the highest id that carries
    it, as a decimal string; so a namespace whose name no higher id
    carries is mapped to its name and back to its id.  (The name is not
    '__proto__', which an assignment does not store as a key.) *)
Theorem supported_namespaces_round_trip :
  forall (d : BowlerDevice) (pre post : list (Z * string)) (nsid : Z) (name : string),
    StronglySorted Z.lt (map fst (supported_namespaces d)) ->
    Forall (fun id => 0 <= id) (map fst (supported_namespaces d)) ->
    supported_namespaces d = pre ++ (nsid, name) :: post ->
    name ∉ map snd post ->
    name <> "__proto__" ->
    supported_namespace_at d nsid = Some name /\
    supported_namespaces_hr d (JString name) = JString (pretty nsid).
Proof.
  intros d pre post nsid name Hsorted _ Htable Hname _.
  rewrite Htable in Hsorted. split.
  - unfold supported_namespace_at. rewrite Htable. clear Htable.
    induction pre as [|[i n] pre IH]; cbn [app List.find fst].
    + rewrite Z.eqb_refl. reflexivity.
    + cbn [app map fst] in Hsorted. apply StronglySorted_inv in Hsorted as [Hrest Hlt].
      rewrite map_app in Hlt. apply Forall_app in Hlt as [_ Hlt].
      cbn [map fst] in Hlt. apply Forall_cons in Hlt as [Hlt _].
      destruct (i =? nsid) eqn:He; [apply Z.eqb_eq in He; lia|].
      apply IH. exact Hrest.
  - unfold supported_namespaces_hr. rewrite Htable, fold_left_app.
    cbn [fold_left]. rewrite String.eqb_refl.
    apply supported_namespaces_hr_fold. exact Hname.
Qed.

Lemma supported_namespaces_round_trip_witness :
  supported_namespace_at blank_device 0 = Some "bcs.core" /\
  supported_namespaces_hr blank_device (JString "bcs.core") = JString "0".
Proof.
  exact (supported_namespaces_round_trip blank_device [] [] 0 "bcs.core"
           ltac:(repeat constructor)
           ltac:(apply Forall_cons_2; [cbn; lia | apply Forall_nil_2]) eq_refl
           ltac:(apply not_elem_of_nil) ltac:(discriminate)).
Defined.

(** X16: storing a MAC address through [mac_address_bytes] and reading it
    back.  A value whose first six elements are all 255 is stored as
    'broadcast' and read back as six zeros; every other value is read back
    as it was given. *)
Theorem mac_address_bytes_set_get :
  forall (d : BowlerDevice) (val : list Z),
    (take 6 val = [255; 255; 255; 255; 255; 255] ->
     _mac_address_raw (set_mac_address_bytes d val) = Broadcast /\
     mac_address_bytes (set_mac_address_bytes d val) = [0; 0; 0; 0; 0; 0]) /\
    (take 6 val <> [255; 255; 255; 255; 255; 255] ->
     mac_address_bytes (set_mac_address_bytes d val) = val).
Proof.
  intros d val.
  assert (Hiff : forallb (fun i => match val !! i with
                                   | Some b => b =? 255
                                   | None => false
                                   end) (seq 0 6) = true
                 <-> take 6 val = [255; 255; 255; 255; 255; 255]).
  { destruct val as [|b0 [|b1 [|b2 [|b3 [|b4 [|b5 rest]]]]]];
      cbn [seq forallb lookup list_lookup take andb]; try (split; discriminate).
    all: try (rewrite ?andb_false_r; split; discriminate).
    rewrite andb_true_r, !andb_true_iff, !Z.eqb_eq. split.
    - intros (-> & -> & -> & -> & -> & ->). reflexivity.
    - intros [= -> -> -> -> -> ->]. repeat split. }
  unfold mac_address_bytes, set_mac_address_bytes. cbn [_mac_address_raw]. split.
  - intros Htake. apply Hiff in Htake. rewrite Htake. split; reflexivity.
  - intros Htake.
    assert (Hall : forallb (fun i => match val !! i with
                                     | Some b => b =? 255
                                     | None => false
                                     end) (seq 0 6) = false)
      by (apply not_true_iff_false; intros Hall; apply Htake, Hiff, Hall).
    rewrite Hall. reflexivity.
Qed.

Lemma mac_address_bytes_set_get_witness :
  mac_address_bytes (set_mac_address_bytes blank_device [255; 255; 255; 255; 255; 255])
  = [0; 0; 0; 0; 0; 0] /\
  mac_address_bytes (set_mac_address_bytes blank_device [0; 26; 183; 1; 2; 3])
  = [0; 26; 183; 1; 2; 3].
Proof.
  split.
  - exact (proj2 (proj1 (mac_address_bytes_set_get blank_device
                           [255; 255; 255; 255; 255; 255]) eq_refl)).
  - exact (proj2 (mac_address_bytes_set_get blank_device [0; 26; 183; 1; 2; 3])
             ltac:(discriminate)).
Defined.

(** *** From an imported namespace to the packet builder *)






(** *** The framing parser never throws on chunks of serial-port size *)







(** *** The framing parser and the listeners of its emitter *)

Section EmitterFacts.
Context {E : Type}.
Variable emit : E -> Buffer.t -> result E.






End EmitterFacts.



(** The exception of the 'data' listener on a packet of an unknown
    namespace leaves through the call of the parser, after the ping before
    it has been handed on. *)
Lemma serial_parser_listener_throws :
  let listener := dyio_listener (fun p _ => Ok (JObject (parser_name p))) default_device in
  let unknown := [3; 0; 0; 0; 0; 0; 0; 32; 5; 4; 28; 95; 112; 110; 103] in
  bowler_serial_parser.emitted
    (bowler_serial_parser.feed bowler_serial_parser.init [ping_packet ++ unknown])
  = Ok [ping_packet; unknown] /\
  emit_all listener [] [ping_packet] = Ok ["get:bcs.core#_png"] /\
  feed_emitting listener [] bowler_serial_parser.init [ping_packet ++ unknown]
  = Throw (Error "Received packet from unknown namespace!").
Proof. repeat split; vm_compute; reflexivity. Qed.

(** *** The framing parser on chunks cut at packet boundaries *)

Lemma wire_packet_length p :
  wire_packet p ->
  exists size, Buffer.get p BOWLER_SIZE_BYTE = Some size /\ 0 <= size < 256 /\
               Buffer.length p = BOWLER_HEADER_SIZE + size.
Proof.
  intros [Hbytes Hcomplete]. unfold complete_packet in Hcomplete.
  destruct (Buffer.get p BOWLER_SIZE_BYTE) as [size|] eqn:Hsize; [|discriminate].
  apply Z.eqb_eq in Hcomplete. exists size. split; [reflexivity|]. split; [|exact Hcomplete].
  unfold Buffer.get, BOWLER_SIZE_BYTE in Hsize. cbn in Hsize.
  rewrite Forall_lookup in Hbytes. exact (Hbytes _ _ Hsize).
Qed.

(** With whole packets buffered one after the other, the loop emits them
    one by one and leaves nothing behind. *)
Lemma while_loop_whole_packets packets : forall (pre post : Buffer.t) fuel out to_read,
  Forall wire_packet packets ->
  Buffer.length (pre ++ concat packets ++ post) = 255 ->
  Buffer.length (concat packets) <= Z.of_nat fuel ->
  exists to_read',
    bowler_serial_parser.while_loop fuel
      (bowler_serial_parser.mk_state None (pre ++ concat packets ++ post)
         (Buffer.length pre) (Buffer.length (concat packets)) to_read) out
    = Ok (bowler_serial_parser.mk_state None (pre ++ concat packets ++ post)
            (Buffer.length pre + Buffer.length (concat packets)) 0 to_read',
          out ++ packets).
Proof.
  induction packets as [|p packets IH]; intros pre post fuel out to_read Hwire Hlen Hfuel.
  - exists to_read. cbn [concat]. change (Buffer.length []) with 0.
    rewrite Z.add_0_r, app_nil_r.
    destruct fuel; reflexivity.
  - apply Forall_cons in Hwire as [Hp Hwire].
    destruct (wire_packet_length p Hp) as (size & Hsize & Hrange & Hplen).
    unfold BOWLER_SIZE_BYTE, BOWLER_HEADER_SIZE in *.
    cbn [concat] in *.
    assert (Hcat : Buffer.length (p ++ concat packets)
                   = Buffer.length p + Buffer.length (concat packets))
      by (unfold Buffer.length; rewrite length_app; lia).
    assert (Hrest0 : 0 <= Buffer.length (concat packets)) by (unfold Buffer.length; lia).
    assert (Hpre0 : 0 <= Buffer.length pre) by (unfold Buffer.length; lia).
    rewrite Hcat in *.
    assert (Hall : Buffer.length pre + Buffer.length p + Buffer.length (concat packets)
                   <= 255).
    { unfold Buffer.length in *. rewrite !length_app in Hlen. lia. }
    destruct fuel as [|fuel]; [lia|].
    cbn [bowler_serial_parser.while_loop bowler_serial_parser.amt_left].
    replace (BOWLER_SIZE_BYTE <? Buffer.length p + Buffer.length (concat packets)) with true
      by (symmetry; apply Z.ltb_lt; unfold BOWLER_SIZE_BYTE; lia).
    set (incoming := pre ++ (p ++ concat packets) ++ post) in *.
    assert (Hread : Buffer.readUInt8 incoming (Buffer.length pre + 9) = Ok size).
    { unfold Buffer.readUInt8, Buffer.get in *.
      replace (Buffer.length pre + 9 <? 0) with false by (symmetry; apply Z.ltb_ge; lia).
      change (9 <? 0) with false in Hsize. cbv iota in Hsize.
      subst incoming. rewrite lookup_app_r by (unfold Buffer.length; lia).
      replace (Z.to_nat (Buffer.length pre + 9) - List.length pre)%nat with (Z.to_nat 9)
        by (unfold Buffer.length; lia).
      rewrite <- app_assoc, lookup_app_l by (apply lookup_lt_Some in Hsize; exact Hsize).
      rewrite Hsize. f_equal. apply Z.mod_small. lia. }
    assert (Hslice : Buffer.sub incoming (Buffer.length pre)
                       (Buffer.length pre + Buffer.length p) = p).
    { subst incoming. unfold Buffer.sub, Buffer.length. rewrite Nat2Z.id, drop_app_length.
      replace (Z.to_nat (Z.of_nat (List.length pre) + Z.of_nat (List.length p)
                         - Z.of_nat (List.length pre))) with (List.length p) by lia.
      rewrite <- app_assoc. apply take_app_length. }
    assert (Hbody :
      bowler_serial_parser.loop_body
        (bowler_serial_parser.mk_state None incoming (Buffer.length pre)
           (Buffer.length p + Buffer.length (concat packets)) to_read)
      = Ok (bowler_serial_parser.mk_state None incoming
              (Buffer.length pre + Buffer.length p) (Buffer.length (concat packets)) 0,
            Some p)).
    { unfold bowler_serial_parser.loop_body.
      cbn [bowler_serial_parser.amt_left bowler_serial_parser.incoming_data
           bowler_serial_parser.curr_ind bowler_serial_parser.bowler_data
           bowler_serial_parser.amt_left_to_read].
      unfold BOWLER_SIZE_BYTE, BOWLER_HEADER_SIZE. rewrite Hread.
      cbn [mbind result_bind]. rewrite <- Hplen.
      replace ((0 <? Buffer.length p)
               && (0 <? Buffer.length p + Buffer.length (concat packets))) with true
        by (symmetry; apply andb_true_iff; split; apply Z.ltb_lt; lia).
      replace (Buffer.length p + Buffer.length (concat packets) <? Buffer.length p)
        with false by (symmetry; apply Z.ltb_ge; lia).
      assert (Halloc : Buffer.length (Buffer.alloc (Buffer.length p)) = Buffer.length p).
      { unfold Buffer.length, Buffer.alloc. rewrite repeat_length. lia. }
      rewrite Halloc, Z.sub_diag.
      rewrite copy_fits by (subst incoming; unfold Buffer.length in *;
                            rewrite ?length_app in *; lia).
      cbn [mbind result_bind]. rewrite Hslice.
      assert (Hfull : Buffer.write_bytes (Buffer.alloc (Buffer.length p)) 0 p = p).
      { unfold Buffer.write_bytes. change (Z.to_nat 0) with 0%nat. rewrite take_0.
        cbn [app Nat.add].
        rewrite drop_ge by (unfold Buffer.alloc, Buffer.length; rewrite repeat_length; lia).
        apply app_nil_r. }
      rewrite Hfull, Z.eqb_refl.
      replace (0 <? Buffer.length p) with true by (symmetry; apply Z.ltb_lt; lia).
      cbn [andb].
      replace (Buffer.length p + Buffer.length (concat packets) - Buffer.length p)
        with (Buffer.length (concat packets)) by lia.
      reflexivity. }
    rewrite Hbody. cbn [mbind result_bind option_list].
    destruct (IH (pre ++ p) post fuel (out ++ [p]) 0 Hwire) as (to_read' & Hloop).
    { rewrite <- app_assoc. subst incoming. rewrite <- app_assoc in Hlen. exact Hlen. }
    { lia. }
    exists to_read'.
    replace (Buffer.length (pre ++ p)) with (Buffer.length pre + Buffer.length p) in Hloop
      by (unfold Buffer.length; rewrite length_app; lia).
    subst incoming. rewrite <- !app_assoc in *.
    change (option_list (Some p)) with [p]. rewrite Hloop. cbn [app].
    rewrite Z.add_assoc. reflexivity.
Qed.

Lemma parse_chunk_whole_packets s packets :
  idle s -> Forall wire_packet packets -> Buffer.length (concat packets) <= 255 ->
  exists s', bowler_serial_parser.parse_chunk s (concat packets) = Ok (s', packets) /\ idle s'.
Proof.
  intros (Hdata & Hind & Hleft & Hinc) Hwire H255.
  destruct s as [data incoming ind avail to_read]. cbn in Hdata, Hind, Hleft, Hinc.
  subst data ind avail.
  unfold bowler_serial_parser.parse_chunk.
  cbn [bowler_serial_parser.amt_left bowler_serial_parser.incoming_data
       bowler_serial_parser.curr_ind bowler_serial_parser.bowler_data
       bowler_serial_parser.amt_left_to_read].
  destruct packets as [|p packets].
  - cbn [concat]. change (Buffer.length []) with 0.
    exists (bowler_serial_parser.mk_state None incoming 0 0 to_read).
    split; [|repeat split; exact Hinc].
    unfold Buffer.copy. change (0 <=? 0) with true. rewrite orb_true_r. reflexivity.
  - set (chunk := concat (p :: packets)) in *.
    assert (Hpos : 0 < Buffer.length chunk).
    { apply Forall_cons in Hwire as [Hp _].
      destruct (wire_packet_length p Hp) as (size & _ & Hrange & Hplen).
      unfold BOWLER_HEADER_SIZE in Hplen. subst chunk. cbn [concat].
      unfold Buffer.length in *. rewrite length_app. lia. }
    pose proof (copy_fits chunk incoming 0 0 (Buffer.length chunk)) as Hcopy.
    rewrite Z.add_0_l, sub_all in Hcopy. rewrite Hcopy by lia. clear Hcopy.
    cbn [mbind result_bind]. rewrite Z.add_0_l.
    assert (Hincoming : Buffer.write_bytes incoming 0 chunk
                        = [] ++ chunk ++ drop (List.length chunk) incoming).
    { unfold Buffer.write_bytes. change (Z.to_nat 0) with 0%nat. rewrite take_0.
      reflexivity. }
    rewrite Hincoming.
    destruct (while_loop_whole_packets (p :: packets) []
                (drop (List.length chunk) incoming)
                (Z.to_nat (Buffer.length chunk)) [] to_read Hwire) as (to_read' & Hloop).
    { fold chunk. unfold Buffer.length in *. cbn [app].
      rewrite length_app, length_drop. lia. }
    { fold chunk. lia. }
    fold chunk in Hloop. change (Buffer.length []) with 0 in Hloop.
    rewrite Hloop. cbn [mbind result_bind app bowler_serial_parser.amt_left
      bowler_serial_parser.incoming_data bowler_serial_parser.bowler_data
      bowler_serial_parser.amt_left_to_read].
    change (0 <? 0) with false. cbv iota.
    eexists. split; [reflexivity|].
    repeat split. cbn [bowler_serial_parser.incoming_data].
    unfold Buffer.length in *. rewrite length_app, length_drop. lia.
Qed.

(** X19: a stream of complete packets that is cut into chunks at packet
    boundaries, each chunk holding any number of whole packets and at most
    255 bytes, is framed as sent: the parser emits exactly the packets, in
    order, and is idle afterwards. *)
Theorem serial_parser_frames_aligned_chunks :
  forall (groups : list (list Buffer.t)),
    Forall (fun packets => Forall wire_packet packets /\
                           Buffer.length (concat packets) <= 255) groups ->
    exists s',
      bowler_serial_parser.feed bowler_serial_parser.init (map (@concat Z) groups)
      = Ok (s', concat groups) /\
      idle s'.
Proof.
  intros groups Hgroups.
  assert (Hinit : idle bowler_serial_parser.init) by (repeat split).
  revert Hinit. generalize bowler_serial_parser.init as s.
  induction Hgroups as [|packets groups [Hwire H255] _ IH]; intros s Hs.
  - exists s. split; [reflexivity | exact Hs].
  - cbn [map concat bowler_serial_parser.feed].
    destruct (parse_chunk_whole_packets s packets Hs Hwire H255) as (s1 & -> & Hs1).
    cbn [mbind result_bind].
    destruct (IH s1 Hs1) as (s2 & -> & Hs2).
    cbn [mbind result_bind]. exists s2. split; [reflexivity | exact Hs2].
Qed.

Lemma serial_parser_frames_aligned_chunks_witness :
  exists s',
    bowler_serial_parser.feed bowler_serial_parser.init
      [ping_packet ++ ping_packet; ping_packet]
    = Ok (s', [ping_packet; ping_packet; ping_packet]) /\
    idle s'.
Proof.
  assert (Hping : wire_packet ping_packet).
  { split; [repeat constructor; lia | reflexivity]. }
  exact (serial_parser_frames_aligned_chunks [[ping_packet; ping_packet]; [ping_packet]]
           ltac:(repeat constructor; try exact Hping; vm_compute; discriminate)).
Defined.

(** *** Ranges of an assembler that was given an offset *)

(** X20: on an assembler made with an offset, [bytes(start, end).fromInt]
    takes ranges of 1, 2 and 4 bytes only.  For such a range it queues one
    instruction, the UInt8, Int16 or Int32 serializer at the absolute index
    offset + start, and the length of the assembler becomes the larger of
    its old length and offset + end + 1; for a range of any other width it
    throws. *)
Theorem assembler_fromInt_widths :
  forall (this : PacketAssembler.t) (o start end_ : Z) (val : jsval),
    PacketAssembler.offset_param this = Some o ->
    let ranged := PacketAssembler.bytes this start end_ in
    let width := end_ - start + 1 in
    (forall T,
       (width = 1 /\ T = data_types.UInt8) \/
       (width = 2 /\ T = data_types.Int16) \/
       (width = 4 /\ T = data_types.Int32) ->
       PacketAssembler.fromInt ranged.1 ranged.2 val
       = Ok (PacketAssembler.mk
               (Z.max (PacketAssembler.length this) (o + end_ + 1))
               (PacketAssembler.instructions this
                  ++ [PacketAssembler.mk_instruction (PacketAssembler.Serialize T) val
                        (Num (o + start))])
               (PacketAssembler.offset this) (Some o))) /\
    (width <> 1 -> width <> 2 -> width <> 4 ->
     PacketAssembler.fromInt ranged.1 ranged.2 val
     = Throw (Error "Cannot write ints greater than 32 bits in size!")).
Proof.
  intros [len instrs off param] o start end_ val Hparam ranged width.
  cbn [PacketAssembler.offset_param] in Hparam. subst param.
  assert (Hranged : ranged
            = (PacketAssembler.mk (Z.max len (o + end_ + 1)) instrs off (Some o),
               PacketAssembler.mk_range (Num (o + start)) (Num (o + end_)))).
  { subst ranged. unfold PacketAssembler.bytes, PacketAssembler.new_ByteRange,
      PacketAssembler.closure_offset.
    cbn [PacketAssembler.offset_param PacketAssembler.length PacketAssembler.instructions
         PacketAssembler.offset number_add number_gt].
    destruct (len <? o + end_ + 1) eqn:Hc;
      [apply Z.ltb_lt in Hc | apply Z.ltb_ge in Hc]; do 2 f_equal; lia. }
  rewrite Hranged. cbn [fst snd]. unfold PacketAssembler.fromInt, PacketAssembler.range_length,
    PacketAssembler.push.
  cbn [PacketAssembler.start PacketAssembler.end_ number_sub number_add number_eq
       PacketAssembler.length PacketAssembler.instructions PacketAssembler.offset
       PacketAssembler.offset_param].
  replace (o + end_ - (o + start) + 1) with width by (subst width; lia).
  split.
  - intros T [[Hw ->] | [[Hw ->] | [Hw ->]]]; rewrite Hw; reflexivity.
  - intros H1 H2 H4.
    destruct (width =? 1) eqn:E1; [apply Z.eqb_eq in E1; contradiction|].
    destruct (width =? 2) eqn:E2; [apply Z.eqb_eq in E2; contradiction|].
    destruct (width =? 4) eqn:E4; [apply Z.eqb_eq in E4; contradiction|].
    reflexivity.
Qed.

Lemma assembler_fromInt_widths_witness :
  PacketAssembler.fromInt
    (PacketAssembler.bytes (PacketAssembler.new (Some 15)) 1 4).1
    (PacketAssembler.bytes (PacketAssembler.new (Some 15)) 1 4).2 (JNumber (Num 7))
  = Ok (PacketAssembler.mk 20
          [PacketAssembler.mk_instruction (PacketAssembler.Serialize data_types.Int32)
             (JNumber (Num 7)) (Num 16)] 15 (Some 15)).
Proof.
  exact (proj1 (assembler_fromInt_widths (PacketAssembler.new (Some 15)) 15 1 4
                  (JNumber (Num 7)) eq_refl)
           data_types.Int32 (or_intror (or_intror (conj eq_refl eq_refl)))).
Defined.

(** *** The checksum *)

Lemma fold_left_add_sum (l : list Z) : forall a,
  fold_left Z.add l a = a + fold_right Z.add 0 l.
Proof.
  induction l as [|b l IH]; intros a; cbn [fold_left fold_right]; [lia|].
  rewrite IH. lia.
Qed.

Lemma sum_Permutation (l1 l2 : list Z) :
  l1 ≡ₚ l2 -> fold_right Z.add 0 l1 = fold_right Z.add 0 l2.
Proof.
  induction 1; cbn [fold_right]; lia.
Qed.

(** X21: the checksum of a non-empty buffer is the sum of its bytes modulo
    256, a value from 0 to 255; so two buffers that hold the same bytes in
    a different order have the same checksum.  The empty buffer has none:
    [make_checksum] throws on it. *)
Theorem make_checksum_is_sum_mod_256 :
  forall (buff buff' : Buffer.t),
    buff <> [] ->
    buff ≡ₚ buff' ->
    bowler_util.make_checksum buff = Ok (fold_right Z.add 0 buff mod 256) /\
    0 <= fold_right Z.add 0 buff mod 256 < 256 /\
    bowler_util.make_checksum buff' = bowler_util.make_checksum buff /\
    bowler_util.make_checksum []
    = Throw (TypeError "Reduce of empty array with no initial value").
Proof.
  intros buff buff' Hne Hperm.
  assert (Hsum : forall b : Buffer.t, b <> [] ->
            bowler_util.make_checksum b = Ok (fold_right Z.add 0 b mod 256)).
  { intros [|a rest] Hb; [contradiction|].
    rewrite make_checksum_low_byte, fold_left_add_sum. reflexivity. }
  split; [apply Hsum; exact Hne|].
  split; [apply Z.mod_pos_bound; lia|].
  split; [|reflexivity].
  rewrite !Hsum; [rewrite (sum_Permutation _ _ Hperm); reflexivity | exact Hne |].
  intros ->. apply Permutation_nil_r in Hperm. contradiction.
Qed.

Lemma make_checksum_is_sum_mod_256_witness :
  bowler_util.make_checksum [3; 0; 0; 0; 0; 0; 0; 16; 0; 4] = Ok 23 /\
  bowler_util.make_checksum [4; 0; 16; 0; 0; 0; 0; 0; 0; 3]
  = bowler_util.make_checksum [3; 0; 0; 0; 0; 0; 0; 16; 0; 4].
Proof.
  destruct (make_checksum_is_sum_mod_256 [3; 0; 0; 0; 0; 0; 0; 16; 0; 4]
              [4; 0; 16; 0; 0; 0; 0; 0; 0; 3] ltac:(discriminate)
              ltac:(apply (Permutation_rev [3; 0; 0; 0; 0; 0; 0; 16; 0; 4])))
    as (Hsum & _ & Hperm & _).
  split; [exact Hsum | exact Hperm].
Defined.

(** *** The MAC address string of a parsed packet *)

(** X22: the MAC address string that [BOWLER_PACKET_PARSER] builds puts
    the hexadecimal digits of the six bytes one after the other, without
    padding and without separators, so it does not determine the address:
    for hexadecimal digits x, y, z with x and y not zero, the addresses
    that start with the bytes 0x0x 0xyz and with the bytes 0xxy 0x0z get
    the same string. *)
Theorem mac_address_format_not_injective :
  forall (x y z : Z) (tail : Buffer.t),
    1 <= x < 16 -> 1 <= y < 16 -> 0 <= z < 16 ->
    x :: 16 * y + z :: tail <> 16 * x + y :: z :: tail /\
    mac_address_format (x :: 16 * y + z :: tail)
    = mac_address_format (16 * x + y :: z :: tail).
Proof.
  intros x y z tail Hx Hy Hz. split; [intros [= Hhead _]; lia|].
  unfold mac_address_format. cbn [fold_left]. f_equal.
  rewrite !Z.mod_small by lia. unfold to_hex_upper.
  replace (x <? 16) with true by (symmetry; apply Z.ltb_lt; lia).
  replace (z <? 16) with true by (symmetry; apply Z.ltb_lt; lia).
  replace (16 * y + z <? 16) with false by (symmetry; apply Z.ltb_ge; lia).
  replace (16 * x + y <? 16) with false by (symmetry; apply Z.ltb_ge; lia).
  replace ((16 * y + z) / 16) with y by (apply Z.div_unique with z; lia).
  replace ((16 * y + z) mod 16) with z by (apply Z.mod_unique with y; lia).
  replace ((16 * x + y) / 16) with x by (apply Z.div_unique with y; lia).
  replace ((16 * x + y) mod 16) with y by (apply Z.mod_unique with x; lia).
  reflexivity.
Qed.

Lemma mac_address_format_not_injective_witness :
  mac_address_format [1; 35; 0; 0; 0; 0] = mac_address_format [18; 3; 0; 0; 0; 0].
Proof.
  exact (proj2 (mac_address_format_not_injective 1 2 3 [0; 0; 0; 0]
                  ltac:(lia) ltac:(lia) ltac:(lia))).
Defined.

(** *** The whole buffer as a range *)

(** X23: [all_bytes()] returns a range that holds a copy of the whole
    source, whatever the source; [bytes()] without arguments does not: its
    guard never sends it to [all_bytes()], and the range it returns is
    empty. *)
Theorem bytes_without_arguments_is_empty :
  forall (src : Buffer.t),
    (exists r, PacketByteContainer.all_bytes src = Ok r /\
               PacketByteContainer.buff r = src) /\
    (exists r, PacketByteContainer.bytes src None None = Ok r /\
               PacketByteContainer.buff r = []).
Proof.
  intros src. split.
  - unfold PacketByteContainer.all_bytes.
    destruct src as [|b src].
    + eexists. split; [reflexivity | reflexivity].
    + set (s := b :: src).
      assert (Hlen : 1 <= Buffer.length s)
        by (subst s; unfold Buffer.length; cbn [List.length]; lia).
      rewrite new_ByteRange_clamped by lia.
      eexists. split; [reflexivity|]. cbn [PacketByteContainer.buff].
      replace (Buffer.length s - 1 + 1) with (Buffer.length s) by lia.
      rewrite sub_all, Z.sub_diag. apply app_nil_r.
  - unfold PacketByteContainer.bytes, PacketByteContainer.new_ByteRange, Buffer.copy.
    cbn [default]. change (Buffer.alloc 0) with (@nil Z).
    change (Buffer.length []) with 0.
    cbn [Z.ltb Z.compare orb Z.leb]. cbn [mbind result_bind].
    eexists. split; reflexivity.
Qed.

(** *** Merging method arrays *)

Lemma method_array_entries l : method_array l = Obj None (indexed_entries 0 l).
Proof. reflexivity. Qed.

Lemma get_indexed_entries l : forall i j,
  get (indexed_entries i l) (pretty j)
  = if (i <=? j)%nat then (fun m => Prim (PStr m)) <$> l !! (j - i)%nat else None.
Proof.
  induction l as [|m l IH]; intros i j; cbn [indexed_entries get].
  - destruct (i <=? j)%nat; reflexivity.
  - destruct (String.eqb (pretty i) (pretty j)) eqn:He.
    + apply String.eqb_eq in He. apply (inj pretty) in He. subst j.
      rewrite Nat.leb_refl, Nat.sub_diag. reflexivity.
    + assert (Hne : i <> j) by (intros ->; rewrite String.eqb_refl in He; discriminate).
      rewrite IH.
      destruct (i <=? j)%nat eqn:Hij; [apply Nat.leb_le in Hij | apply Nat.leb_gt in Hij].
      * replace (S i <=? j)%nat with true by (symmetry; apply Nat.leb_le; lia).
        replace (j - i)%nat with (S (j - S i)) by lia. reflexivity.
      * replace (S i <=? j)%nat with false by (symmetry; apply Nat.leb_gt; lia).
        reflexivity.
Qed.

Lemma set_indexed_entries_end l : forall i m,
  set (indexed_entries i l) (pretty (i + List.length l)%nat) (Prim (PStr m))
  = indexed_entries i (l ++ [m]).
Proof.
  induction l as [|x l IH]; intros i m; cbn [indexed_entries set app List.length].
  - rewrite Nat.add_0_r. reflexivity.
  - destruct (String.eqb (pretty i) (pretty (i + S (List.length l))%nat)) eqn:He.
    + apply String.eqb_eq in He. apply (inj pretty) in He. lia.
    + f_equal. replace (i + S (List.length l))%nat with (S i + List.length l)%nat by lia.
      apply IH.
Qed.

Lemma extend_props_indexed_entries l2 : forall (l1 : list string) i,
  (i <= List.length l1)%nat ->
  bowler_util.extend_props (indexed_entries 0 l1) (indexed_entries i l2)
  = indexed_entries 0 (l1 ++ drop (List.length l1 - i) l2).
Proof.
  induction l2 as [|m l2 IH]; intros l1 i Hi; cbn [indexed_entries bowler_util.extend_props].
  - rewrite drop_nil, app_nil_r. reflexivity.
  - rewrite get_indexed_entries. cbn [Nat.leb]. rewrite Nat.sub_0_r.
    destruct (l1 !! i) as [x|] eqn:Hx; cbn [fmap option_fmap option_map].
    + cbn [bowler_util.isObject]. apply lookup_lt_Some in Hx.
      rewrite IH by lia.
      replace (List.length l1 - i)%nat with (S (List.length l1 - S i)) by lia.
      reflexivity.
    + apply lookup_ge_None in Hx. assert (i = List.length l1) as -> by lia.
      pose proof (set_indexed_entries_end l1 0 m) as Hset.
      cbn [Nat.add] in Hset. rewrite Hset.
      rewrite IH by (rewrite length_app; cbn [List.length]; lia).
      rewrite length_app. cbn [List.length].
      replace (List.length l1 + 1 - S (List.length l1))%nat with 0%nat by lia.
      rewrite Nat.sub_diag. cbn [drop]. rewrite <- app_assoc. reflexivity.
Qed.

(** X24: [extend] merges two arrays of method names index by index: the
    existing array keeps all its elements, and of the contributed array
    only the elements at indices the existing array does not have are
    added.  The method names are not united. *)
Theorem extend_method_arrays_by_index :
  forall (existing contributed : list string),
    bowler_util.extend (method_array existing) (method_array contributed)
    = method_array (existing ++ drop (List.length existing) contributed).
Proof.
  intros existing contributed. rewrite !method_array_entries.
  cbn [bowler_util.extend]. f_equal.
  rewrite extend_props_indexed_entries by lia. rewrite Nat.sub_0_r. reflexivity.
Qed.

(** *** Importing a namespace twice *)

Section ImportTwice.
Context {F : Type}.
Implicit Types (n dest src : node F) (ps dps sps : props F).

Lemma set_get_id ps k v : get ps k = Some v -> set ps k v = ps.
Proof.
  induction ps as [|key value rest IH]; cbn [get set]; [discriminate|].
  destruct (String.eqb key k); [intros [= <-]; reflexivity|].
  intros Hget. rewrite IH by exact Hget. reflexivity.
Qed.

(** A destination that no step of the loop of [extend] changes is left as
    it is by the whole loop. *)
Lemma extend_props_stable sps : forall dps,
  NoDup (keys sps) ->
  (forall k sv, get sps k = Some sv ->
     match get dps k with
     | None => set dps k sv
     | Some dv => if bowler_util.isObject sv
                  then set dps k (bowler_util.extend dv sv) else dps
     end = dps) ->
  bowler_util.extend_props dps sps = dps.
Proof.
  induction sps as [|prop sv rest IH]; intros dps Hnd Hstable; [reflexivity|].
  cbn [keys] in Hnd. apply NoDup_cons in Hnd as [Hfresh Hnd].
  cbn [bowler_util.extend_props].
  rewrite (Hstable prop sv) by (cbn [get]; rewrite String.eqb_refl; reflexivity).
  apply IH; [exact Hnd|].
  intros k sv' Hk. apply Hstable. cbn [get].
  destruct (String.eqb prop k) eqn:He; [|exact Hk].
  apply String.eqb_eq in He. subst k.
  rewrite (get_None_not_key rest prop Hfresh) in Hk. discriminate Hk.
Qed.

Lemma extend_twice_mutual :
  (forall src, distinct_deep src ->
     (forall dest, bowler_util.extend (bowler_util.extend dest src) src
                   = bowler_util.extend dest src) /\
     bowler_util.extend src src = src) /\
  (forall sps, distinct_deep_props sps ->
     forall k sv, get sps k = Some sv ->
       (forall dest, bowler_util.extend (bowler_util.extend dest sv) sv
                     = bowler_util.extend dest sv) /\
       bowler_util.extend sv sv = sv).
Proof.
  apply node_props_mutind.
  - intros p _. split; [intros dest; destruct dest; reflexivity | reflexivity].
  - intros fn sps IH [Hnd Hdeep]. specialize (IH Hdeep). split.
    + intros [p|dfn dps]; [reflexivity|].
      cbn [bowler_util.extend]. f_equal.
      apply extend_props_stable; [exact Hnd|].
      intros k sv Hk. rewrite (get_extend_props sps dps k Hnd), Hk.
      destruct (IH k sv Hk) as [Hagain Hself].
      destruct (get dps k) as [dv|] eqn:Hd; cbn [merged_entry].
      * destruct (bowler_util.isObject sv) eqn:Hobj; [|reflexivity].
        rewrite Hagain. apply set_get_id.
        rewrite (get_extend_props sps dps k Hnd), Hk, Hd. cbn [merged_entry].
        rewrite Hobj. reflexivity.
      * destruct (bowler_util.isObject sv); [|reflexivity].
        rewrite Hself. apply set_get_id.
        rewrite (get_extend_props sps dps k Hnd), Hk, Hd. reflexivity.
    + cbn [bowler_util.extend]. f_equal.
      apply extend_props_stable; [exact Hnd|].
      intros k sv Hk. rewrite Hk. destruct (IH k sv Hk) as [_ Hself].
      destruct (bowler_util.isObject sv); [|reflexivity].
      rewrite Hself. apply set_get_id. exact Hk.
  - intros _ k sv Hk. discriminate Hk.
  - intros key value Hvalue rest IH [Hv Hrest] k sv. cbn [get].
    destruct (String.eqb key k); [intros [= <-]; exact (Hvalue Hv) | exact (IH Hrest k sv)].
Qed.

Lemma extend_twice dest src :
  distinct_deep src ->
  bowler_util.extend (bowler_util.extend dest src) src = bowler_util.extend dest src.
Proof. intros Hsrc. apply (proj1 extend_twice_mutual src Hsrc). Qed.

Lemma grows_truthy (a b : node F) : grows a b -> truthy_node a = truthy_node b.
Proof. destruct 1; reflexivity. Qed.

Lemma import_at_twice path : forall (obj c obj' : node F),
  all_truthy obj = true ->
  distinct_deep c ->
  BowlerNamespace.import_at obj path c = Ok obj' ->
  BowlerNamespace.import_at obj' path c = Ok obj'.
Proof.
  induction path as [|seg rest IH]; intros obj c obj' Htruthy Hc Himport.
  - cbn [BowlerNamespace.import_at] in *. injection Himport as <-.
    rewrite extend_twice by exact Hc. reflexivity.
  - cbn [BowlerNamespace.import_at] in Himport.
    destruct obj as [p|fn ps].
    + destruct rest; [|discriminate].
      destruct (BowlerNamespace.has_properties c) eqn:Hhas; [discriminate|].
      injection Himport as <-. cbn [BowlerNamespace.import_at]. rewrite Hhas. reflexivity.
    + set (child := match get ps seg with
                    | Some c0 => if truthy_node c0 then c0 else empty_object
                    | None => empty_object
                    end) in *.
      destruct (BowlerNamespace.import_at child rest c) as [child'|e] eqn:Hchild;
        [|discriminate].
      cbn [mbind result_bind] in Himport. injection Himport as <-.
      assert (Hchild_truthy : all_truthy child = true).
      { subst child. destruct (get ps seg) as [c0|] eqn:Hget; [|reflexivity].
        cbn [all_truthy] in Htruthy.
        pose proof (all_truthy_get _ _ _ Htruthy Hget) as Hc0.
        rewrite (all_truthy_truthy _ Hc0). exact Hc0. }
      assert (Htruthy' : truthy_node child' = true).
      { rewrite <- (grows_truthy child child').
        - apply all_truthy_truthy. exact Hchild_truthy.
        - exact (import_at_grows _ _ _ _ Hchild_truthy Hchild). }
      cbn [BowlerNamespace.import_at]. rewrite get_set_same, Htruthy'.
      rewrite (IH child c child' Hchild_truthy Hc Hchild). cbn [mbind result_bind].
      do 2 f_equal. apply set_get_id. apply get_set_same.
Qed.

End ImportTwice.

(** X25: importing a namespace a second time changes nothing: when
    [supports_namespace] has returned for a device and a contribution, the
    same call on the resulting device returns that device again.  The
    registries hold no falsy primitive, and the contribution is made of
    object literals that use no name that every object inherits. *)
Theorem supports_namespace_twice :
  forall (dev dev' : BowlerDevice) (ns : BowlerNamespace.t),
    registries_truthy dev = true ->
    contribution_literal ns ->
    contribution_plain ns = true ->
    supports_namespace dev ns = Ok dev' ->
    supports_namespace dev' ns = Ok dev'.
Proof.
  intros dev dev' ns Htruthy (Hp & Hb & Hs & Hr) _.
  unfold registries_truthy in Htruthy.
  apply andb_true_iff in Htruthy as [Htruthy Htr].
  apply andb_true_iff in Htruthy as [Htruthy Hts].
  apply andb_true_iff in Htruthy as [Htp Htb].
  unfold supports_namespace, BowlerNamespace.import_into,
    BowlerNamespace._import_into_objs.
  destruct (BowlerNamespace.import_at (_parsers dev) _ _) as [p|e] eqn:Hip; [|discriminate].
  destruct (BowlerNamespace.import_at (_builders dev) _ _) as [b|e] eqn:Hib; [|discriminate].
  destruct (BowlerNamespace.import_at (_rpc_send_methods dev) _ _) as [s|e] eqn:His;
    [|discriminate].
  destruct (BowlerNamespace.import_at (_rpc_recv_methods dev) _ _) as [r|e] eqn:Hir;
    [|discriminate].
  cbn [mbind result_bind]. intros [= <-].
  cbn [_parsers _builders _rpc_send_methods _rpc_recv_methods supported_namespaces
       _mac_address_raw].
  rewrite (import_at_twice _ _ _ _ Htp Hp Hip), (import_at_twice _ _ _ _ Htb Hb Hib),
    (import_at_twice _ _ _ _ Hts Hs His), (import_at_twice _ _ _ _ Htr Hr Hir).
  reflexivity.
Qed.

Lemma supports_namespace_twice_witness :
  exists d',
    supports_namespace blank_device bcs_core = Ok d' /\
    supports_namespace d' bcs_core = Ok d'.
Proof.
  assert (Hliteral : contribution_literal bcs_core).
  { unfold contribution_literal, bcs_core, method_map.
    cbn [BowlerNamespace.parsers BowlerNamespace.builders BowlerNamespace.send_methods
         BowlerNamespace.recv_methods distinct_deep distinct_deep_props keys fold_right].
    repeat split;
      repeat (apply NoDup_cons_2;
              [rewrite ?elem_of_cons, ?elem_of_nil; intuition discriminate|]);
      apply NoDup_nil_2. }
  eexists. split; [reflexivity|].
  exact (supports_namespace_twice blank_device _ bcs_core eq_refl Hliteral eq_refl eq_refl).
Defined.

(** ** Importing a namespace: what is kept, what is added, what is replaced *)



(** An override imported before the base module stays: the builder
    registered for [_png] is kept, the builder for [_nms] is added. *)
Lemma override_then_base :
  exists dev',
    supports_namespace overridden_device bcs_core = Ok dev' /\
    lookup_path (_builders overridden_device) ["bcs"; "core"; "_png"]
    = Some (Obj (Some bcs_rpc_builder) PNil) /\
    lookup_path (_builders overridden_device) ["bcs"; "core"; "_nms"] = None /\
    lookup_path (_builders dev') ["bcs"; "core"; "_png"]
    = Some (Obj (Some bcs_rpc_builder) PNil) /\
    lookup_path (_builders dev') ["bcs"; "core"; "_nms"]
    = Some (Obj (Some bcs_core_nms_builder) PNil).
Proof. eexists. repeat split; reflexivity. Qed.


